(** * dnd-ai-simulator: the action router, the state store and the rule modules

    A shallow embedding of the turn/combat core of the simulator:

    - [backend/core/module_manager.py]   the module contract and [ModuleManager]
    - [backend/GameStateManager.py]      the state store
    - [backend/core/GameEngine.py]       the first-generation engine
    - [backend/modules/movement.py], [combat.py], [inventory.py], [spells.py]

    Python objects become records, the [characters] dict (whose insertion
    order is observable through [sorted] and [values()]) becomes an
    association list, integer-keyed and id-keyed counters become [gmap]s,
    and code that mutates the store, draws random numbers or raises is
    written in a state-and-exception monad. *)

From Stdlib Require Import ZArith List Sorted Permutation DecimalString Ascii.
From stdpp Require Import gmap strings list.

Local Open Scope Z_scope.

(* ================================================================== *)
(** ** Python values used by the code *)

(** [str(n)] for an [int]. *)
Definition str_int (z : Z) : string := NilZero.string_of_int (Z.to_int z).

(** [str(t)] for a pair of ints, as an f-string prints a position. *)
Definition str_pos (p : Z * Z) : string :=
  "(" +:+ str_int (fst p) +:+ ", " +:+ str_int (snd p) +:+ ")".

(** [c.lower()] on one ASCII character. *)
Definition lower_ascii (c : ascii) : ascii :=
  let n := N_of_ascii c in
  if ((65 <=? n) && (n <=? 90))%N then ascii_of_N (n + 32) else c.

(** [s.lower()], on ASCII strings. *)
Fixpoint lower (s : string) : string :=
  match s with
  | EmptyString => EmptyString
  | String c s' => String (lower_ascii c) (lower s')
  end.

(** [s.replace(" ", "_")]. *)
Fixpoint replace_space (s : string) : string :=
  match s with
  | EmptyString => EmptyString
  | String c s' =>
      String (if Ascii.eqb c " "%char then "_"%char else c) (replace_space s')
  end.

(** Truthiness of an [Optional[str]]: [None] and the empty string are falsy. *)
Definition truthy (o : option string) : bool :=
  match o with
  | Some s => negb (String.eqb s "")
  | None => false
  end.

(** An instance of [Exception]: its class name and [str(e)]. *)
Record exn := PyExc { exc_class : string; exc_msg : string }.

(** How a call ends: it returns a value or raises. *)
Inductive Outcome (A : Type) : Type :=
| Ret (a : A)
| Raise (e : exn).
Arguments Ret {A} a.
Arguments Raise {A} e.

(* ================================================================== *)
(** ** Action records ([action_data: Dict[str, Any]])

    Every key of the dict is either absent ([None] here) or bound to a
    value of the type the handlers expect, so [action_data.get(k)] is the
    field and [action_data.get(k, d)] is [default d] of it. *)
Module Action.
Record t := mk {
  type : option string;
  character_id : option string;
  position : option (Z * Z);
  attacker_id : option string;
  target_id : option string;
  spell_name : option string;
  item_name : option string
}.

(** The dict holding only a [type] tag. *)
Definition of_type (ty : string) : t :=
  mk (Some ty) None None None None None None.

Definition with_position (v : Z * Z) (a : t) : t :=
  mk (type a) (character_id a) (Some v) (attacker_id a) (target_id a)
     (spell_name a) (item_name a).
End Action.

(** [action_data.get('type') in tags]. *)
Definition type_in (a : Action.t) (tags : list string) : bool :=
  match Action.type a with
  | Some ty => existsb (String.eqb ty) tags
  | None => false
  end.

(** [action_type == tag]. *)
Definition type_is (a : Action.t) (tag : string) : bool :=
  match Action.type a with
  | Some ty => String.eqb ty tag
  | None => false
  end.

(* ================================================================== *)
(** ** [core/module_manager.py]: the module contract and the router *)

(** What the router writes to its [logging] logger. *)
Inductive LogRecord :=
| LogProcessed (cls : string)           (* info: "Action processed by {cls}" *)
| LogError (cls : string) (e : exn)     (* error: "Error in {cls}: {e}" *)
| LogNoModule (a : Action.t).           (* warning: "No module could handle action: {a}" *)

(** Instrumentation: which method of which registered module (by its
    index in [self.modules]) was invoked. *)
Inductive Call :=
| CalledCanHandle (i : nat)
| CalledProcess (i : nat).

Section ModuleManager.
(** Everything a module can read or mutate: the shared state store and
    the module instances' own attributes. *)
Context {St : Type}.

(** A [GameModule] subclass instance: its class name and its two
    routing methods, each of which may mutate the state and may raise. *)
Record GameModule := {
  cls_name : string;
  can_handle : Action.t -> St -> Outcome bool * St;
  process_action : Action.t -> St -> Outcome bool * St
}.

(** The result of running router code: [exit] is [Some o] when the
    code returned or raised, [None] when the loop ran off its end. *)
Record Routed := {
  exit : option (Outcome bool);
  world : St;
  logged : list LogRecord;
  called : list Call
}.

Definition emit (lg : list LogRecord) (cl : list Call) (r : Routed) : Routed :=
  {| exit := exit r; world := world r;
     logged := lg ++ logged r; called := cl ++ called r |}.

(** The [for module in self.modules] loop of [process_action], started
    at the module of index [i]. *)
Fixpoint scan (ms : list GameModule) (i : nat) (a : Action.t) (st : St) : Routed :=
  match ms with
  | [] => {| exit := None; world := st; logged := []; called := [] |}
  | m :: rest =>
      match can_handle m a st with
      | (Raise e, st1) =>
          {| exit := Some (Raise e); world := st1;
             logged := []; called := [CalledCanHandle i] |}
      | (Ret false, st1) =>
          emit [] [CalledCanHandle i] (scan rest (S i) a st1)
      | (Ret true, st1) =>
          match process_action m a st1 with
          | (Ret true, st2) =>
              {| exit := Some (Ret true); world := st2;
                 logged := [LogProcessed (cls_name m)];
                 called := [CalledCanHandle i; CalledProcess i] |}
          | (Ret false, st2) =>
              emit [] [CalledCanHandle i; CalledProcess i]
                (scan rest (S i) a st2)
          | (Raise e, st2) =>
              emit [LogError (cls_name m) e]
                [CalledCanHandle i; CalledProcess i]
                (scan rest (S i) a st2)
          end
      end
  end.

(** What [ModuleManager.process_action] hands to its caller. *)
Record Dispatch := {
  outcome : Outcome bool;
  final : St;
  records : list LogRecord;
  calls : list Call
}.

(** [ModuleManager.process_action] *)
Definition ModuleManager_process_action
    (modules : list GameModule) (action_data : Action.t) (st : St) : Dispatch :=
  let r := scan modules 0 action_data st in
  match exit r with
  | Some o =>
      {| outcome := o; final := world r;
         records := logged r; calls := called r |}
  | None =>
      {| outcome := Ret false; final := world r;
         records := logged r ++ [LogNoModule action_data];
         calls := called r |}
  end.

(** Scanning [ms] from [st], every [can_handle] returns false; the
    scan ends in [st']. *)
Inductive declines (a : Action.t) : list GameModule -> St -> St -> Prop :=
| declines_nil st : declines a [] st st
| declines_cons m ms st st1 st2 :
    can_handle m a st = (Ret false, st1) ->
    declines a ms st1 st2 ->
    declines a (m :: ms) st st2.

(** The routing rule as section 4.3 (4) of the specification words it:
    once the first claiming module has returned false, the action is
    reported failed and no later module is processed. *)
Definition stops_on_rejection
    (modules : list GameModule) (a : Action.t) (st : St) : Prop :=
  forall pre m post st1 st2 st3,
    modules = pre ++ m :: post ->
    declines a pre st st1 ->
    can_handle m a st1 = (Ret true, st2) ->
    process_action m a st2 = (Ret false, st3) ->
    outcome (ModuleManager_process_action modules a st) = Ret false /\
    forall j, (length pre < j)%nat ->
      ~ In (CalledProcess j) (calls (ModuleManager_process_action modules a st)).

End ModuleManager.

Arguments GameModule St : clear implicits.

(** Test doubles over a state with nothing in it: modules that claim
    every action and then reject it, accept it, or raise. *)
Definition rejecter : GameModule unit :=
  {| cls_name := "Rejecter";
     can_handle := fun _ st => (Ret true, st);
     process_action := fun _ st => (Ret false, st) |}.

Definition accepter : GameModule unit :=
  {| cls_name := "Accepter";
     can_handle := fun _ st => (Ret true, st);
     process_action := fun _ st => (Ret true, st) |}.

Definition boom : exn := PyExc "RuntimeError" "boom".


Definition bystander : GameModule unit :=
  {| cls_name := "Bystander";
     can_handle := fun _ st => (Ret false, st);
     process_action := fun _ st => (Ret true, st) |}.

(** A module whose [can_handle] itself raises. *)
Definition broken_predicate : GameModule unit :=
  {| cls_name := "BrokenPredicate";
     can_handle := fun _ st => (Raise boom, st);
     process_action := fun _ st => (Ret true, st) |}.

(* ================================================================== *)
(** ** [modules/inventory.py]: items

    The property bag of an item is read at three keys only; a key that
    is absent from [properties] is [None]. *)
Module Item.
Record t := mk {
  name : string;
  type : string;                (* "weapon", "armor", "shield", "consumable", "misc" *)
  healing : option string;      (* properties["healing"], a dice string *)
  attack_bonus : option Z;      (* properties["attack_bonus"] *)
  ac_bonus : option Z;          (* properties["ac_bonus"] *)
  quantity : Z
}.

(** [item.quantity = q] *)
Definition with_quantity (q : Z) (i : t) : t :=
  mk (name i) (type i) (healing i) (attack_bonus i) (ac_bonus i) q.
End Item.

(* ================================================================== *)
(** ** [GameStateManager.py]: characters

    A [Character] object with the attributes the rules read or assign,
    those of [__init__] and those the modules attach later.  Attributes
    probed with [hasattr] or [getattr] are options.  Left out are the
    attributes no rule reads: [conditions], the ability scores other
    than dexterity, and the stat records of the provider. *)
Module Character.
Record t := mk {
  id : string;
  name : string;
  type : string;
  position : Z * Z;
  initiative : Z;
  hp : Z;
  max_hp : Z;
  ac : Z;
  attack_bonus : option Z;  (* [None]: unset, [getattr] falls back *)
  dexterity : Z;
  race_speed : option Z;  (* [race_stats.speed], when both attributes exist *)
  dashed_this_turn : bool;  (* whether the transient attribute is present *)
  inventory : option (list Item.t);  (* [None]: the attribute does not exist *)
  equipped : option (list (string * option Item.t));  (* slot to item, in insertion order *)
  equipment_attack_bonus : option Z;
  equipment_ac_bonus : option Z;
  spells_known : option (list string);  (* [None]: the attribute does not exist *)
  spell_slots : gmap Z Z;
  spell_slots_used : gmap Z Z;
  temp_ac_bonus : option Z
}.

(** Attribute assignment [c.f = v], one function per assigned attribute. *)
Definition with_position (v : Z * Z) (c : t) : t :=
  mk (id c) (name c) (type c) v (initiative c) (hp c) (max_hp c) (ac c)
     (attack_bonus c) (dexterity c) (race_speed c) (dashed_this_turn c)
     (inventory c) (equipped c) (equipment_attack_bonus c)
     (equipment_ac_bonus c) (spells_known c) (spell_slots c)
     (spell_slots_used c) (temp_ac_bonus c).
Definition with_initiative (v : Z) (c : t) : t :=
  mk (id c) (name c) (type c) (position c) v (hp c) (max_hp c) (ac c)
     (attack_bonus c) (dexterity c) (race_speed c) (dashed_this_turn c)
     (inventory c) (equipped c) (equipment_attack_bonus c)
     (equipment_ac_bonus c) (spells_known c) (spell_slots c)
     (spell_slots_used c) (temp_ac_bonus c).
Definition with_hp (v : Z) (c : t) : t :=
  mk (id c) (name c) (type c) (position c) (initiative c) v (max_hp c)
     (ac c) (attack_bonus c) (dexterity c) (race_speed c)
     (dashed_this_turn c) (inventory c) (equipped c)
     (equipment_attack_bonus c) (equipment_ac_bonus c) (spells_known c)
     (spell_slots c) (spell_slots_used c) (temp_ac_bonus c).
Definition with_ac (v : Z) (c : t) : t :=
  mk (id c) (name c) (type c) (position c) (initiative c) (hp c) (max_hp c)
     v (attack_bonus c) (dexterity c) (race_speed c) (dashed_this_turn c)
     (inventory c) (equipped c) (equipment_attack_bonus c)
     (equipment_ac_bonus c) (spells_known c) (spell_slots c)
     (spell_slots_used c) (temp_ac_bonus c).
Definition with_dashed_this_turn (v : bool) (c : t) : t :=
  mk (id c) (name c) (type c) (position c) (initiative c) (hp c) (max_hp c)
     (ac c) (attack_bonus c) (dexterity c) (race_speed c) v (inventory c)
     (equipped c) (equipment_attack_bonus c) (equipment_ac_bonus c)
     (spells_known c) (spell_slots c) (spell_slots_used c)
     (temp_ac_bonus c).
Definition with_inventory (v : option (list Item.t)) (c : t) : t :=
  mk (id c) (name c) (type c) (position c) (initiative c) (hp c) (max_hp c)
     (ac c) (attack_bonus c) (dexterity c) (race_speed c)
     (dashed_this_turn c) v (equipped c) (equipment_attack_bonus c)
     (equipment_ac_bonus c) (spells_known c) (spell_slots c)
     (spell_slots_used c) (temp_ac_bonus c).
Definition with_equipped (v : option (list (string * option Item.t))) (c : t) : t :=
  mk (id c) (name c) (type c) (position c) (initiative c) (hp c) (max_hp c)
     (ac c) (attack_bonus c) (dexterity c) (race_speed c)
     (dashed_this_turn c) (inventory c) v (equipment_attack_bonus c)
     (equipment_ac_bonus c) (spells_known c) (spell_slots c)
     (spell_slots_used c) (temp_ac_bonus c).
Definition with_equipment_attack_bonus (v : option Z) (c : t) : t :=
  mk (id c) (name c) (type c) (position c) (initiative c) (hp c) (max_hp c)
     (ac c) (attack_bonus c) (dexterity c) (race_speed c)
     (dashed_this_turn c) (inventory c) (equipped c) v
     (equipment_ac_bonus c) (spells_known c) (spell_slots c)
     (spell_slots_used c) (temp_ac_bonus c).
Definition with_equipment_ac_bonus (v : option Z) (c : t) : t :=
  mk (id c) (name c) (type c) (position c) (initiative c) (hp c) (max_hp c)
     (ac c) (attack_bonus c) (dexterity c) (race_speed c)
     (dashed_this_turn c) (inventory c) (equipped c)
     (equipment_attack_bonus c) v (spells_known c) (spell_slots c)
     (spell_slots_used c) (temp_ac_bonus c).
Definition with_spell_slots_used (v : gmap Z Z) (c : t) : t :=
  mk (id c) (name c) (type c) (position c) (initiative c) (hp c) (max_hp c)
     (ac c) (attack_bonus c) (dexterity c) (race_speed c)
     (dashed_this_turn c) (inventory c) (equipped c)
     (equipment_attack_bonus c) (equipment_ac_bonus c) (spells_known c)
     (spell_slots c) v (temp_ac_bonus c).
Definition with_temp_ac_bonus (v : option Z) (c : t) : t :=
  mk (id c) (name c) (type c) (position c) (initiative c) (hp c) (max_hp c)
     (ac c) (attack_bonus c) (dexterity c) (race_speed c)
     (dashed_this_turn c) (inventory c) (equipped c)
     (equipment_attack_bonus c) (equipment_ac_bonus c) (spells_known c)
     (spell_slots c) (spell_slots_used c) v.

(** [Character.__init__] on its fallback path ([_initialize_defaults]),
    taken when no stat provider is available. *)
Definition _initialize_defaults
    (char_id name char_type : string) (position : Z * Z) : t :=
  let player := String.eqb char_type "player" in
  mk char_id name char_type position 0
     (if player then 20 else 10) (if player then 20 else 10)
     (if player then 15 else 12)
     (Some (if player then 5 else 3))
     12 None false None None None None None ∅ ∅ None.

(** [get_ability_modifier("dexterity")]; both branches of the source
    compute the same quotient. *)
Definition dexterity_modifier (c : t) : Z := (dexterity c - 10) `div` 2.
End Character.

(* ================================================================== *)
(** ** Python dicts whose iteration order matters

    An insertion-ordered dict with string keys.  Assigning to an
    existing key keeps its place; a new key goes to the end. *)
Section Dict.
Context {V : Type}.

Fixpoint dict_get (k : string) (d : list (string * V)) : option V :=
  match d with
  | [] => None
  | (k', v) :: d' => if String.eqb k k' then Some v else dict_get k d'
  end.

Fixpoint dict_set (k : string) (v : V) (d : list (string * V)) : list (string * V) :=
  match d with
  | [] => [(k, v)]
  | (k', v') :: d' =>
      if String.eqb k k' then (k', v) :: d' else (k', v') :: dict_set k v d'
  end.

(** In-place mutation of the object stored under [k]. *)
Fixpoint dict_alter (f : V -> V) (k : string) (d : list (string * V)) : list (string * V) :=
  match d with
  | [] => []
  | (k', v) :: d' =>
      if String.eqb k k' then (k', f v) :: d' else (k', v) :: dict_alter f k d'
  end.

Definition keys (d : list (string * V)) : list string := map fst d.
Definition values (d : list (string * V)) : list V := map snd d.
End Dict.

(* ================================================================== *)
(** ** [GameStateManager.py]: the state store *)

(** [map_data], as far as the rules read it. *)
Record MapData := {
  width : option Z;                          (* map_data.get("width") *)
  height : option Z;                         (* map_data.get("height") *)
  terrain : list (string * list (Z * Z))     (* map_data.get("terrain", {}) *)
}.

Definition pos_eqb (p q : Z * Z) : bool :=
  (fst p =? fst q) && (snd p =? snd q).

Module GameStateManager.
Record t := mk {
  characters : list (string * Character.t);
  map_data : MapData;
  combat_active : bool;
  game_log : list string;
  turn_order : list string;
  current_turn_index : nat
}.

Definition with_characters (v : list (string * Character.t)) (g : t) : t :=
  mk v (map_data g) (combat_active g) (game_log g) (turn_order g)
     (current_turn_index g).
Definition with_combat_active (v : bool) (g : t) : t :=
  mk (characters g) (map_data g) v (game_log g) (turn_order g)
     (current_turn_index g).
Definition with_game_log (v : list string) (g : t) : t :=
  mk (characters g) (map_data g) (combat_active g) v (turn_order g)
     (current_turn_index g).
Definition with_turn_order (v : list string) (g : t) : t :=
  mk (characters g) (map_data g) (combat_active g) (game_log g) v
     (current_turn_index g).
Definition with_current_turn_index (v : nat) (g : t) : t :=
  mk (characters g) (map_data g) (combat_active g) (game_log g)
     (turn_order g) v.

(** [GameStateManager.__init__] *)
Definition init : t :=
  mk [] {| width := None; height := None; terrain := [] |} false [] [] 0.

(** [add_character], on the fallback path of [Character.__init__]. *)
Definition add_character
    (char_id name char_type : string) (position : Z * Z) (g : t) : t :=
  with_characters
    (dict_set char_id
       (Character._initialize_defaults char_id name char_type position)
       (characters g)) g.

Definition get_character_by_id (char_id : string) (g : t) : option Character.t :=
  dict_get char_id (characters g).

(** Mutation of the character object stored under [char_id]; the
    function reads the attributes of the live object. *)
Definition update_character
    (char_id : string) (f : Character.t -> Character.t) (g : t) : t :=
  with_characters (dict_alter f char_id (characters g)) g.

(** [add_to_log]; the echo to standard output is not modelled. *)
Definition add_to_log (message : string) (g : t) : t :=
  with_game_log (game_log g ++ [message]) g.

(** The bounds test shared by [move_character] and [_is_valid_move]. *)
Definition in_bounds (new_position : Z * Z) (g : t) : bool :=
  (0 <=? fst new_position) &&
  (fst new_position <? default 10 (width (map_data g))) &&
  (0 <=? snd new_position) &&
  (snd new_position <? default 10 (height (map_data g))).

(** The occupancy loop shared by [move_character] and [_is_valid_move]:
    some character with another id stands on [new_position]. *)
Definition occupied (char_id : string) (new_position : Z * Z) (g : t) : bool :=
  existsb
    (fun other_char =>
       negb (String.eqb (Character.id other_char) char_id) &&
       pos_eqb (Character.position other_char) new_position)
    (values (characters g)).

Definition move_character
    (char_id : string) (new_position : Z * Z) (g : t) : bool * t :=
  match get_character_by_id char_id g with
  | None => (false, g)
  | Some character =>
      if in_bounds new_position g then
        if occupied char_id new_position g then (false, g)
        else
          let old_pos := Character.position character in
          let g1 := update_character char_id
                      (Character.with_position new_position) g in
          (true,
           add_to_log (Character.name character +:+ " moves from " +:+
                       str_pos old_pos +:+ " to " +:+ str_pos new_position) g1)
      else (false, g)
  end.

(** The two log lines of the damage primitive. *)
Definition damage_line (name : string) (damage hp max_hp : Z) : string :=
  name +:+ " takes " +:+ str_int damage +:+ " damage (HP: " +:+
  str_int hp +:+ "/" +:+ str_int max_hp +:+ ")".

Definition defeat_line (name : string) : string := name +:+ " is defeated!".

(** [apply_damage]; the assignment reads the live object, the log lines
    print the HP just stored. *)
Definition apply_damage (char_id : string) (damage : Z) (g : t) : bool * t :=
  match get_character_by_id char_id g with
  | None => (false, g)
  | Some character =>
      let hp' := Z.max 0 (Character.hp character - damage) in
      let g1 := update_character char_id
                  (fun c => Character.with_hp (Z.max 0 (Character.hp c - damage)) c)
                  g in
      let g2 := add_to_log
                  (damage_line (Character.name character) damage hp'
                     (Character.max_hp character)) g1 in
      let g3 := if hp' <=? 0
                then add_to_log (defeat_line (Character.name character)) g2
                else g2 in
      (true, g3)
  end.

(** [get_characters_in_range] *)
Definition get_characters_in_range
    (position : Z * Z) (range_feet : Z) (g : t) : list Character.t :=
  filter
    (fun character =>
       Z.abs (fst (Character.position character) - fst position) +
       Z.abs (snd (Character.position character) - snd position)
       <= range_feet `div` 5)
    (values (characters g)).
End GameStateManager.

(* ================================================================== *)
(** ** The world the modules run in, and the monad of their code *)

(** The state of the [random] module: the numbers it is going to draw
    and how many of them have been drawn. *)
Record Random := { tape : nat -> Z; cursor : nat }.

(** The state store, the movement module's [movement_used] dict and the
    random generator. *)
Record World := {
  gsm : GameStateManager.t;
  movement_used : gmap string Z;
  random : Random
}.

Definition with_gsm (g : GameStateManager.t) (w : World) : World :=
  {| gsm := g; movement_used := movement_used w; random := random w |}.
Definition with_movement_used (m : gmap string Z) (w : World) : World :=
  {| gsm := gsm w; movement_used := m; random := random w |}.
Definition with_random (r : Random) (w : World) : World :=
  {| gsm := gsm w; movement_used := movement_used w; random := r |}.

(** Code that reads and mutates the world and may raise. *)
Definition M (A : Type) : Type := World -> Outcome A * World.

Definition ret {A} (a : A) : M A := fun w => (Ret a, w).
Definition raise {A} (e : exn) : M A := fun w => (Raise e, w).
Definition bind {A B} (m : M A) (k : A -> M B) : M B :=
  fun w =>
    match m w with
    | (Ret a, w') => k a w'
    | (Raise e, w') => (Raise e, w')
    end.

Declare Scope py_scope.
Delimit Scope py_scope with py.
Notation "x <- m ;; k" := (bind m (fun x => k))
  (at level 100, m at next level, right associativity) : py_scope.
Notation "m ;; k" := (bind m (fun _ => k))
  (at level 100, right associativity) : py_scope.
Local Open Scope py_scope.

(** Reading the store, mutating it, and calling one of its methods. *)
Definition ask {A} (f : GameStateManager.t -> A) : M A :=
  fun w => (Ret (f (gsm w)), w).
Definition tell (f : GameStateManager.t -> GameStateManager.t) : M unit :=
  fun w => (Ret tt, with_gsm (f (gsm w)) w).
Definition call {A} (f : GameStateManager.t -> A * GameStateManager.t) : M A :=
  fun w => let (a, g) := f (gsm w) in (Ret a, with_gsm g w).

Definition log (message : string) : M unit :=
  tell (GameStateManager.add_to_log message).

(** A reference to a character object is its key in [characters]: the
    store files each object once.  [deref] reads the object behind a
    reference the caller has already looked up; a dangling reference
    would fail as attribute access on [None] does. *)
Definition deref (char_id : string) : M Character.t :=
  fun w =>
    match GameStateManager.get_character_by_id char_id (gsm w) with
    | Some c => (Ret c, w)
    | None => (Raise (PyExc "AttributeError" "'NoneType' object has no attribute"), w)
    end.

Definition mutate (char_id : string) (f : Character.t -> Character.t) : M unit :=
  tell (GameStateManager.update_character char_id f).

(** [random.randint(lo, hi)]: the next number of the tape, brought into
    [lo..hi]; an empty range raises the [ValueError] of
    [randrange(lo, hi + 1)], whose message names start, stop and width. *)
Definition randint (lo hi : Z) : M Z :=
  fun w =>
    if hi <? lo then
      (Raise (PyExc "ValueError"
                ("empty range for randrange() (" +:+ str_int lo +:+ ", " +:+
                 str_int (hi + 1) +:+ ", " +:+ str_int (hi + 1 - lo) +:+ ")")), w)
    else
      let r := random w in
      (Ret (lo + tape r (cursor r) `mod` (hi - lo + 1)),
       with_random {| tape := tape r; cursor := S (cursor r) |} w).

(* ================================================================== *)
(** ** [sorted(..., key=..., reverse=True)]

    Python's sort is stable, also with [reverse=True]: items come out by
    decreasing key and items with equal keys keep their input order. *)
Section Sorted.
Context {A : Type} (key : A -> Z).

Fixpoint insert_reverse (x : A) (l : list A) : list A :=
  match l with
  | [] => [x]
  | y :: l' => if key x <? key y then y :: insert_reverse x l' else x :: y :: l'
  end.

Definition sorted_reverse (l : list A) : list A := foldr insert_reverse [] l.
End Sorted.

(* ================================================================== *)
(** ** [modules/movement.py] *)
Module MovementModule.

Definition can_handle (action_data : Action.t) : bool :=
  type_in action_data ["move"; "dash"].

Definition _get_character_speed (character : Character.t) : Z :=
  default 30 (Character.race_speed character).

Definition _is_position_blocked (position : Z * Z) : M bool :=
  ask (fun g =>
         existsb
           (fun entry =>
              existsb (pos_eqb position) (snd entry) &&
              String.eqb (fst entry) "trees")
           (terrain (GameStateManager.map_data g))).

Definition _is_valid_move (character : Character.t) (new_position : Z * Z) : M bool :=
  inside <- ask (GameStateManager.in_bounds new_position);;
  if negb inside then
    (log (Character.name character +:+ " cannot move outside the map bounds!");;
     ret false)
  else
    taken <- ask (GameStateManager.occupied (Character.id character) new_position);;
    if taken then
      (log (Character.name character +:+ " cannot move to occupied position!");;
       ret false)
    else
      blocked <- _is_position_blocked new_position;;
      if blocked then
        (log (Character.name character +:+ " cannot move through that terrain!");;
         ret false)
      else ret true.

Definition get_used (character_id : string) : M Z :=
  fun w => (Ret (default 0 (movement_used w !! character_id)), w).

Definition set_used (character_id : string) (v : Z) : M unit :=
  fun w => (Ret tt, with_movement_used (<[character_id := v]> (movement_used w)) w).

Definition _handle_movement (character_id : string) (new_position : Z * Z) : M bool :=
  found <- ask (GameStateManager.get_character_by_id character_id);;
  match found with
  | None => ret false
  | Some character =>
      let current_pos := Character.position character in
      let distance := Z.abs (fst new_position - fst current_pos) +
                      Z.abs (snd new_position - snd current_pos) in
      let distance_feet := distance * 5 in
      let speed := _get_character_speed character in
      used_movement <- get_used character_id;;
      let remaining_movement := speed - used_movement in
      if distance_feet >? remaining_movement then
        (log (Character.name character +:+
              " doesn't have enough movement! Needs " +:+ str_int distance_feet +:+
              " feet, has " +:+ str_int remaining_movement +:+ " feet remaining.");;
         ret false)
      else
        valid <- _is_valid_move character new_position;;
        if negb valid then ret false
        else
          (mutate character_id (Character.with_position new_position);;
           set_used character_id (used_movement + distance_feet);;
           let remaining := speed - (used_movement + distance_feet) in
           log (Character.name character +:+ " moves from " +:+
                str_pos current_pos +:+ " to " +:+ str_pos new_position +:+
                " (" +:+ str_int distance_feet +:+ " feet, " +:+
                str_int remaining +:+ " feet remaining)");;
           ret true)
  end.

Definition _handle_dash (character_id : string) : M bool :=
  found <- ask (GameStateManager.get_character_by_id character_id);;
  match found with
  | None => ret false
  | Some character =>
      if Character.dashed_this_turn character then
        (log (Character.name character +:+ " has already dashed this turn!");;
         ret false)
      else
        let speed := _get_character_speed character in
        (mutate character_id (Character.with_dashed_this_turn true);;
         used_before_dash <- get_used character_id;;
         set_used character_id (Z.max 0 (used_before_dash - speed));;
         log (Character.name character +:+
              " dashes! Movement doubled for this turn.");;
         ret true)
  end.

Definition process_action (action_data : Action.t) : M bool :=
  let character_id := default "player" (Action.character_id action_data) in
  if type_is action_data "move" then
    let new_position := default (0, 0) (Action.position action_data) in
    _handle_movement character_id new_position
  else if type_is action_data "dash" then _handle_dash character_id
  else ret false.

Definition reset_turn_movement (character_id : string) : M unit :=
  set_used character_id 0;;
  mutate character_id (Character.with_dashed_this_turn false).
End MovementModule.

(* ================================================================== *)
(** ** [modules/combat.py] *)
Module CombatModule.

Definition can_handle (action_data : Action.t) : bool :=
  type_in action_data ["attack"; "start_combat"].

Definition _apply_damage (char_id : string) (damage : Z) : M bool :=
  found <- ask (GameStateManager.get_character_by_id char_id);;
  match found with
  | None => ret false
  | Some character =>
      let hp' := Z.max 0 (Character.hp character - damage) in
      mutate char_id
        (fun c => Character.with_hp (Z.max 0 (Character.hp c - damage)) c);;
      log (Character.name character +:+ " takes " +:+ str_int damage +:+
           " damage (HP: " +:+ str_int hp' +:+ "/" +:+
           str_int (Character.max_hp character) +:+ ")");;
      (if hp' <=? 0
       then log (Character.name character +:+ " is defeated!")
       else ret tt);;
      ret true
  end.

Definition _execute_attack (attacker_id target_id : string) : M bool :=
  attacker <- ask (GameStateManager.get_character_by_id attacker_id);;
  target <- ask (GameStateManager.get_character_by_id target_id);;
  match attacker, target with
  | Some attacker, Some target =>
      let distance :=
        Z.abs (fst (Character.position attacker) - fst (Character.position target)) +
        Z.abs (snd (Character.position attacker) - snd (Character.position target)) in
      if distance >? 1 then
        (log (Character.name attacker +:+ " is too far from " +:+
              Character.name target +:+ " to attack!");;
         ret false)
      else
        attack_roll <- randint 1 20;;
        let attack_modifier := default 3 (Character.attack_bonus attacker) in
        let total_attack := attack_roll + attack_modifier in
        log (Character.name attacker +:+ " attacks " +:+ Character.name target +:+
             ": rolls " +:+ str_int attack_roll +:+ " + " +:+
             str_int attack_modifier +:+ " = " +:+ str_int total_attack +:+
             " vs AC " +:+ str_int (Character.ac target));;
        if total_attack >=? Character.ac target then
          (roll <- randint 1 8;;
           let damage := roll + 2 in
           _apply_damage target_id damage;;
           ret true)
        else
          (log (Character.name attacker +:+ "'s attack misses " +:+
                Character.name target +:+ "!");;
           ret true)
  | _, _ => ret false
  end.

Definition _handle_attack (action_data : Action.t) : M bool :=
  let attacker_id := default "player" (Action.attacker_id action_data) in
  match Action.target_id action_data with
  | Some target_id =>
      if negb (truthy (Some target_id)) then ret false
      else _execute_attack attacker_id target_id
  | None => ret false
  end.

(** The loop [for character in self.gsm.characters.values()], over the
    references to the objects in dict order. *)
Fixpoint roll_initiative (ids : list string) : M unit :=
  match ids with
  | [] => ret tt
  | char_id :: rest =>
      initiative_roll <- randint 1 20;;
      mutate char_id (Character.with_initiative initiative_roll);;
      character <- deref char_id;;
      log (Character.name character +:+ " rolls " +:+
           str_int initiative_roll +:+ " for initiative");;
      roll_initiative rest
  end.

(** [self.gsm.characters[char_id].initiative], for an id of the dict. *)
Definition initiative_of (g : GameStateManager.t) (char_id : string) : Z :=
  match GameStateManager.get_character_by_id char_id g with
  | Some c => Character.initiative c
  | None => 0
  end.

Definition name_of (g : GameStateManager.t) (char_id : string) : string :=
  match GameStateManager.get_character_by_id char_id g with
  | Some c => Character.name c
  | None => ""
  end.

Definition _start_combat : M bool :=
  tell (GameStateManager.with_combat_active true);;
  log "Combat has started! Roll for initiative!";;
  ids <- ask (fun g => keys (GameStateManager.characters g));;
  roll_initiative ids;;
  tell (fun g =>
          GameStateManager.with_turn_order
            (sorted_reverse (initiative_of g) (keys (GameStateManager.characters g)))
            g);;
  tell (GameStateManager.with_current_turn_index 0%nat);;
  turn_order_names <-
    ask (fun g => map (name_of g) (GameStateManager.turn_order g));;
  log ("Turn order: " +:+ String.concat " -> " turn_order_names);;
  ret true.

Definition new_round_marker : string := "--- New Round ---".

Definition advance_turn : M unit :=
  tell (fun g =>
          GameStateManager.with_current_turn_index
            (S (GameStateManager.current_turn_index g)) g);;
  g <- ask id;;
  if (length (GameStateManager.turn_order g) <=?
      GameStateManager.current_turn_index g)%nat
  then
    (tell (GameStateManager.with_current_turn_index 0%nat);;
     log new_round_marker)
  else ret tt.

Definition get_current_character : M (option Character.t) :=
  g <- ask id;;
  match GameStateManager.turn_order g with
  | [] => ret None
  | _ =>
      match GameStateManager.turn_order g !! GameStateManager.current_turn_index g with
      | Some character_id =>
          ret (GameStateManager.get_character_by_id character_id g)
      | None => raise (PyExc "IndexError" "list index out of range")
      end
  end.

Definition is_combat_over (g : GameStateManager.t) : bool :=
  let alive ty :=
    List.filter
      (fun char => String.eqb (Character.type char) ty && (Character.hp char >? 0))
      (values (GameStateManager.characters g)) in
  (length (alive "monster") =? 0)%nat || (length (alive "player") =? 0)%nat.

Definition process_action (action_data : Action.t) : M bool :=
  if type_is action_data "attack" then _handle_attack action_data
  else if type_is action_data "start_combat" then _start_combat
  else ret false.
End CombatModule.

(* ================================================================== *)
(** ** [_roll_dice], as both the inventory and the spells module have it *)

(** [int(c)] for an ASCII decimal digit, the digits [\d] finds in an
    ASCII string. *)
Definition digit_of (c : ascii) : option Z :=
  let n := N_of_ascii c in
  if ((48 <=? n) && (n <=? 57))%N then Some (Z.of_N (n - 48)) else None.

(** The longest run of digits [\d+] at the head of [s], read as a number
    on top of [acc]; [None] when [s] does not start with a digit. *)
Fixpoint digits_from (acc : Z) (s : string) : Z * string :=
  match s with
  | String c s' =>
      match digit_of c with
      | Some d => digits_from (acc * 10 + d) s'
      | None => (acc, s)
      end
  | EmptyString => (acc, s)
  end.

Definition number (s : string) : option (Z * string) :=
  match s with
  | String c s' =>
      match digit_of c with
      | Some d => Some (digits_from d s')
      | None => None
      end
  | EmptyString => None
  end.

(** [re.match(r'(\d+)d(\d+)(?:\+(\d+))?', dice_string)]: the three
    groups as numbers, the last one [None] when it took no part. *)
Definition match_dice (dice_string : string) : option (Z * Z * option Z) :=
  match number dice_string with
  | Some (num_dice, String "d" rest) =>
      match number rest with
      | Some (die_size, String "+" rest') =>
          match number rest' with
          | Some (modifier, _) => Some (num_dice, die_size, Some modifier)
          | None => Some (num_dice, die_size, None)
          end
      | Some (die_size, _) => Some (num_dice, die_size, None)
      | None => None
      end
  | _ => None
  end.

(** [sum(random.randint(1, die_size) for _ in range(num_dice))] *)
Fixpoint roll_sum (num_dice : nat) (die_size : Z) : M Z :=
  match num_dice with
  | O => ret 0
  | S n =>
      r <- randint 1 die_size;;
      rest <- roll_sum n die_size;;
      ret (r + rest)
  end.

Definition _roll_dice (dice_string : string) : M Z :=
  match match_dice dice_string with
  | None => ret 0
  | Some (num_dice, die_size, modifier) =>
      total <- roll_sum (Z.to_nat num_dice) die_size;;
      ret (total + default 0 modifier)
  end.

(** [str(x)] for an [Optional[str]] inside an f-string. *)
Definition str_opt (o : option string) : string :=
  match o with
  | Some s => s
  | None => "None"
  end.

Definition attribute_error {A} (what : string) : M A :=
  raise (PyExc "AttributeError" what).

(* ================================================================== *)
(** ** [modules/inventory.py]

    Items are held by value: the entry of [equipped] is the item as it
    was when it was equipped.  The rules read only the name, the type
    and the bonuses of an equipped item, none of which is ever assigned;
    the count of an equipped item, which in the code changes with the
    pack's, is not followed through [equipped]. *)
Module InventoryModule.

Definition can_handle (action_data : Action.t) : bool :=
  type_in action_data ["equip"; "unequip"; "use_item"; "drop_item"].

(** The first item whose lower-cased name is [item_name.lower()], with
    its index in the list. *)
Fixpoint find_from (i : nat) (wanted : string) (inv : list Item.t) : option (nat * Item.t) :=
  match inv with
  | [] => None
  | item :: rest =>
      if String.eqb (lower (Item.name item)) wanted then Some (i, item)
      else find_from (S i) wanted rest
  end.

Definition _find_item_in_inventory
    (character : Character.t) (item_name : option string) : M (option (nat * Item.t)) :=
  match Character.inventory character with
  | None => attribute_error "'Character' object has no attribute 'inventory'"
  | Some [] => ret None
  | Some inventory =>
      match item_name with
      | None => attribute_error "'NoneType' object has no attribute 'lower'"
      | Some item_name => ret (find_from 0 (lower item_name) inventory)
      end
  end.

Definition _apply_item_bonuses
    (item : Item.t) (equip : bool) (character : Character.t) : Character.t :=
  let modifier := if equip then 1 else -1 in
  let character :=
    match Item.attack_bonus item with
    | Some bonus =>
        if String.eqb (Item.type item) "weapon" then
          Character.with_equipment_attack_bonus
            (Some (default 0 (Character.equipment_attack_bonus character) +
                   bonus * modifier)) character
        else character
    | None => character
    end in
  match Item.ac_bonus item with
  | Some bonus =>
      if existsb (String.eqb (Item.type item)) ["armor"; "shield"] then
        let total := default 0 (Character.equipment_ac_bonus character) +
                     bonus * modifier in
        let base_ac :=
          10 + (if negb (String.eqb (Item.type item) "armor")
                then Character.dexterity_modifier character else 0) in
        Character.with_ac (base_ac + total)
          (Character.with_equipment_ac_bonus (Some total) character)
      else character
  | None => character
  end.

(** The first slot of [equipped.items()] that holds an item called
    [item_name]. *)
Fixpoint slot_holding (item_name : string) (equipped : list (string * option Item.t))
    : option (string * Item.t) :=
  match equipped with
  | [] => None
  | (slot, Some item) :: rest =>
      if String.eqb (Item.name item) item_name then Some (slot, item)
      else slot_holding item_name rest
  | (_, None) :: rest => slot_holding item_name rest
  end.

Definition the_equipped (character : Character.t) : M (list (string * option Item.t)) :=
  match Character.equipped character with
  | Some equipped => ret equipped
  | None => attribute_error "'Character' object has no attribute 'equipped'"
  end.

Definition _unequip_item (character_id : string) (item_name : option string) : M bool :=
  character <- deref character_id;;
  equipped <- the_equipped character;;
  match item_name with
  | None => ret false
  | Some item_name =>
      match slot_holding item_name equipped with
      | Some (slot, item) =>
          mutate character_id
            (fun c => _apply_item_bonuses item false
                        (Character.with_equipped
                           (Some (dict_set slot None equipped)) c));;
          log (Character.name character +:+ " unequips " +:+ item_name);;
          ret true
      | None => ret false
      end
  end.

Definition _equip_item (character_id : string) (item_name : option string) : M bool :=
  character <- deref character_id;;
  found <- _find_item_in_inventory character item_name;;
  match found with
  | None =>
      log (Character.name character +:+ " doesn't have " +:+ str_opt item_name);;
      ret false
  | Some (_, item) =>
      equipped <- the_equipped character;;
      match dict_get (Item.type item) equipped with
      | Some (Some worn) => _unequip_item character_id (Some (Item.name worn));; ret tt
      | _ => ret tt
      end;;
      character <- deref character_id;;
      equipped <- the_equipped character;;
      mutate character_id
        (fun c => _apply_item_bonuses item true
                    (Character.with_equipped
                       (Some (dict_set (Item.type item) (Some item) equipped)) c));;
      log (Character.name character +:+ " equips " +:+ str_opt item_name);;
      ret true
  end.

(** [character.inventory.remove(item)] for the item found at index [i]. *)
Definition remove_at (i : nat) (inv : list Item.t) : list Item.t :=
  take i inv ++ drop (S i) inv.

Definition _use_item (character_id : string) (item_name : option string) : M bool :=
  character <- deref character_id;;
  found <- _find_item_in_inventory character item_name;;
  match found with
  | None => ret false
  | Some (i, item) =>
      if negb (String.eqb (Item.type item) "consumable") then ret false
      else
        match Item.healing item with
        | Some dice =>
            healing <- _roll_dice dice;;
            let old_hp := Character.hp character in
            let hp' := Z.min (Character.max_hp character)
                         (Character.hp character + healing) in
            mutate character_id
              (fun c =>
                 Character.with_hp
                   (Z.min (Character.max_hp c) (Character.hp c + healing)) c);;
            log (Character.name character +:+ " uses " +:+ str_opt item_name +:+
                 " and heals " +:+ str_int (hp' - old_hp) +:+ " HP")
        | None => ret tt
        end;;
        let quantity := Item.quantity item - 1 in
        mutate character_id
          (fun c =>
             Character.with_inventory
               (option_map
                  (fun inv =>
                     if quantity <=? 0 then remove_at i inv
                     else <[i := Item.with_quantity quantity item]> inv)
                  (Character.inventory c)) c);;
        ret true
  end.

Definition _drop_item (character_id : string) (item_name : option string) : M bool :=
  character <- deref character_id;;
  found <- _find_item_in_inventory character item_name;;
  match found with
  | None => ret false
  | Some (i, item) =>
      mutate character_id
        (fun c =>
           Character.with_inventory
             (option_map (remove_at i) (Character.inventory c)) c);;
      log (Character.name character +:+ " drops " +:+ str_opt item_name);;
      ret true
  end.

Definition process_action (action_data : Action.t) : M bool :=
  let character_id := default "player" (Action.character_id action_data) in
  let item_name := Action.item_name action_data in
  found <- ask (GameStateManager.get_character_by_id character_id);;
  match found with
  | None => ret false
  | Some _ =>
      if type_is action_data "equip" then _equip_item character_id item_name
      else if type_is action_data "unequip" then _unequip_item character_id item_name
      else if type_is action_data "use_item" then _use_item character_id item_name
      else if type_is action_data "drop_item" then _drop_item character_id item_name
      else ret false
  end.
End InventoryModule.

(* ================================================================== *)
(** ** [modules/spells.py] *)
Module Spell.
Record t := mk {
  name : string;
  level : Z;
  school : string;
  range : string
}.
End Spell.

Module SpellsModule.

(** [_create_spell_database] *)
Definition spell_database : list (string * Spell.t) :=
  [ ("cure_wounds", Spell.mk "Cure Wounds" 1 "evocation" "touch");
    ("magic_missile", Spell.mk "Magic Missile" 1 "evocation" "120 feet");
    ("shield", Spell.mk "Shield" 1 "abjuration" "self");
    ("fireball", Spell.mk "Fireball" 3 "evocation" "150 feet") ].

Definition can_handle (action_data : Action.t) : bool :=
  type_in action_data ["cast_spell"; "prepare_spell"].

(** The three missiles of magic missile: [range(3)] rolls of 1d4, each
    plus one. *)
Fixpoint missiles (n : nat) : M Z :=
  match n with
  | O => ret 0
  | S n' =>
      roll <- _roll_dice "1d4";;
      let damage := roll + 1 in
      rest <- missiles n';;
      ret (damage + rest)
  end.

(** The loop of fireball over [characters.values()]: every living
    monster takes [damage]; the names of those hit are returned. *)
Fixpoint burn (damage : Z) (ids : list string) : M (list string) :=
  match ids with
  | [] => ret []
  | char_id :: rest =>
      char <- deref char_id;;
      if String.eqb (Character.type char) "monster" && (Character.hp char >? 0) then
        let hp' := Z.max 0 (Character.hp char - damage) in
        mutate char_id
          (fun c => Character.with_hp (Z.max 0 (Character.hp c - damage)) c);;
        (if hp' <=? 0
         then log (Character.name char +:+ " is defeated by the fireball!")
         else ret tt);;
        hit <- burn damage rest;;
        ret (Character.name char :: hit)
      else burn damage rest
  end.

(** [_execute_spell_effect(spell, caster, target)]; [caster] and
    [target] are references to character objects, [target] being [None]
    when the target id did not resolve. *)
Definition _execute_spell_effect
    (spell : Spell.t) (caster : string) (target : option string) : M bool :=
  let spell_name := replace_space (lower (Spell.name spell)) in
  if String.eqb spell_name "cure_wounds" then
    match target with
    | None => ret false
    | Some target_id =>
        roll <- _roll_dice "1d8";;
        let healing := roll + 3 in
        target <- deref target_id;;
        let old_hp := Character.hp target in
        let hp' := Z.min (Character.max_hp target) (Character.hp target + healing) in
        mutate target_id
          (fun c =>
             Character.with_hp
               (Z.min (Character.max_hp c) (Character.hp c + healing)) c);;
        log (Character.name target +:+ " heals " +:+ str_int (hp' - old_hp) +:+ " HP");;
        ret true
    end
  else if String.eqb spell_name "magic_missile" then
    match target with
    | None => ret false
    | Some target_id =>
        total_damage <- missiles 3;;
        target <- deref target_id;;
        let hp' := Z.max 0 (Character.hp target - total_damage) in
        mutate target_id
          (fun c => Character.with_hp (Z.max 0 (Character.hp c - total_damage)) c);;
        log ("Magic missiles hit " +:+ Character.name target +:+ " for " +:+
             str_int total_damage +:+ " damage");;
        (if hp' <=? 0
         then log (Character.name target +:+ " is defeated!")
         else ret tt);;
        ret true
    end
  else if String.eqb spell_name "shield" then
    c <- deref caster;;
    mutate caster
      (fun c =>
         Character.with_ac (Character.ac c + 5)
           (Character.with_temp_ac_bonus
              (Some (default 0 (Character.temp_ac_bonus c) + 5)) c));;
    log (Character.name c +:+ " gains +5 AC from Shield spell");;
    ret true
  else if String.eqb spell_name "fireball" then
    damage <- _roll_dice "8d6";;
    ids <- ask (fun g => keys (GameStateManager.characters g));;
    targets_hit <- burn damage ids;;
    match targets_hit with
    | [] => ret tt
    | _ =>
        log ("Fireball deals " +:+ str_int damage +:+ " damage to: " +:+
             String.concat ", " targets_hit)
    end;;
    ret true
  else ret false.

Definition key_error {A} (k : Z) : M A := raise (PyExc "KeyError" (str_int k)).

(** [_cast_spell(caster, spell_name, target_id)]; [caster] is a
    reference to a character object. *)
Definition _cast_spell
    (caster : string) (spell_name target_id : option string) : M bool :=
  c <- deref caster;;
  let known :=
    match Character.spells_known c, spell_name with
    | Some spells, Some n => existsb (String.eqb n) spells
    | _, _ => false
    end in
  if negb known then
    (log (Character.name c +:+ " doesn't know " +:+ str_opt spell_name);;
     ret false)
  else
    match dict_get (str_opt spell_name) spell_database with
    | None => ret false
    | Some spell =>
        let level := Spell.level spell in
        match Character.spell_slots_used c !! level,
              Character.spell_slots c !! level with
        | Some used, Some total =>
            if used >=? total then
              (log (Character.name c +:+ " has no " +:+ str_int level +:+
                    "-level spell slots left");;
               ret false)
            else
              (mutate caster
                 (fun c =>
                    Character.with_spell_slots_used
                      (<[level := used + 1]> (Character.spell_slots_used c)) c);;
               target <-
                 (if truthy target_id
                  then
                    found <- ask (GameStateManager.get_character_by_id
                                    (str_opt target_id));;
                    ret (option_map (fun _ => str_opt target_id) found)
                  else ret (Some caster));;
               success <- _execute_spell_effect spell caster target;;
               (if success
                then log (Character.name c +:+ " casts " +:+ Spell.name spell)
                else ret tt);;
               ret success)
        | _, _ => key_error level
        end
    end.

(** [process_action]; the class has no [_prepare_spell] method, so the
    [prepare_spell] branch fails on the attribute lookup. *)
Definition process_action (action_data : Action.t) : M bool :=
  let character_id := default "player" (Action.character_id action_data) in
  let spell_name := Action.spell_name action_data in
  found <- ask (GameStateManager.get_character_by_id character_id);;
  match found with
  | None => ret false
  | Some _ =>
      if type_is action_data "cast_spell" then
        _cast_spell character_id spell_name (Action.target_id action_data)
      else if type_is action_data "prepare_spell" then
        attribute_error "'SpellsModule' object has no attribute '_prepare_spell'"
      else ret false
  end.
End SpellsModule.

(* ================================================================== *)
(** ** [core/GameEngine.py] *)
Module GameEngine.

(** [start_combat] and [advance_turn] have, line for line, the bodies of
    [CombatModule._start_combat] and [CombatModule.advance_turn]; only
    [start_combat] returns nothing. *)
Definition start_combat : M unit :=
  CombatModule._start_combat;; ret tt.

Definition advance_turn : M unit := CombatModule.advance_turn.


Definition execute_attack (attacker_id target_id : string) : M bool :=
  attacker <- ask (GameStateManager.get_character_by_id attacker_id);;
  target <- ask (GameStateManager.get_character_by_id target_id);;
  match attacker, target with
  | Some attacker, Some target =>
      let distance :=
        Z.abs (fst (Character.position attacker) - fst (Character.position target)) +
        Z.abs (snd (Character.position attacker) - snd (Character.position target)) in
      if distance >? 1 then
        (log (Character.name attacker +:+ " is too far from " +:+
              Character.name target +:+ " to attack!");;
         ret false)
      else
        attack_roll <- randint 1 20;;
        let attack_modifier := 3 in
        let total_attack := attack_roll + attack_modifier in
        log (Character.name attacker +:+ " attacks " +:+ Character.name target +:+
             ": rolls " +:+ str_int attack_roll +:+ " + " +:+
             str_int attack_modifier +:+ " = " +:+ str_int total_attack +:+
             " vs AC " +:+ str_int (Character.ac target));;
        if total_attack >=? Character.ac target then
          (roll <- randint 1 8;;
           let damage := roll + 2 in
           call (GameStateManager.apply_damage target_id damage);;
           ret true)
        else
          (log (Character.name attacker +:+ "'s attack misses " +:+
                Character.name target +:+ "!");;
           ret true)
  | _, _ => ret false
  end.


End GameEngine.

(* ================================================================== *)
(** ** The modules as the router sees them ([main.py], [_register_modules]) *)

Definition as_module
    (cls : string) (can : Action.t -> bool) (process : Action.t -> M bool)
    : GameModule World :=
  {| cls_name := cls;
     can_handle := fun a w => (Ret (can a), w);
     process_action := process |}.

Definition movement_module : GameModule World :=
  as_module "MovementModule" MovementModule.can_handle MovementModule.process_action.
Definition combat_module : GameModule World :=
  as_module "CombatModule" CombatModule.can_handle CombatModule.process_action.
Definition inventory_module : GameModule World :=
  as_module "InventoryModule" InventoryModule.can_handle InventoryModule.process_action.
Definition spells_module : GameModule World :=
  as_module "SpellsModule" SpellsModule.can_handle SpellsModule.process_action.

(** The four rule modules in the registration order of
    [_register_modules].  The chat module, registered last, claims only
    the three chat action types and talks to the narrative agent; it is
    left out. *)
Definition rule_modules : list (GameModule World) :=
  [movement_module; combat_module; inventory_module; spells_module].

(* ================================================================== *)
(** ** Invariants of the store and the sentences of the specification
       that the theorems below confirm or refute *)

(** A dict has each key once, and [add_character] files every character
    under its own id. *)
Definition store_wf (g : GameStateManager.t) : Prop :=
  NoDup (keys (GameStateManager.characters g)) /\
  forall k c, In (k, c) (GameStateManager.characters g) -> Character.id c = k.

(** No two characters stand on the same cell. *)
Definition distinct_positions (g : GameStateManager.t) : Prop :=
  forall k1 c1 k2 c2,
    In (k1, c1) (GameStateManager.characters g) ->
    In (k2, c2) (GameStateManager.characters g) ->
    k1 <> k2 ->
    Character.position c1 <> Character.position c2.





(** The hero next to one goblin. *)
Definition skirmish : GameStateManager.t :=
  GameStateManager.add_character "goblin_1" "Goblin 1" "monster" (4, 4)
    (GameStateManager.add_character "player" "Hero" "player" (4, 5)
       GameStateManager.init).

(** Current HP within its bounds, for one character and for the store. *)
Definition hp_ok (c : Character.t) : Prop :=
  0 <= Character.hp c <= Character.max_hp c.

Definition hp_inv (g : GameStateManager.t) : Prop :=
  Forall (fun kc => hp_ok (snd kc)) (GameStateManager.characters g).


(** Grid distance, as the attack and movement rules compute it. *)
Definition manhattan (p q : Z * Z) : Z :=
  Z.abs (fst p - fst q) + Z.abs (snd p - snd q).


(** A generator whose every draw is the raw number [n]. *)
Definition constant_tape (n : Z) : Random := {| tape := fun _ => n; cursor := 0 |}.

(** A generator whose first draw makes a d20 show 15 and whose later
    draws make a d8 show 5. *)
Definition hit_dice : Random :=
  {| tape := fun n => match n with 0%nat => 14 | _ => 4 end; cursor := 0 |}.

Definition world_of (g : GameStateManager.t) (r : Random) : World :=
  {| gsm := g; movement_used := ∅; random := r |}.

(** [advance_turn()] called [n] times in a row. *)
Definition advance_turns (n : nat) (w : World) : World :=
  Nat.iter n (fun w => snd (CombatModule.advance_turn w)) w.

(** Section 8, turn order: from the state [start_combat] leaves,
    [len(turn_order)] calls of [advance_turn] bring the index back to 0
    and append exactly one new-round marker. *)
Definition round_trip_logs_one_marker (w : World) : Prop :=
  let w' := snd (CombatModule._start_combat w) in
  let w'' := advance_turns (length (GameStateManager.turn_order (gsm w'))) w' in
  GameStateManager.current_turn_index (gsm w'') = 0%nat /\
  GameStateManager.game_log (gsm w'') =
    GameStateManager.game_log (gsm w') ++ [CombatModule.new_round_marker].

(** The initiative roll that the [i]-th character of the store gets: the
    [i]-th draw from the generator, as a d20. *)
Definition initiative_roll (r : Random) (i : nat) : Z :=
  1 + tape r (cursor r + i)%nat `mod` 20.

(** Three combatants and a generator under which the hero and the
    second goblin tie. *)
Definition ambush : GameStateManager.t :=
  GameStateManager.add_character "goblin_2" "Goblin 2" "monster" (6, 4)
    (GameStateManager.add_character "goblin_1" "Goblin 1" "monster" (4, 4)
       (GameStateManager.add_character "player" "Hero" "player" (4, 5)
          GameStateManager.init)).

Definition tied_dice : Random :=
  {| tape := fun n => match n with 1%nat => 16 | _ => 11 end; cursor := 0 |}.

(** Section 8, the cure-wounds scenario as the specification words it:
    with the healing die showing 6 the caster ends at HP 11. *)
Definition cure_wounds_heals_to_11 (w : World) (caster : string) : Prop :=
  forall c,
    GameStateManager.get_character_by_id caster (gsm w) = Some c ->
    Character.hp c = 5 -> Character.max_hp c = 20 ->
    1 + tape (random w) (cursor (random w)) `mod` 8 = 6 ->
    exists c',
      GameStateManager.get_character_by_id caster
        (gsm (snd (SpellsModule._cast_spell caster (Some "cure_wounds") None w))) =
        Some c' /\
      Character.hp c' = 11.

(** A cleric at HP 5 of 20 who knows cure wounds and has one level-1
    slot, none of them used. *)
Definition wounded_cleric : Character.t :=
  Character.mk "player" "Hero" "player" (4, 5) 0 5 20 15 (Some 5) 12 None false
    None None None None
    (Some ["cure_wounds"; "magic_missile"])
    (list_to_map [(1, 1); (2, 0); (3, 0); (4, 0); (5, 0)])
    (list_to_map [(1, 0); (2, 0); (3, 0); (4, 0); (5, 0)])
    None.

Definition chapel : GameStateManager.t :=
  GameStateManager.with_characters [("player", wounded_cleric)] GameStateManager.init.

(** Code that keeps every character's HP within its bounds. *)
Definition keeps {A} (m : M A) : Prop :=
  forall w, hp_inv (gsm w) -> hp_inv (gsm (snd (m w))).

(** Section 3, the HP bounds, claimed of the damage primitive for every
    integer amount. *)
Definition damage_keeps_hp_bounds
    (g : GameStateManager.t) (char_id : string) (damage : Z) : Prop :=
  hp_inv g -> hp_inv (snd (GameStateManager.apply_damage char_id damage g)).


(** A move action that names a destination and no character. *)
Definition anonymous_step : Action.t :=
  Action.mk (Some "move") None (Some (5, 5)) None None None None.

(** A move action that names the hero and no destination, and the
    chamber of [main.py]'s default map: 6 by 6, the hero at (1, 1). *)
Definition aimless_step : Action.t :=
  Action.mk (Some "move") (Some "player") None None None None None.

Definition chamber : GameStateManager.t :=
  GameStateManager.mk
    (GameStateManager.characters
       (GameStateManager.add_character "goblin_1" "Goblin 1" "monster" (4, 4)
          (GameStateManager.add_character "player" "Hero" "player" (1, 1)
             GameStateManager.init)))
    {| width := Some 6; height := Some 6;
       terrain := [("trees", [(2, 2); (3, 1)]); ("rocks", [(1, 4)])] |}
    false [] [] 0.


(* ================================================================== *)
(** ** What an operation leaves alone *)

(** Code whose final store is related by [R] to the store it started
    from. *)
Definition steady (R : GameStateManager.t -> GameStateManager.t -> Prop)
    {A} (m : M A) : Prop :=
  forall w, R (gsm w) (gsm (snd (m w))).

(** A relation between stores that is a preorder, holds across logging,
    and holds across the mutation of one character by a function of the
    class [ok]. *)
Record Frame
    (R : GameStateManager.t -> GameStateManager.t -> Prop)
    (ok : (Character.t -> Character.t) -> Prop) : Prop := {
  frame_refl : forall g, R g g;
  frame_trans : forall g1 g2 g3, R g1 g2 -> R g2 g3 -> R g1 g3;
  frame_log : forall message g, R g (GameStateManager.add_to_log message g);
  frame_mutate : forall char_id f g,
    ok f -> R g (GameStateManager.update_character char_id f g)
}.

(** The attributes of a character that no rule assigns. *)
Definition same_sheet (c c' : Character.t) : Prop :=
  Character.id c' = Character.id c /\
  Character.name c' = Character.name c /\
  Character.type c' = Character.type c /\
  Character.max_hp c' = Character.max_hp c /\
  Character.dexterity c' = Character.dexterity c /\
  Character.race_speed c' = Character.race_speed c /\
  Character.attack_bonus c' = Character.attack_bonus c /\
  Character.spells_known c' = Character.spells_known c /\
  Character.spell_slots c' = Character.spell_slots c.

(** The same characters under the same keys in the same order, each
    with its sheet unchanged. *)
Definition same_roster (g g' : GameStateManager.t) : Prop :=
  Forall2 (fun kc kc' => fst kc' = fst kc /\ same_sheet (snd kc) (snd kc'))
    (GameStateManager.characters g) (GameStateManager.characters g').

(** The log has only grown. *)
Definition log_extends (g g' : GameStateManager.t) : Prop :=
  exists lines,
    GameStateManager.game_log g' = GameStateManager.game_log g ++ lines.

(** Combat flag, turn order, turn index and map are as they were. *)
Definition same_turn_state (g g' : GameStateManager.t) : Prop :=
  GameStateManager.combat_active g' = GameStateManager.combat_active g /\
  GameStateManager.turn_order g' = GameStateManager.turn_order g /\
  GameStateManager.current_turn_index g' = GameStateManager.current_turn_index g /\
  GameStateManager.map_data g' = GameStateManager.map_data g.

(** Every character stands where it stood. *)
Definition same_positions (g g' : GameStateManager.t) : Prop :=
  map (fun kc => (fst kc, Character.position (snd kc)))
    (GameStateManager.characters g') =
  map (fun kc => (fst kc, Character.position (snd kc)))
    (GameStateManager.characters g).

(** Mutation classes of the four frames. *)
Definition keeps_sheet (f : Character.t -> Character.t) : Prop :=
  forall c, same_sheet c (f c).
Definition keeps_position (f : Character.t -> Character.t) : Prop :=
  forall c, Character.position (f c) = Character.position c.
Definition any_mutation (f : Character.t -> Character.t) : Prop := True.

(** An attack on the goblin and the start of combat, as action
    dicts. *)
Definition attack_goblin : Action.t :=
  Action.mk (Some "attack") None None (Some "player") (Some "goblin_1") None None.
Definition start_combat_action : Action.t := Action.of_type "start_combat".

(* ================================================================== *)
(** ** Strings

    [lower] and the dice pattern read a string one ASCII character at a
    time; [str.lower()] and [\d] also know the letters and digits of
    other scripts.  On a string made of ASCII characters only, the two
    agree. *)
Fixpoint ascii_only (s : string) : bool :=
  match s with
  | EmptyString => true
  | String c s' => (N_of_ascii c <? 128)%N && ascii_only s'
  end.

(* ================================================================== *)
(** ** Movement: what the rules mean *)

(** A cell listed under the terrain type [trees]. *)
Definition blocked_by_trees (p : Z * Z) (g : GameStateManager.t) : Prop :=
  exists cells,
    In ("trees", cells) (terrain (GameStateManager.map_data g)) /\ In p cells.

(** Feet of movement [character_id] has used this turn, and feet it
    would use to reach [p] from where [c] stands. *)
Definition used_feet (character_id : string) (w : World) : Z :=
  default 0 (movement_used w !! character_id).
Definition feet_to (c : Character.t) (p : Z * Z) : Z :=
  manhattan p (Character.position c) * 5.

(** The conditions under which the movement module lets [c], filed
    under [character_id], move to [p]. *)
Definition move_allowed
    (character_id : string) (c : Character.t) (p : Z * Z) (w : World) : Prop :=
  feet_to c p <= MovementModule._get_character_speed c - used_feet character_id w /\
  0 <= fst p < default 10 (width (GameStateManager.map_data (gsm w))) /\
  0 <= snd p < default 10 (height (GameStateManager.map_data (gsm w))) /\
  (forall k c', In (k, c') (GameStateManager.characters (gsm w)) ->
                Character.id c' <> Character.id c -> Character.position c' <> p) /\
  ~ blocked_by_trees p (gsm w).

(** Nobody has used more feet than its speed. *)
Definition within_budget (w : World) : Prop :=
  forall character_id c,
    GameStateManager.get_character_by_id character_id (gsm w) = Some c ->
    0 <= used_feet character_id w <= MovementModule._get_character_speed c.

(** A glade: the skirmish on a 10x10 map with a tree east of the hero. *)
Definition glade : GameStateManager.t :=
  GameStateManager.mk (GameStateManager.characters skirmish)
    {| width := Some 10; height := Some 10; terrain := [("trees", [(5, 5); (6, 5)])] |}
    false [] [] 0.

(** The hero stepping east in the skirmish. *)
Definition step_east : Action.t :=
  Action.mk (Some "move") (Some "player") (Some (5, 5)) None None None None.

(* ================================================================== *)
(** ** Turns *)

(** [main.py]: the engine that owns the modules.  Its [advance_turn]
    gives the character whose turn ends its movement back and then
    moves the turn on. *)
Module Main.
Definition advance_turn : M unit :=
  current_char <- CombatModule.get_current_character;;
  match current_char with
  | Some c => MovementModule.reset_turn_movement (Character.id c)
  | None => ret tt
  end;;
  CombatModule.advance_turn.
End Main.

(** The turn index points into the turn order, and the turn order
    names characters of the store. *)
Definition turn_index_valid (g : GameStateManager.t) : Prop :=
  GameStateManager.turn_order g = [] \/
  (GameStateManager.current_turn_index g <
   length (GameStateManager.turn_order g))%nat.

Definition turn_order_known (g : GameStateManager.t) : Prop :=
  forall char_id, In char_id (GameStateManager.turn_order g) ->
                  In char_id (keys (GameStateManager.characters g)).

Definition turn_ready (g : GameStateManager.t) : Prop :=
  turn_index_valid g /\ turn_order_known g.

(** What a session does to the world: an action goes through the
    router, or the engine moves the turn on. *)
Inductive game_step : World -> World -> Prop :=
  | step_action a w :
      game_step w (final (ModuleManager_process_action rule_modules a w))
  | step_turn w :
      game_step w (snd (Main.advance_turn w)).

(** The ambush once combat has started. *)
Definition ambush_started : World :=
  snd (CombatModule._start_combat (world_of ambush tied_dice)).

(* ================================================================== *)
(** ** Spells *)

(** At no level are more slots used than the character has. *)
Definition slots_fit (used total : gmap Z Z) : Prop :=
  forall level u t, used !! level = Some u -> total !! level = Some t -> u <= t.

Definition slots_inv (g : GameStateManager.t) : Prop :=
  Forall (fun kc => slots_fit (Character.spell_slots_used (snd kc))
                      (Character.spell_slots (snd kc)))
    (GameStateManager.characters g).

(** Every character has the slot counters it had. *)
Definition same_slots (g g' : GameStateManager.t) : Prop :=
  map (fun kc => (fst kc, Character.spell_slots_used (snd kc),
                  Character.spell_slots (snd kc)))
    (GameStateManager.characters g') =
  map (fun kc => (fst kc, Character.spell_slots_used (snd kc),
                  Character.spell_slots (snd kc)))
    (GameStateManager.characters g).

Definition keeps_slots (f : Character.t -> Character.t) : Prop :=
  forall c, Character.spell_slots_used (f c) = Character.spell_slots_used c /\
            Character.spell_slots (f c) = Character.spell_slots c.

(** What fireball does to one character. *)
Definition scorch (damage : Z) (c : Character.t) : Character.t :=
  if String.eqb (Character.type c) "monster" && (Character.hp c >? 0)
  then Character.with_hp (Z.max 0 (Character.hp c - damage)) c
  else c.

Definition fireball : Spell.t := Spell.mk "Fireball" 3 "evocation" "150 feet".

(** The cleric of the chapel casting at a character that is not there. *)
Definition cast_at_nobody : Action.t :=
  Action.mk (Some "cast_spell") (Some "player") None None (Some "ghost")
    (Some "magic_missile") None.

(* ================================================================== *)
(** ** Registration *)

(** [ModuleManager.register_module]: the module goes to the end of the
    list; the second component is the info record it logs. *)
Definition register_module {St} (m : GameModule St) (ms : list (GameModule St))
    : list (GameModule St) * string :=
  (ms ++ [m], "Registered module: " +:+ cls_name m).

(** [AIDMChatModule.can_handle] ([modules/ai_dm_chat.py]), the module
    that [main.py] registers after the four rule modules. *)
Definition chat_can_handle (action_data : Action.t) : bool :=
  type_in action_data ["chat_with_dm"; "dm_narrate"; "dm_response"].

(** A record of an exception caught by the router. *)
Definition is_error_record (r : LogRecord) : Prop :=
  exists cls e, r = LogError cls e.

(** A stand-in for the chat module: its own [can_handle], and a
    [process_action] that always reports success. *)
Definition chat_stub : GameModule World :=
  as_module "AIDMChatModule" chat_can_handle (fun _ => ret true).

(* ================================================================== *)
(** ** Inventory *)

(** The hero of the skirmish with the starting equipment in the pack,
    nothing equipped. *)
Definition longsword : Item.t := Item.mk "Longsword" "weapon" None (Some 0) None 1.
Definition chain_mail : Item.t := Item.mk "Chain Mail" "armor" None None (Some 6) 1.
Definition shield_item : Item.t := Item.mk "Shield" "shield" None None (Some 2) 1.
Definition healing_potion : Item.t :=
  Item.mk "Healing Potion" "consumable" (Some "2d4+2") None None 2.

Definition packed_hero : Character.t :=
  Character.with_equipped
    (Some [("weapon", None); ("armor", None); ("shield", None)])
    (Character.with_inventory
       (Some [longsword; chain_mail; shield_item; healing_potion])
       (Character._initialize_defaults "player" "Hero" "player" (4, 5))).

Definition camp : GameStateManager.t :=
  GameStateManager.with_characters [("player", packed_hero)] GameStateManager.init.



(** Every item of the pack has an ASCII name. *)
Definition ascii_names (inv : list Item.t) : Prop :=
  Forall (fun i => ascii_only (Item.name i) = true) inv.


(* ================================================================== *)
(** ** [core/GameEngine.py]: the actions of the narrative agent *)

(** One entry of [ai_actions]: the function name and the arguments the
    engine reads from [args].  As for [Action.t], every key is absent
    ([None] here) or bound to a value of the type the engine expects: a
    string for a text or an id, a pair of integers for a position.
    Arguments of other shapes, which the engine does not check for, have
    no counterpart here. *)
Module AIAction.
Record t := mk {
  function : option string;
  text : option string;
  character_id : option string;
  new_position : option (Z * Z);
  attacker_id : option string;
  target_id : option string
}.
End AIAction.

(** The body of the loop of [process_ai_actions]: what one action adds
    to [results].  An id that is [None] names no character, so the
    store refuses the move and the attack without a side effect. *)
Definition process_ai_action (action : AIAction.t) : M (list string) :=
  let function_name := AIAction.function action in
  if bool_decide (function_name = Some "narrate") then
    let text := default "" (AIAction.text action) in
    log ("[DM] " +:+ text);;
    ret ["DM: " +:+ text]
  else if bool_decide (function_name = Some "move_character") then
    let character_id := AIAction.character_id action in
    let new_position := default (0, 0) (AIAction.new_position action) in
    moved <- match character_id with
             | Some char_id =>
                 call (GameStateManager.move_character char_id new_position)
             | None => ret false
             end;;
    if moved
    then ret ["Moved " +:+ str_opt character_id +:+ " to " +:+ str_pos new_position]
    else ret ["Failed to move " +:+ str_opt character_id]
  else if bool_decide (function_name = Some "attack_character") then
    let attacker_id := AIAction.attacker_id action in
    let target_id := AIAction.target_id action in
    hit <- match attacker_id, target_id with
           | Some attacker, Some target => GameEngine.execute_attack attacker target
           | _, _ => ret false
           end;;
    if hit
    then ret [str_opt attacker_id +:+ " attacks " +:+ str_opt target_id]
    else ret ["Attack failed: " +:+ str_opt attacker_id +:+ " -> " +:+
              str_opt target_id]
  else ret [].



(** Code that returns, whatever the world it starts from. *)
Definition returns {A} (m : M A) : Prop :=
  forall w, exists a, fst (m w) = Ret a.

Definition magic_missile : Spell.t := Spell.mk "Magic Missile" 1 "evocation" "120 feet".

(* ================================================================== *)
(** * Theorems *)

(** ** The router *)

Section RouterFacts.
Context {St : Type}.
Implicit Types (ms pre post : list (GameModule St)) (a : Action.t) (st : St).

Lemma emit_emit lg1 cl1 lg2 cl2 (r : @Routed St) :
  emit lg1 cl1 (emit lg2 cl2 r) = emit (lg1 ++ lg2) (cl1 ++ cl2) r.
Proof. unfold emit; simpl. by rewrite !app_assoc. Qed.

(** The loop over a concatenation: when the scan of the first part
    runs off its end, the scan goes on with the second part. *)
Lemma scan_app pre post i a st :
  exit (scan pre i a st) = None ->
  scan (pre ++ post) i a st =
    emit (logged (scan pre i a st)) (called (scan pre i a st))
      (scan post (i + length pre) a (world (scan pre i a st))).
Proof.
  revert i st. induction pre as [|m pre IH]; intros i st Hx; simpl in *.
  - rewrite Nat.add_0_r. by destruct (scan post i a st).
  - destruct (can_handle m a st) as [[[]|e] st1]; simpl in *;
      [destruct (process_action m a st1) as [[[]|e] st2]; simpl in *| |];
      try discriminate;
      rewrite (IH _ _ Hx), emit_emit, <- Nat.add_succ_comm; reflexivity.
Qed.

(** A scan in which every module declines runs off the end, processes
    nothing and logs nothing. *)
Lemma scan_declines pre i a st st' :
  declines a pre st st' ->
  exit (scan pre i a st) = None /\ world (scan pre i a st) = st' /\
  logged (scan pre i a st) = [] /\
  called (scan pre i a st) = map CalledCanHandle (seq i (length pre)).
Proof.
  intros H. revert i. induction H as [st|m ms st st1 st2 Hc _ IH]; intros i; simpl.
  - done.
  - rewrite Hc. simpl. destruct (IH (S i)) as (-> & -> & -> & ->). done.
Qed.

(** Calls made by a scan started at index [i] name modules of index at
    least [i] and below [i + length ms]. *)
Lemma scan_called_range ms i a st c :
  In c (called (scan ms i a st)) ->
  exists j, (c = CalledCanHandle j \/ c = CalledProcess j) /\
            (i <= j < i + length ms)%nat.
Proof.
  revert i st. induction ms as [|m ms IH]; intros i st; simpl; [done|].
  destruct (can_handle m a st) as [[[]|e] st1]; simpl;
    [destruct (process_action m a st1) as [[[]|e] st2]; simpl| |];
    intros H;
    repeat match goal with
      | H : _ \/ _ |- _ => destruct H as [H|H]
      | H : False |- _ => destruct H
      | H : _ = c |- _ => subst c; exists i; split; [eauto|lia]
      | H : In c (called (scan ms _ a _)) |- _ =>
          apply IH in H; destruct H as (j & Hj & Hr); exists j; split; [done|lia]
      end.
Qed.
End RouterFacts.

Section RouterClaims.
Context {St : Type}.
Implicit Types (ms pre mid post : list (GameModule St)) (a : Action.t) (st : St).

(** The index a scan starts from only labels the calls. *)
Lemma scan_index ms i j a st :
  exit (scan ms i a st) = exit (scan ms j a st) /\
  world (scan ms i a st) = world (scan ms j a st) /\
  logged (scan ms i a st) = logged (scan ms j a st).
Proof.
  revert i j st. induction ms as [|m ms IH]; intros i j st; simpl; [done|].
  destruct (can_handle m a st) as [[[]|e] st1]; simpl;
    [destruct (process_action m a st1) as [[[]|e] st2]; simpl| |];
    try done;
    first [ destruct (IH (S i) (S j) st2) as (-> & -> & ->)
          | destruct (IH (S i) (S j) st1) as (-> & -> & ->) ]; done.
Qed.

(** The dispatch result, read off a scan that starts at any index. *)
Lemma dispatch_of_scan ms i a st :
  outcome (ModuleManager_process_action ms a st) =
    default (Ret false) (exit (scan ms i a st)) /\
  final (ModuleManager_process_action ms a st) = world (scan ms i a st).
Proof.
  unfold ModuleManager_process_action.
  destruct (scan_index ms 0 i a st) as (He & Hw & _).
  rewrite <- He, <- Hw. by destruct (exit (scan ms 0 a st)).
Qed.

Lemma dispatch_calls ms a st :
  calls (ModuleManager_process_action ms a st) = called (scan ms 0 a st).
Proof.
  unfold ModuleManager_process_action. by destruct (exit (scan ms 0 a st)).
Qed.



(** A scan that meets, after modules that all decline, a module that
    claims the action and returns [b]. *)
Lemma scan_claimant mid m post i a st st1 st2 b st3 :
  declines a mid st st1 ->
  can_handle m a st1 = (Ret true, st2) ->
  process_action m a st2 = (Ret b, st3) ->
  In (CalledProcess (i + length mid)) (called (scan (mid ++ m :: post) i a st)) /\
  (b = true ->
     exit (scan (mid ++ m :: post) i a st) = Some (Ret true) /\
     world (scan (mid ++ m :: post) i a st) = st3) /\
  (b = false ->
     exit (scan (mid ++ m :: post) i a st) =
       exit (scan post (S (i + length mid)) a st3) /\
     world (scan (mid ++ m :: post) i a st) =
       world (scan post (S (i + length mid)) a st3)).
Proof.
  intros Hd Hc Hp.
  destruct (scan_declines mid i a st st1 Hd) as (Hx & Hw & _ & _).
  rewrite (scan_app mid (m :: post) i a st Hx), Hw. simpl.
  rewrite Hc, Hp. destruct b; simpl; repeat split; try done;
    apply in_or_app; right; simpl; auto.
Qed.

(** C1 (amended).  When the first module that claims an action returns
    false without raising, [ModuleManager.process_action] does not stop:
    it goes on with the modules registered after it exactly as if the
    list began there.  The next module that claims the action has its
    [process_action] invoked, a true result of it is returned, and the
    action is reported failed only when the rest of the scan fails. *)
Theorem rejection_continues_scan pre m post a st st1 st2 st3 :
  declines a pre st st1 ->
  can_handle m a st1 = (Ret true, st2) ->
  process_action m a st2 = (Ret false, st3) ->
  outcome (ModuleManager_process_action (pre ++ m :: post) a st) =
    outcome (ModuleManager_process_action post a st3) /\
  final (ModuleManager_process_action (pre ++ m :: post) a st) =
    final (ModuleManager_process_action post a st3) /\
  In (CalledProcess (length pre))
     (calls (ModuleManager_process_action (pre ++ m :: post) a st)) /\
  forall mid m' post' st4 st5 b st6,
    post = mid ++ m' :: post' ->
    declines a mid st3 st4 ->
    can_handle m' a st4 = (Ret true, st5) ->
    process_action m' a st5 = (Ret b, st6) ->
    In (CalledProcess (length pre + 1 + length mid))
       (calls (ModuleManager_process_action (pre ++ m :: post) a st)) /\
    (b = true ->
       outcome (ModuleManager_process_action (pre ++ m :: post) a st) = Ret true).
Proof.
  intros Hd Hc Hp.
  destruct (scan_claimant pre m post 0 a st st1 st2 false st3 Hd Hc Hp)
    as (Hin & _ & Hf). destruct (Hf eq_refl) as [Hx Hw]. simpl in *.
  destruct (dispatch_of_scan (pre ++ m :: post) 0 a st) as [Ho Hfin].
  destruct (dispatch_of_scan post (S (length pre)) a st3) as [Ho' Hfin'].
  assert (Hout : outcome (ModuleManager_process_action (pre ++ m :: post) a st) =
                 outcome (ModuleManager_process_action post a st3))
    by (rewrite Ho, Ho', Hx; reflexivity).
  split; [exact Hout|]. split; [by rewrite Hfin, Hfin', Hw|].
  split; [by rewrite dispatch_calls|].
  intros mid m' post' st4 st5 b st6 -> Hd' Hc' Hp'.
  destruct (scan_claimant mid m' post' (S (length pre)) a st3 st4 st5 b st6
              Hd' Hc' Hp') as (Hin' & Ht & _).
  split.
  - rewrite dispatch_calls.
    destruct (scan_declines pre 0 a st st1 Hd) as (Hpx & Hpw & _ & _).
    rewrite (scan_app pre _ 0 a st Hpx), Hpw. simpl. rewrite Hc, Hp. simpl.
    apply in_or_app; right. right; right.
    replace (length pre + 1 + length mid)%nat
      with (S (length pre) + length mid)%nat by lia. exact Hin'.
  - intros ->. destruct (Ht eq_refl) as [Hx' _].
    rewrite Hout, Ho', Hx'. reflexivity.
Qed.


(** C10.  The router guards only [process_action]: when the scan
    reaches a module whose [can_handle] raises, that exception is the
    outcome of [ModuleManager.process_action], no error is logged for
    it, the module's [process_action] is not invoked and no module
    registered after it is consulted. *)
Theorem can_handle_exception_propagates pre m post a st st1 e st2 :
  exit (scan pre 0 a st) = None ->
  world (scan pre 0 a st) = st1 ->
  can_handle m a st1 = (Raise e, st2) ->
  outcome (ModuleManager_process_action (pre ++ m :: post) a st) = Raise e /\
  final (ModuleManager_process_action (pre ++ m :: post) a st) = st2 /\
  records (ModuleManager_process_action (pre ++ m :: post) a st) =
    logged (scan pre 0 a st) /\
  ~ In (CalledProcess (length pre))
       (calls (ModuleManager_process_action (pre ++ m :: post) a st)) /\
  forall j, (length pre < j)%nat ->
    ~ In (CalledCanHandle j)
         (calls (ModuleManager_process_action (pre ++ m :: post) a st)) /\
    ~ In (CalledProcess j)
         (calls (ModuleManager_process_action (pre ++ m :: post) a st)).
Proof.
  intros Hx Hw Hc.
  pose proof (scan_app pre (m :: post) 0 a st Hx) as Happ.
  rewrite Hw in Happ. simpl in Happ. rewrite Hc in Happ.
  assert (Hcalls : forall c,
    In c (calls (ModuleManager_process_action (pre ++ m :: post) a st)) ->
    c = CalledCanHandle (length pre) \/
    exists j, (c = CalledCanHandle j \/ c = CalledProcess j) /\ (j < length pre)%nat).
  { intros c. rewrite dispatch_calls, Happ. simpl. intros Hin.
    apply in_app_or in Hin as [Hin|[<-|[]]]; [|by left].
    right. apply scan_called_range in Hin as (j & Hj & Hr).
    exists j. split; [done|lia]. }
  unfold ModuleManager_process_action at 1 2 3. rewrite Happ. simpl.
  rewrite app_nil_r. repeat split; try done.
  - intros Hin. apply Hcalls in Hin as [Hin|(j & [Hj|Hj] & Hr)];
      [discriminate| discriminate | injection Hj as Hj; lia].
  - intros Hin. apply Hcalls in Hin as [Hin|(j' & [Hj|Hj] & Hr)];
      [injection Hin as Hin; lia | injection Hj as Hj; lia | discriminate].
  - intros Hin. apply Hcalls in Hin as [Hin|(j' & [Hj|Hj] & Hr)];
      [discriminate | discriminate | injection Hj as Hj; lia].
Qed.
End RouterClaims.

(** C1 (as stated) fails: with a module that claims and rejects an
    action registered before one that claims and accepts it, the router
    invokes the second module and reports success. *)
Lemma rejection_does_not_stop_routing :
  ~ stops_on_rejection [rejecter; accepter] (Action.of_type "attack") tt.
Proof.
  intros H.
  destruct (H [] rejecter [accepter] tt tt tt eq_refl (declines_nil _ _)
              eq_refl eq_refl) as [Ho _].
  vm_compute in Ho. discriminate Ho.
Qed.

(** C1: behind a rejecting module the accepting module is reached. *)
Lemma rejection_continues_scan_witness :
  declines (Action.of_type "attack") [bystander] tt tt /\
  outcome (ModuleManager_process_action
             ([bystander] ++ rejecter :: [bystander; accepter; rejecter])
             (Action.of_type "attack") tt) = Ret true.
Proof.
  assert (Hd : declines (Action.of_type "attack") [bystander] tt tt)
    by (eapply declines_cons; [reflexivity | apply declines_nil]).
  split; [exact Hd|].
  destruct (rejection_continues_scan [bystander] rejecter
              [bystander; accepter; rejecter] (Action.of_type "attack")
              tt tt tt tt Hd eq_refl eq_refl) as (_ & _ & _ & Hnext).
  destruct (Hnext [bystander] accepter [rejecter] tt tt true tt
              eq_refl Hd eq_refl eq_refl) as [_ Hb].
  exact (Hb eq_refl).
Defined.



(** C10: a raising predicate in third place ends the dispatch. *)
Lemma can_handle_exception_propagates_witness :
  exit (scan [bystander; rejecter] 0 (Action.of_type "attack") tt) = None /\
  can_handle broken_predicate (Action.of_type "attack") tt = (Raise boom, tt) /\
  outcome (ModuleManager_process_action
             ([bystander; rejecter] ++ broken_predicate :: [accepter])
             (Action.of_type "attack") tt) = Raise boom.
Proof.
  split; [reflexivity|]. split; [reflexivity|].
  exact (proj1 (can_handle_exception_propagates [bystander; rejecter]
                  broken_predicate [accepter] (Action.of_type "attack")
                  tt tt boom tt eq_refl eq_refl eq_refl)).
Defined.

(** ** Dicts *)

Section DictFacts.
Context {V : Type}.
Implicit Types (d : list (string * V)) (k : string) (f : V -> V).

Lemma dict_get_alter_eq f k d :
  dict_get k (dict_alter f k d) = f <$> dict_get k d.
Proof.
  induction d as [|[k' v] d IH]; simpl; [done|].
  destruct (String.eqb_spec k k') as [->|Hne]; simpl.
  - by rewrite String.eqb_refl.
  - by destruct (String.eqb_spec k k').
Qed.

Lemma dict_get_alter_ne f k k' d :
  k <> k' -> dict_get k (dict_alter f k' d) = dict_get k d.
Proof.
  intros Hne. induction d as [|[k0 v] d IH]; simpl; [done|].
  destruct (String.eqb_spec k' k0) as [->|Hne']; simpl.
  - by destruct (String.eqb_spec k k0).
  - destruct (String.eqb_spec k k0); [done|]. exact IH.
Qed.

Lemma keys_dict_alter f k d : keys (dict_alter f k d) = keys d.
Proof.
  induction d as [|[k' v] d IH]; simpl; [done|].
  destruct (String.eqb k k'); simpl; [done|]. f_equal. exact IH.
Qed.

Lemma dict_get_Some_In k v d : dict_get k d = Some v -> In (k, v) d.
Proof.
  induction d as [|[k' v'] d IH]; simpl; [done|].
  destruct (String.eqb_spec k k') as [->|Hne]; intros H.
  - injection H as ->. by left.
  - right. by apply IH.
Qed.

Lemma In_keys k v d : In (k, v) d -> In k (keys d).
Proof. intros H. apply (in_map fst) in H. exact H. Qed.

Lemma dict_get_None k d : dict_get k d = None <-> ~ In k (keys d).
Proof.
  induction d as [|[k' v'] d IH]; simpl; [by split; [intros _ []|]|].
  destruct (String.eqb_spec k k') as [->|Hne]; split; intros H.
  - discriminate.
  - exfalso. apply H. by left.
  - intros [Heq|Hin]; [congruence|]. by apply IH in H.
  - apply IH. intros Hin. apply H. by right.
Qed.

Lemma In_dict_get k v d : NoDup (keys d) -> In (k, v) d -> dict_get k d = Some v.
Proof.
  induction d as [|[k' v'] d IH]; simpl; [done|].
  intros Hnd [Heq|Hin]; apply NoDup_cons in Hnd as [Hnotin Hnd].
  - injection Heq as -> ->. by rewrite String.eqb_refl.
  - destruct (String.eqb_spec k k') as [->|Hne]; [|by apply IH].
    exfalso. apply Hnotin. apply list_elem_of_In. by apply In_keys in Hin.
Qed.


Lemma In_dict_alter_NoDup f k d k' v' :
  NoDup (keys d) ->
  In (k', v') (dict_alter f k d) ->
  (k' <> k /\ In (k', v') d) \/
  (k' = k /\ exists v, In (k, v) d /\ v' = f v).
Proof.
  intros Hnd Hin.
  assert (Hget : dict_get k' (dict_alter f k d) = Some v').
  { apply In_dict_get; [by rewrite keys_dict_alter|done]. }
  destruct (String.eqb_spec k' k) as [->|Hne].
  - right. split; [done|]. rewrite dict_get_alter_eq in Hget.
    destruct (dict_get k d) as [v|] eqn:Hk; [|done].
    injection Hget as <-. exists v. split; [|done]. by apply dict_get_Some_In.
  - left. split; [done|]. rewrite dict_get_alter_ne in Hget by done.
    by apply dict_get_Some_In.
Qed.

Lemma Forall_dict_alter (P : string * V -> Prop) f k d :
  (forall v, P (k, v) -> P (k, f v)) ->
  Forall P d -> Forall P (dict_alter f k d).
Proof.
  intros Hf. induction 1 as [|[k' v] d Hv Hd IH]; simpl; [by constructor|].
  destruct (String.eqb_spec k k') as [->|Hne]; constructor; auto.
Qed.
End DictFacts.

Lemma pos_eqb_eq (p q : Z * Z) : pos_eqb p q = true <-> p = q.
Proof.
  destruct p as [a b], q as [c d]. unfold pos_eqb. simpl.
  rewrite andb_true_iff, !Z.eqb_eq. split; [intros []; congruence|].
  intros H. by injection H.
Qed.

(** ** The state store: movement *)

Lemma in_bounds_spec p g :
  GameStateManager.in_bounds p g = true <->
  0 <= fst p < default 10 (width (GameStateManager.map_data g)) /\
  0 <= snd p < default 10 (height (GameStateManager.map_data g)).
Proof.
  unfold GameStateManager.in_bounds.
  rewrite !andb_true_iff, !Z.leb_le, !Z.ltb_lt. lia.
Qed.

Lemma occupied_false char_id p g :
  GameStateManager.occupied char_id p g = false <->
  forall k c, In (k, c) (GameStateManager.characters g) ->
              Character.id c <> char_id -> Character.position c <> p.
Proof.
  unfold GameStateManager.occupied, values.
  induction (GameStateManager.characters g) as [|[k0 c0] l IH]; simpl.
  - split; [intros _ ? ? []|done].
  - rewrite orb_false_iff, IH, andb_false_iff, negb_false_iff. split.
    + intros [Hc Hl] k c [Heq|Hin] Hid Hpos; [|exact (Hl k c Hin Hid Hpos)].
      injection Heq as -> ->. destruct Hc as [Hc|Hc].
      * by apply String.eqb_eq in Hc.
      * apply pos_eqb_eq in Hpos. congruence.
    + intros H. split; [|intros k c Hin; apply (H k); by right].
      destruct (String.eqb_spec (Character.id c0) char_id) as [Heq|Hne]; [by left|].
      right. destruct (pos_eqb (Character.position c0) p) eqn:Hp; [|done].
      apply pos_eqb_eq in Hp. exfalso. by apply (H k0 c0); [left|..].
Qed.




(** ** The state store: damage *)

(** Unfolding the monad. *)
Ltac run :=
  unfold log, mutate;
  unfold bind, ret, raise, ask, tell, call, deref;
  cbn [fst snd gsm movement_used random with_gsm with_movement_used with_random].

(** Projections of updated stores. *)
Ltac store :=
  cbn [gsm movement_used random with_gsm with_movement_used with_random
       GameStateManager.characters GameStateManager.map_data
       GameStateManager.combat_active GameStateManager.game_log
       GameStateManager.turn_order GameStateManager.current_turn_index
       GameStateManager.with_characters GameStateManager.with_combat_active
       GameStateManager.with_game_log GameStateManager.with_turn_order
       GameStateManager.with_current_turn_index
       GameStateManager.update_character GameStateManager.add_to_log] in *.


Lemma with_gsm_same w : with_gsm (gsm w) w = w.
Proof. by destruct w. Qed.

(** [CombatModule._apply_damage] is the store's [apply_damage]. *)
Lemma combat_apply_damage_eq char_id damage w :
  CombatModule._apply_damage char_id damage w =
    (Ret (fst (GameStateManager.apply_damage char_id damage (gsm w))),
     with_gsm (snd (GameStateManager.apply_damage char_id damage (gsm w))) w).
Proof.
  unfold CombatModule._apply_damage, GameStateManager.apply_damage. run.
  destruct (GameStateManager.get_character_by_id char_id (gsm w)) as [c|];
    cbn [fst snd]; [|by rewrite with_gsm_same].
  unfold GameStateManager.damage_line, GameStateManager.defeat_line.
  by destruct (Z.max 0 (Character.hp c - damage) <=? 0); run.
Qed.




(** ** Attacks *)

Lemma randint_const lo hi w :
  lo <= hi ->
  randint lo hi w =
    (Ret (lo + tape (random w) (cursor (random w)) `mod` (hi - lo + 1)),
     with_random {| tape := tape (random w); cursor := S (cursor (random w)) |} w).
Proof.
  intros H. unfold randint. by destruct (Z.ltb_spec hi lo); [lia|].
Qed.

Lemma randint_range lo hi w v w' :
  randint lo hi w = (Ret v, w') -> lo <= v <= hi.
Proof.
  unfold randint. destruct (Z.ltb_spec hi lo) as [?|Hle]; [done|].
  intros H. injection H as <- _.
  pose proof (Z.mod_pos_bound (tape (random w) (cursor (random w))) (hi - lo + 1)).
  lia.
Qed.


(** A hit: 15 + 3 = 18 against AC 12, then 5 + 2 points of damage. *)
Example attack_hits :
  let r := GameEngine.execute_attack "player" "goblin_1" (world_of skirmish hit_dice) in
  fst r = Ret true /\
  GameStateManager.game_log (gsm (snd r)) =
    ["Hero attacks Goblin 1: rolls 15 + 3 = 18 vs AC 12";
     "Goblin 1 takes 7 damage (HP: 3/10)"].
Proof. by vm_compute. Qed.

(** A miss: 1 + 5 = 6 against AC 12 still returns true. *)
Example attack_misses :
  let r := CombatModule._execute_attack "player" "goblin_1"
             (world_of skirmish (constant_tape 0)) in
  fst r = Ret true /\
  GameStateManager.game_log (gsm (snd r)) =
    ["Hero attacks Goblin 1: rolls 1 + 5 = 6 vs AC 12";
     "Hero's attack misses Goblin 1!"].
Proof. by vm_compute. Qed.

(** ** Sorting in the order of [sorted(..., reverse=True)] *)

Section SortedFacts.
Context {A : Type} (key : A -> Z).

Lemma insert_reverse_perm x l : Permutation (insert_reverse key x l) (x :: l).
Proof.
  induction l as [|y l IH]; simpl; [done|].
  destruct (key x <? key y); [|done].
  rewrite IH. apply perm_swap.
Qed.

Lemma sorted_reverse_perm l : Permutation (sorted_reverse key l) l.
Proof.
  induction l as [|x l IH]; simpl; [done|].
  rewrite insert_reverse_perm. by constructor.
Qed.

Lemma insert_reverse_sorted x l :
  StronglySorted (fun a b => key b <= key a) l ->
  StronglySorted (fun a b => key b <= key a) (insert_reverse key x l).
Proof.
  induction 1 as [|y l Hs IH Hy]; simpl; [repeat constructor|].
  destruct (Z.ltb_spec (key x) (key y)) as [Hlt|Hge].
  - constructor; [exact IH|].
    rewrite (insert_reverse_perm x l). constructor; [lia|exact Hy].
  - constructor; [by constructor|].
    constructor; [done|].
    eapply Forall_impl; [exact Hy|]. simpl. intros z Hz. lia.
Qed.

Lemma sorted_reverse_sorted l :
  StronglySorted (fun a b => key b <= key a) (sorted_reverse key l).
Proof.
  induction l as [|x l IH]; simpl; [constructor|].
  by apply insert_reverse_sorted.
Qed.

(** Stability: among the items of one key value the input order is kept. *)
Lemma insert_reverse_stable v x l :
  filter (fun a => key a = v) (insert_reverse key x l) =
  filter (fun a => key a = v) (x :: l).
Proof.
  induction l as [|y l IH]; simpl; [done|].
  destruct (Z.ltb_spec (key x) (key y)) as [Hlt|Hge]; [|done].
  rewrite (filter_cons _ y), IH, !(filter_cons _ x), (filter_cons _ y).
  destruct (decide (key x = v)), (decide (key y = v)); try done. lia.
Qed.

Lemma sorted_reverse_stable v l :
  filter (fun a => key a = v) (sorted_reverse key l) =
  filter (fun a => key a = v) l.
Proof.
  induction l as [|x l IH]; simpl; [done|].
  by rewrite insert_reverse_stable, !filter_cons, IH.
Qed.

Lemma sorted_reverse_length l : length (sorted_reverse key l) = length l.
Proof. apply Permutation_length, sorted_reverse_perm. Qed.
End SortedFacts.

(** ** Starting combat *)

Lemma In_keys_get {V} k (d : list (string * V)) :
  In k (keys d) -> exists v, dict_get k d = Some v.
Proof.
  intros Hin. destruct (dict_get k d) as [v|] eqn:Hg; [by exists v|].
  by apply dict_get_None in Hg.
Qed.

(** What the initiative loop does to the world. *)
Lemma roll_initiative_spec ids w :
  (forall char_id, In char_id ids ->
     In char_id (keys (GameStateManager.characters (gsm w)))) ->
  exists w',
    CombatModule.roll_initiative ids w = (Ret tt, w') /\
    keys (GameStateManager.characters (gsm w')) =
      keys (GameStateManager.characters (gsm w)) /\
    (forall char_id, ~ In char_id ids ->
       GameStateManager.get_character_by_id char_id (gsm w') =
       GameStateManager.get_character_by_id char_id (gsm w)) /\
    (NoDup ids -> forall i char_id, ids !! i = Some char_id ->
       CombatModule.initiative_of (gsm w') char_id = initiative_roll (random w) i) /\
    GameStateManager.combat_active (gsm w') = GameStateManager.combat_active (gsm w).
Proof.
  revert w. induction ids as [|char_id rest IH]; intros w Hin.
  - exists w. simpl. repeat split; try done.
  - cbn [CombatModule.roll_initiative]. unfold bind at 1.
    rewrite randint_const by lia.
    set (r0 := 1 + tape (random w) (cursor (random w)) `mod` (20 - 1 + 1)).
    destruct (In_keys_get char_id (GameStateManager.characters (gsm w)))
      as [c Hc]; [apply Hin; by left|].
    run. unfold GameStateManager.get_character_by_id at 1.
    cbn [GameStateManager.update_character GameStateManager.characters
           GameStateManager.with_characters].
    rewrite dict_get_alter_eq, Hc. cbn [fmap option_fmap option_map].
    match goal with
    | |- context [CombatModule.roll_initiative rest ?w3] =>
        destruct (IH w3) as (w' & Hrun & Hkeys & Hother & Hinit & Hact)
    end.
    { intros k Hk. store. rewrite keys_dict_alter. apply Hin. by right. }
    exists w'. rewrite Hrun. split; [done|].
    split; [by rewrite Hkeys; store; rewrite keys_dict_alter|].
    split; [|split; [|by rewrite Hact]].
    + intros k Hk. rewrite Hother by (intros ?; apply Hk; by right).
      unfold GameStateManager.get_character_by_id. store.
      apply dict_get_alter_ne. intros ->. apply Hk. by left.
    + intros Hnd i k Hi. apply NoDup_cons in Hnd as [Hnotin Hnd].
      destruct i as [|i]; simpl in Hi.
      * injection Hi as <-. unfold CombatModule.initiative_of.
        rewrite Hother by (by rewrite <- list_elem_of_In).
        unfold GameStateManager.get_character_by_id. store.
        rewrite dict_get_alter_eq, Hc. cbn. unfold initiative_roll.
        by rewrite Nat.add_0_r.
      * rewrite (Hinit Hnd i k Hi). unfold initiative_roll. store.
        by rewrite Nat.add_succ_r.
Qed.

(** One call of [advance_turn]. *)
Lemma advance_turn_step w :
  CombatModule.advance_turn w =
    (Ret tt,
     with_gsm
       (if (length (GameStateManager.turn_order (gsm w)) <=?
            S (GameStateManager.current_turn_index (gsm w)))%nat
        then GameStateManager.add_to_log CombatModule.new_round_marker
               (GameStateManager.with_current_turn_index 0%nat (gsm w))
        else GameStateManager.with_current_turn_index
               (S (GameStateManager.current_turn_index (gsm w))) (gsm w))
       w).
Proof.
  unfold CombatModule.advance_turn. run. cbn.
  by destruct (_ <=? _)%nat.
Qed.

Lemma advance_turns_S k w :
  advance_turns (S k) w = snd (CombatModule.advance_turn (advance_turns k w)).
Proof. reflexivity. Qed.

(** Advancing inside a round only moves the index. *)
Lemma advance_turns_inside k w :
  (GameStateManager.current_turn_index (gsm w) + k <
   length (GameStateManager.turn_order (gsm w)))%nat ->
  gsm (advance_turns k w) =
    GameStateManager.with_current_turn_index
      (GameStateManager.current_turn_index (gsm w) + k)%nat (gsm w).
Proof.
  induction k as [|k IH]; intros Hlt.
  - simpl. rewrite Nat.add_0_r. by destruct (gsm w).
  - rewrite advance_turns_S, advance_turn_step.
    cbn [snd gsm with_gsm]. rewrite IH by lia. store.
    destruct (Nat.leb_spec (length (GameStateManager.turn_order (gsm w)))
                (S (GameStateManager.current_turn_index (gsm w) + k))); [lia|].
    unfold GameStateManager.with_current_turn_index. store.
    by rewrite Nat.add_succ_r.
Qed.

(** A full round from index 0 ends at index 0 with one marker logged. *)
Lemma advance_turns_round w :
  GameStateManager.current_turn_index (gsm w) = 0%nat ->
  GameStateManager.turn_order (gsm w) <> [] ->
  gsm (advance_turns (length (GameStateManager.turn_order (gsm w))) w) =
    GameStateManager.add_to_log CombatModule.new_round_marker (gsm w).
Proof.
  intros Hidx Hne.
  destruct (length (GameStateManager.turn_order (gsm w))) as [|n] eqn:Hlen.
  { by destruct (GameStateManager.turn_order (gsm w)). }
  rewrite advance_turns_S, advance_turn_step. cbn [snd gsm with_gsm].
  rewrite (advance_turns_inside n w) by lia. store. rewrite Hidx, Hlen.
  cbn [Nat.add]. rewrite Nat.leb_refl.
  unfold GameStateManager.add_to_log, GameStateManager.with_current_turn_index,
    GameStateManager.with_game_log. store. by rewrite <- Hidx.
Qed.

Lemma initiative_roll_range r i : 1 <= initiative_roll r i <= 20.
Proof.
  unfold initiative_roll.
  pose proof (Z.mod_pos_bound (tape r (cursor r + i)%nat) 20). lia.
Qed.

(** The world [_start_combat] leaves, in terms of the world [w1] its
    initiative loop leaves. *)
Lemma start_combat_unfold w :
  exists w1,
    CombatModule.roll_initiative
      (keys (GameStateManager.characters (gsm w)))
      (with_gsm
         (GameStateManager.add_to_log "Combat has started! Roll for initiative!"
            (GameStateManager.with_combat_active true (gsm w))) w) = (Ret tt, w1) /\
    CombatModule._start_combat w =
      (Ret true,
       with_gsm
         (GameStateManager.add_to_log
            ("Turn order: " +:+
             String.concat " -> "
               (map (CombatModule.name_of (gsm w1))
                  (sorted_reverse (CombatModule.initiative_of (gsm w1))
                     (keys (GameStateManager.characters (gsm w1))))))
            (GameStateManager.with_current_turn_index 0%nat
               (GameStateManager.with_turn_order
                  (sorted_reverse (CombatModule.initiative_of (gsm w1))
                     (keys (GameStateManager.characters (gsm w1))))
                  (gsm w1))))
         w1).
Proof.
  destruct (roll_initiative_spec
              (keys (GameStateManager.characters (gsm w)))
              (with_gsm
                 (GameStateManager.add_to_log "Combat has started! Roll for initiative!"
                    (GameStateManager.with_combat_active true (gsm w))) w))
    as (w1 & Hrun & _); [done|].
  exists w1. split; [exact Hrun|].
  unfold CombatModule._start_combat. run.
  match goal with
  | |- context [CombatModule.roll_initiative ?i ?w0] =>
      replace (CombatModule.roll_initiative i w0)
        with (@pair (Outcome unit) World (Ret tt) w1)
        by (rewrite <- Hrun; reflexivity)
  end.
  reflexivity.
Qed.

(** C3 (amended).  [_start_combat] returns true and leaves a turn order
    that is a permutation of the ids of the characters in the store,
    sorted by the initiative just rolled (the i-th character gets the
    i-th d20 draw), highest first, ids of equal initiative in insertion
    order, with the turn index at 0.  From that state, provided the
    store holds at least one character, [len(turn_order)] calls of
    [advance_turn] bring the index back to 0 and append exactly one
    new-round marker to the log. *)
Theorem start_combat_turn_order w :
  let w' := snd (CombatModule._start_combat w) in
  let ids := keys (GameStateManager.characters (gsm w)) in
  fst (CombatModule._start_combat w) = Ret true /\
  GameStateManager.combat_active (gsm w') = true /\
  keys (GameStateManager.characters (gsm w')) = ids /\
  Permutation (GameStateManager.turn_order (gsm w')) ids /\
  StronglySorted
    (fun a b => CombatModule.initiative_of (gsm w') b <=
                CombatModule.initiative_of (gsm w') a)
    (GameStateManager.turn_order (gsm w')) /\
  (forall v,
     filter (fun char_id => CombatModule.initiative_of (gsm w') char_id = v)
       (GameStateManager.turn_order (gsm w')) =
     filter (fun char_id => CombatModule.initiative_of (gsm w') char_id = v) ids) /\
  (NoDup ids -> forall i char_id, ids !! i = Some char_id ->
     CombatModule.initiative_of (gsm w') char_id = initiative_roll (random w) i /\
     1 <= CombatModule.initiative_of (gsm w') char_id <= 20) /\
  GameStateManager.current_turn_index (gsm w') = 0%nat /\
  (GameStateManager.characters (gsm w) <> [] ->
   let w'' := advance_turns (length (GameStateManager.turn_order (gsm w'))) w' in
   GameStateManager.current_turn_index (gsm w'') = 0%nat /\
   GameStateManager.game_log (gsm w'') =
     GameStateManager.game_log (gsm w') ++ [CombatModule.new_round_marker]).
Proof.
  intros w' ids. subst w'.
  destruct (start_combat_unfold w) as (w1 & Hroll & ->).
  destruct (roll_initiative_spec ids
              (with_gsm
                 (GameStateManager.add_to_log "Combat has started! Roll for initiative!"
                    (GameStateManager.with_combat_active true (gsm w))) w))
    as (w1' & Hroll' & Hkeys & _ & Hinit & Hact); [done|].
  fold ids in Hroll. rewrite Hroll in Hroll'. injection Hroll' as <-.
  cbn [fst snd]. store.
  assert (Hk : keys (GameStateManager.characters (gsm w1)) = ids) by exact Hkeys.
  split; [done|]. split; [exact Hact|]. split; [exact Hk|].
  rewrite Hk.
  split; [apply sorted_reverse_perm|].
  split; [apply sorted_reverse_sorted|].
  split; [intros v; apply (sorted_reverse_stable (CombatModule.initiative_of (gsm w1)))|].
  split.
  { intros Hnd i char_id Hi.
    pose proof (Hinit Hnd i char_id Hi) as Hr. store.
    change (CombatModule.initiative_of _ char_id)
      with (CombatModule.initiative_of (gsm w1) char_id).
    rewrite Hr. split; [done|]. apply initiative_roll_range. }
  split; [done|].
  intros Hne.
  match goal with
  | |- context [advance_turns _ ?w2] =>
      pose proof (advance_turns_round w2) as Hround
  end.
  store. specialize (Hround eq_refl).
  assert (Hne' : sorted_reverse (CombatModule.initiative_of (gsm w1)) ids <> []).
  { intros Hnil. apply (f_equal length) in Hnil.
    rewrite sorted_reverse_length in Hnil.
    unfold ids, keys in Hnil. rewrite length_map in Hnil.
    destruct (GameStateManager.characters (gsm w)); [done|discriminate]. }
  rewrite (Hround Hne'). done.
Qed.

(** C3 (as stated) fails in a store without characters: the turn order
    is empty, [advance_turn] is called zero times and no marker is
    logged. *)
Lemma empty_roster_logs_no_marker :
  ~ round_trip_logs_one_marker (world_of GameStateManager.init (constant_tape 0)).
Proof. intros [_ H]. vm_compute in H. discriminate H. Qed.

(** C3: the ambush, with the hero and the second goblin tied. *)
Lemma start_combat_turn_order_witness :
  GameStateManager.characters ambush <> [] /\
  GameStateManager.turn_order
    (gsm (snd (CombatModule._start_combat (world_of ambush tied_dice)))) =
    ["goblin_1"; "player"; "goblin_2"] /\
  GameStateManager.game_log
    (gsm (advance_turns 3 (snd (CombatModule._start_combat (world_of ambush tied_dice))))) =
    GameStateManager.game_log
      (gsm (snd (CombatModule._start_combat (world_of ambush tied_dice)))) ++
    [CombatModule.new_round_marker].
Proof.
  split; [discriminate|]. split; [reflexivity|].
  destruct (start_combat_turn_order (world_of ambush tied_dice))
    as (_ & _ & _ & _ & _ & _ & _ & _ & Hround).
  exact (proj2 (Hround ltac:(discriminate))).
Defined.

Example ambush_log :
  GameStateManager.game_log
    (gsm (snd (CombatModule._start_combat (world_of ambush tied_dice)))) =
    ["Combat has started! Roll for initiative!";
     "Hero rolls 12 for initiative"; "Goblin 1 rolls 17 for initiative";
     "Goblin 2 rolls 12 for initiative";
     "Turn order: Goblin 1 -> Hero -> Goblin 2"].
Proof. by vm_compute. Qed.

(** ** Spells *)

Lemma roll_1d8 w :
  _roll_dice "1d8" w =
    (Ret (1 + tape (random w) (cursor (random w)) `mod` 8),
     with_random {| tape := tape (random w); cursor := S (cursor (random w)) |} w).
Proof.
  unfold _roll_dice. cbn [match_dice number digits_from digit_of].
  change (match_dice "1d8") with (Some (1, 8, @None Z)). cbn [Z.to_nat roll_sum].
  change (Z.to_nat 1) with 1%nat. cbn [roll_sum Pos.to_nat Pos.iter_op].
  run. rewrite randint_const by lia. cbn [default].
  change (8 - 1 + 1) with 8. f_equal. f_equal. lia.
Qed.

Lemma existsb_eqb_In (n : string) (l : list string) :
  In n l -> existsb (String.eqb n) l = true.
Proof.
  intros H. apply existsb_exists. exists n. split; [done|apply String.eqb_refl].
Qed.

(** C8 (amended).  A caster who knows cure wounds, has exactly one
    unused level-1 slot ([total = used + 1]; one slot and none used in
    the scenario) and stands at HP 5 of 20 casts it on itself while the
    healing die shows 6: the cast returns true, the caster is at HP 14
    of 20 (the die plus the fixed modifier 3) and the level-1 used
    counter has gone up by one (to 1 in the scenario).  A second cast in
    the same turn returns false and leaves every character, with its HP
    and slot counters, and the generator as they were. *)
Theorem cure_wounds_scenario w caster c known total used target_id :
  GameStateManager.get_character_by_id caster (gsm w) = Some c ->
  Character.spells_known c = Some known ->
  In "cure_wounds" known ->
  Character.spell_slots c !! 1 = Some total ->
  Character.spell_slots_used c !! 1 = Some used ->
  total = used + 1 ->
  Character.hp c = 5 ->
  Character.max_hp c = 20 ->
  1 + tape (random w) (cursor (random w)) `mod` 8 = 6 ->
  target_id = None \/ target_id = Some caster ->
  let first := SpellsModule._cast_spell caster (Some "cure_wounds") target_id w in
  let second :=
    SpellsModule._cast_spell caster (Some "cure_wounds") target_id (snd first) in
  fst first = Ret true /\
  (exists c1,
     GameStateManager.get_character_by_id caster (gsm (snd first)) = Some c1 /\
     Character.hp c1 = 14 /\ Character.max_hp c1 = 20 /\
     Character.spell_slots_used c1 !! 1 = Some (used + 1) /\
     Character.spell_slots c1 = Character.spell_slots c) /\
  fst second = Ret false /\
  GameStateManager.characters (gsm (snd second)) =
    GameStateManager.characters (gsm (snd first)) /\
  random (snd second) = random (snd first).
Proof.
  intros Hget Hknown Hin Hslots Hused Htotal Hhp Hmax Hdie Hself first second.
  assert (Htarget : forall w0 : World,
            GameStateManager.get_character_by_id caster (gsm w0) <> None ->
            (if truthy target_id
             then
               bind (ask (GameStateManager.get_character_by_id (str_opt target_id)))
                 (fun found => ret (option_map (fun _ => str_opt target_id) found))
             else ret (Some caster)) w0 = (Ret (Some caster), w0)).
  { intros w0 Hw0. destruct Hself as [->| ->]; [done|].
    cbn [truthy str_opt]. destruct (String.eqb caster ""); [done|].
    run. cbn [negb].
    by destruct (GameStateManager.get_character_by_id caster (gsm w0)). }
  assert (Hfirst : exists w1 c1,
            first = (Ret true, w1) /\
            GameStateManager.get_character_by_id caster (gsm w1) = Some c1 /\
            Character.hp c1 = 14 /\ Character.max_hp c1 = 20 /\
            Character.spell_slots_used c1 !! 1 = Some (used + 1) /\
            Character.spell_slots c1 = Character.spell_slots c /\
            Character.spells_known c1 = Some known).
  { subst first second. unfold SpellsModule._cast_spell.
    unfold bind at 1, deref at 1. rewrite Hget, Hknown.
    rewrite (existsb_eqb_In _ _ Hin). cbn [negb str_opt].
    change (dict_get "cure_wounds" SpellsModule.spell_database)
      with (Some (Spell.mk "Cure Wounds" 1 "evocation" "touch")).
    cbn [Spell.level]. rewrite Hused, Hslots.
    destruct (Z.geb_spec used total) as [?|_]; [lia|].
    unfold bind at 1. unfold mutate at 1, tell at 1.
    unfold bind at 1. rewrite Htarget.
    2:{ unfold GameStateManager.get_character_by_id. store.
        rewrite dict_get_alter_eq.
        unfold GameStateManager.get_character_by_id in Hget. by rewrite Hget. }
    unfold SpellsModule._execute_spell_effect.
    change (replace_space (lower (Spell.name (Spell.mk "Cure Wounds" 1 "evocation" "touch"))))
      with "cure_wounds".
    cbn [String.eqb Ascii.eqb Bool.eqb].
    unfold bind at 1 2. rewrite roll_1d8. store. rewrite Hdie.
    run. store. unfold GameStateManager.get_character_by_id in *. store.
    rewrite !dict_get_alter_eq, Hget. cbn [fmap option_fmap option_map].
    eexists. eexists. split; [reflexivity|]. store.
    rewrite !dict_get_alter_eq, Hget. cbn [fmap option_fmap option_map].
    split; [reflexivity|].
    cbn [Character.hp Character.max_hp Character.with_spell_slots_used
           Character.with_hp Character.spell_slots_used Character.spell_slots
           Character.spells_known].
    rewrite Hhp, Hmax. repeat split; try done.
    apply lookup_insert_eq. }
  destruct Hfirst as (w1 & c1 & Hfirst & Hget1 & Hhp1 & Hmax1 & Hused1 & Hslots1 & Hknown1).
  assert (Hsecond :
            SpellsModule._cast_spell caster (Some "cure_wounds") target_id w1 =
              (Ret false,
               with_gsm
                 (GameStateManager.add_to_log
                    (Character.name c1 +:+ " has no 1-level spell slots left")
                    (gsm w1)) w1)).
  { unfold SpellsModule._cast_spell.
    unfold bind at 1, deref at 1. rewrite Hget1, Hknown1.
    rewrite (existsb_eqb_In _ _ Hin). cbn [negb str_opt].
    change (dict_get "cure_wounds" SpellsModule.spell_database)
      with (Some (Spell.mk "Cure Wounds" 1 "evocation" "touch")).
    cbn [Spell.level]. rewrite Hused1, Hslots1, Hslots.
    destruct (Z.geb_spec (used + 1) total) as [_|?]; [|lia].
    by run. }
  subst second. rewrite Hfirst. cbn [fst snd]. rewrite Hsecond. cbn [fst snd].
  split; [done|].
  split; [exists c1; by repeat split|].
  by store.
Qed.

(** C8 (as stated) fails: with the die at 6 the cleric is healed by 9,
    and stands at HP 14, not 11. *)
Lemma cure_wounds_heals_nine :
  ~ cure_wounds_heals_to_11 (world_of chapel (constant_tape 5)) "player".
Proof.
  intros H.
  destruct (H wounded_cleric eq_refl eq_refl eq_refl eq_refl) as (c' & Hc' & Hhp).
  vm_compute in Hc'. injection Hc' as <-. vm_compute in Hhp. discriminate Hhp.
Qed.

(** C8: the wounded cleric with the die at 6. *)
Lemma cure_wounds_scenario_witness :
  GameStateManager.get_character_by_id "player" chapel = Some wounded_cleric /\
  1 + tape (constant_tape 5) (cursor (constant_tape 5)) `mod` 8 = 6 /\
  fst (SpellsModule._cast_spell "player" (Some "cure_wounds") None
         (world_of chapel (constant_tape 5))) = Ret true.
Proof.
  split; [reflexivity|]. split; [reflexivity|].
  exact (proj1 (cure_wounds_scenario (world_of chapel (constant_tape 5)) "player"
                  wounded_cleric ["cure_wounds"; "magic_missile"] 1 0 None
                  eq_refl eq_refl (or_introl eq_refl) eq_refl eq_refl eq_refl
                  eq_refl eq_refl eq_refl (or_introl eq_refl))).
Defined.

(** ** The HP bounds *)

Lemma hp_inv_characters g g' :
  GameStateManager.characters g' = GameStateManager.characters g ->
  hp_inv g -> hp_inv g'.
Proof. unfold hp_inv. by intros ->. Qed.

Lemma hp_inv_update char_id f g :
  (forall c, hp_ok c -> hp_ok (f c)) ->
  hp_inv g -> hp_inv (GameStateManager.update_character char_id f g).
Proof.
  intros Hf Hg. unfold hp_inv in *. store.
  apply Forall_dict_alter; [|done]. intros v Hv. by apply Hf.
Qed.

Section KeepsRules.
Context {A B : Type}.
Implicit Types (m : M A) (k : A -> M B).

Lemma keeps_ret (a : A) : keeps (ret a).
Proof. by intros w Hw. Qed.

Lemma keeps_raise e : keeps (@raise A e).
Proof. by intros w Hw. Qed.

Lemma keeps_ask (f : GameStateManager.t -> A) : keeps (ask f).
Proof. by intros w Hw. Qed.

Lemma keeps_bind m k : keeps m -> (forall a, keeps (k a)) -> keeps (bind m k).
Proof.
  intros Hm Hk w Hw. unfold bind. specialize (Hm w Hw).
  destruct (m w) as [[a|e] w1]; [|done]. by apply Hk.
Qed.

(** Sequencing behind code whose result is known to satisfy [Q]. *)
Lemma keeps_bind_post (Q : A -> Prop) m k :
  keeps m ->
  (forall w a w', m w = (Ret a, w') -> Q a) ->
  (forall a, Q a -> keeps (k a)) ->
  keeps (bind m k).
Proof.
  intros Hm HQ Hk w Hw. unfold bind. specialize (Hm w Hw).
  destruct (m w) as [[a|e] w1] eqn:Hrun; [|done].
  apply Hk; [|done]. by eapply HQ.
Qed.

Lemma keeps_call (f : GameStateManager.t -> A * GameStateManager.t) :
  (forall g, hp_inv g -> hp_inv (snd (f g))) -> keeps (call f).
Proof.
  intros Hf w Hw. unfold call. specialize (Hf (gsm w) Hw).
  by destruct (f (gsm w)).
Qed.
End KeepsRules.

Lemma keeps_tell f :
  (forall g, hp_inv g -> hp_inv (f g)) -> keeps (tell f).
Proof. intros Hf w Hw. by apply Hf. Qed.

Lemma keeps_log message : keeps (log message).
Proof. apply keeps_tell. intros g. by apply hp_inv_characters. Qed.

Lemma keeps_deref char_id : keeps (deref char_id).
Proof.
  intros w Hw. unfold deref.
  by destruct (GameStateManager.get_character_by_id char_id (gsm w)).
Qed.

Lemma keeps_mutate char_id f :
  (forall c, hp_ok c -> hp_ok (f c)) -> keeps (mutate char_id f).
Proof. intros Hf. apply keeps_tell. intros g. by apply hp_inv_update. Qed.

Lemma keeps_randint lo hi : keeps (randint lo hi).
Proof. intros w Hw. unfold randint. by destruct (hi <? lo). Qed.

Lemma keeps_bind_randint {B} lo hi (k : Z -> M B) :
  (forall r, lo <= r <= hi -> keeps (k r)) -> keeps (bind (randint lo hi) k).
Proof.
  intros Hk. apply (keeps_bind_post (fun r => lo <= r <= hi));
    [apply keeps_randint| |done].
  intros w a w' H. by eapply randint_range.
Qed.

(** Dice never come up negative. *)
Lemma digit_of_range c d : digit_of c = Some d -> 0 <= d.
Proof.
  unfold digit_of. destruct (_ && _)%bool; [|done]. intros H. injection H as <-. lia.
Qed.

Lemma digits_from_nonneg acc s : 0 <= acc -> 0 <= fst (digits_from acc s).
Proof.
  revert acc. induction s as [|c s IH]; intros acc Hacc; simpl; [done|].
  destruct (digit_of c) as [d|] eqn:Hd; [|done].
  apply IH. apply digit_of_range in Hd. lia.
Qed.

Lemma number_nonneg s n rest : number s = Some (n, rest) -> 0 <= n.
Proof.
  destruct s as [|c s]; simpl; [done|].
  destruct (digit_of c) as [d|] eqn:Hd; [|done].
  intros H. apply digit_of_range in Hd.
  pose proof (digits_from_nonneg d s Hd) as Hn.
  destruct (digits_from d s). injection H as <- _. exact Hn.
Qed.

Lemma match_dice_modifier s n d modifier :
  match_dice s = Some (n, d, Some modifier) -> 0 <= modifier.
Proof.
  unfold match_dice.
  destruct (number s) as [[n0 [|c rest]]|]; [done| |done].
  destruct c as [[] [] [] [] [] [] [] []]; try done.
  destruct (number rest) as [[d0 [|c' rest']]|]; [done| |done].
  destruct c' as [[] [] [] [] [] [] [] []]; try done.
  destruct (number rest') as [[m0 rest'']|] eqn:Hm; [|done].
  intros H. injection H as _ _ <-. by eapply number_nonneg.
Qed.

Lemma randint_gsm lo hi w : gsm (snd (randint lo hi w)) = gsm w.
Proof. unfold randint. by destruct (hi <? lo). Qed.

Lemma roll_sum_spec n d w :
  gsm (snd (roll_sum n d w)) = gsm w /\
  forall v, fst (roll_sum n d w) = Ret v -> 0 <= v.
Proof.
  revert w. induction n as [|n IH]; intros w; cbn [roll_sum].
  { split; [done|]. intros v H. by injection H as <-. }
  unfold bind.
  pose proof (randint_gsm 1 d w) as Hg1.
  destruct (randint 1 d w) as [[r|e] w1] eqn:Hr; [|by split].
  apply randint_range in Hr. destruct (IH w1) as [Hg Hv]. cbn [snd] in Hg1.
  destruct (roll_sum n d w1) as [[v|e] w2]; unfold ret; cbn [fst snd] in *.
  - split; [congruence|]. intros v' H. injection H as <-.
    specialize (Hv v eq_refl). lia.
  - split; [congruence|done].
Qed.

Lemma roll_dice_spec s w :
  gsm (snd (_roll_dice s w)) = gsm w /\
  forall v, fst (_roll_dice s w) = Ret v -> 0 <= v.
Proof.
  unfold _roll_dice. destruct (match_dice s) as [[[n d] modifier]|] eqn:Hs.
  2:{ split; [done|]. intros v H. by injection H as <-. }
  destruct (roll_sum_spec (Z.to_nat n) d w) as [Hg Hv].
  unfold bind, ret.
  destruct (roll_sum (Z.to_nat n) d w) as [[v|e] w1]; cbn [fst snd] in *;
    [|by split].
  split; [done|]. intros v' H. injection H as <-.
  specialize (Hv v eq_refl).
  destruct modifier as [m|]; cbn; [|lia].
  apply match_dice_modifier in Hs. lia.
Qed.

Lemma keeps_roll_dice s : keeps (_roll_dice s).
Proof. intros w Hw. by rewrite (proj1 (roll_dice_spec s w)). Qed.

Lemma keeps_bind_roll {B} s (k : Z -> M B) :
  (forall v, 0 <= v -> keeps (k v)) -> keeps (bind (_roll_dice s) k).
Proof.
  intros Hk. apply (keeps_bind_post (fun v => 0 <= v)); [apply keeps_roll_dice| |done].
  intros w a w' H. apply (proj2 (roll_dice_spec s w)). by rewrite H.
Qed.

Lemma missiles_spec n w :
  gsm (snd (SpellsModule.missiles n w)) = gsm w /\
  forall v, fst (SpellsModule.missiles n w) = Ret v -> 0 <= v.
Proof.
  revert w. induction n as [|n IH]; intros w; cbn [SpellsModule.missiles].
  { split; [done|]. intros v H. by injection H as <-. }
  unfold bind, ret.
  destruct (roll_dice_spec "1d4" w) as [Hg1 Hv1].
  destruct (_roll_dice "1d4" w) as [[r|e] w1]; cbn [fst snd] in *; [|by split].
  destruct (IH w1) as [Hg Hv].
  destruct (SpellsModule.missiles n w1) as [[v|e] w2]; cbn [fst snd] in *.
  - split; [congruence|]. intros v' H. injection H as <-.
    specialize (Hv v eq_refl). specialize (Hv1 r eq_refl). lia.
  - split; [congruence|done].
Qed.

Lemma keeps_bind_missiles {B} n (k : Z -> M B) :
  (forall v, 0 <= v -> keeps (k v)) -> keeps (bind (SpellsModule.missiles n) k).
Proof.
  intros Hk. apply (keeps_bind_post (fun v => 0 <= v)); [| |done].
  - intros w Hw. by rewrite (proj1 (missiles_spec n w)).
  - intros w a w' H. apply (proj2 (missiles_spec n w)). by rewrite H.
Qed.

(** Closing the side conditions of [keeps_mutate]: assignments that
    leave [hp] and [max_hp] alone, and clamped assignments to [hp]. *)
Ltac hp_side :=
  let c := fresh "c" in
  let Hc := fresh "Hc" in
  intros c Hc;
  first [ exact Hc
        | unfold hp_ok in *;
          cbn [Character.hp Character.max_hp Character.with_hp];
          lia ].

(** One step through code in the monad. *)
Ltac keeps_step :=
  lazymatch goal with
  | |- keeps (bind (randint _ _) _) => apply keeps_bind_randint; intros
  | |- keeps (bind (_roll_dice _) _) => apply keeps_bind_roll; intros
  | |- keeps (bind (SpellsModule.missiles _) _) => apply keeps_bind_missiles; intros
  | |- keeps (bind _ _) => apply keeps_bind; [|intros]
  | |- keeps (ret _) => apply keeps_ret
  | |- keeps (raise _) => apply keeps_raise
  | |- keeps (attribute_error _) => apply keeps_raise
  | |- keeps (SpellsModule.key_error _) => apply keeps_raise
  | |- keeps (ask _) => apply keeps_ask
  | |- keeps (deref _) => apply keeps_deref
  | |- keeps (log _) => apply keeps_log
  | |- keeps (randint _ _) => apply keeps_randint
  | |- keeps (_roll_dice _) => apply keeps_roll_dice
  | |- keeps (mutate _ _) => apply keeps_mutate; hp_side
  | |- keeps (if ?b then _ else _) => destruct b
  | |- keeps (match ?x with _ => _ end) => destruct x
  end.

Ltac keeps_auto := cbv zeta; repeat keeps_step.

Lemma apply_damage_keeps char_id damage g :
  0 <= damage -> hp_inv g ->
  hp_inv (snd (GameStateManager.apply_damage char_id damage g)).
Proof.
  intros Hd Hg. unfold GameStateManager.apply_damage.
  destruct (GameStateManager.get_character_by_id char_id g) as [c|]; [|done].
  cbn [snd].
  assert (hp_inv (GameStateManager.update_character char_id
                    (fun c0 => Character.with_hp (0 `max` (Character.hp c0 - damage)) c0) g))
    by (apply hp_inv_update; [hp_side|done]).
  destruct (_ <=? 0); by repeat (eapply hp_inv_characters; [reflexivity|]).
Qed.

Lemma combat_apply_damage_keeps char_id damage :
  0 <= damage -> keeps (CombatModule._apply_damage char_id damage).
Proof.
  intros Hd w Hw. rewrite combat_apply_damage_eq. cbn. by apply apply_damage_keeps.
Qed.

Lemma execute_attack_keeps attacker_id target_id :
  keeps (CombatModule._execute_attack attacker_id target_id) /\
  keeps (GameEngine.execute_attack attacker_id target_id).
Proof.
  split.
  - unfold CombatModule._execute_attack. keeps_auto.
    apply combat_apply_damage_keeps. lia.
  - unfold GameEngine.execute_attack. keeps_auto.
    apply keeps_call. intros g. apply apply_damage_keeps. lia.
Qed.

Lemma movement_keeps action_data : keeps (MovementModule.process_action action_data).
Proof.
  unfold MovementModule.process_action, MovementModule._handle_movement,
    MovementModule._handle_dash, MovementModule._is_valid_move,
    MovementModule._is_position_blocked, MovementModule.get_used,
    MovementModule.set_used.
  keeps_auto; by intros w Hw.
Qed.

Lemma roll_initiative_keeps ids : keeps (CombatModule.roll_initiative ids).
Proof.
  induction ids as [|char_id rest IH]; cbn [CombatModule.roll_initiative];
    keeps_auto; exact IH.
Qed.

Lemma start_combat_keeps : keeps CombatModule._start_combat.
Proof.
  unfold CombatModule._start_combat. keeps_auto;
    try (apply keeps_tell; intros g; by apply hp_inv_characters).
  apply roll_initiative_keeps.
Qed.

Lemma combat_keeps action_data : keeps (CombatModule.process_action action_data).
Proof.
  unfold CombatModule.process_action, CombatModule._handle_attack. keeps_auto.
  - apply execute_attack_keeps.
  - apply start_combat_keeps.
Qed.

Lemma apply_item_bonuses_hp item equip c :
  hp_ok c -> hp_ok (InventoryModule._apply_item_bonuses item equip c).
Proof.
  intros Hc. unfold InventoryModule._apply_item_bonuses.
  destruct (Item.attack_bonus item), (Item.ac_bonus item);
    repeat match goal with |- context [if ?b then _ else _] => destruct b end;
    exact Hc.
Qed.

Lemma find_item_keeps c item_name :
  keeps (InventoryModule._find_item_in_inventory c item_name).
Proof.
  unfold InventoryModule._find_item_in_inventory.
  destruct (Character.inventory c) as [[|i inv]|]; keeps_auto.
Qed.

Lemma the_equipped_keeps c : keeps (InventoryModule.the_equipped c).
Proof. unfold InventoryModule.the_equipped. keeps_auto. Qed.

Lemma unequip_keeps character_id item_name :
  keeps (InventoryModule._unequip_item character_id item_name).
Proof.
  unfold InventoryModule._unequip_item. keeps_auto.
  - apply the_equipped_keeps.
  - apply keeps_mutate. intros c Hc. by apply apply_item_bonuses_hp.
Qed.

Lemma equip_keeps character_id item_name :
  keeps (InventoryModule._equip_item character_id item_name).
Proof.
  unfold InventoryModule._equip_item. keeps_auto;
    try apply find_item_keeps; try apply the_equipped_keeps;
    try apply unequip_keeps;
    try (apply keeps_mutate; intros c Hc; by apply apply_item_bonuses_hp).
Qed.

Lemma use_item_keeps character_id item_name :
  keeps (InventoryModule._use_item character_id item_name).
Proof.
  unfold InventoryModule._use_item. keeps_auto; apply find_item_keeps.
Qed.

Lemma drop_item_keeps character_id item_name :
  keeps (InventoryModule._drop_item character_id item_name).
Proof.
  unfold InventoryModule._drop_item. keeps_auto; apply find_item_keeps.
Qed.

Lemma inventory_keeps action_data : keeps (InventoryModule.process_action action_data).
Proof.
  unfold InventoryModule.process_action. keeps_auto.
  - apply equip_keeps.
  - apply unequip_keeps.
  - apply use_item_keeps.
  - apply drop_item_keeps.
Qed.

Lemma burn_keeps damage ids : 0 <= damage -> keeps (SpellsModule.burn damage ids).
Proof.
  intros Hd. induction ids as [|char_id rest IH]; cbn [SpellsModule.burn];
    keeps_auto; exact IH.
Qed.

Lemma execute_spell_effect_keeps spell caster target :
  keeps (SpellsModule._execute_spell_effect spell caster target).
Proof.
  unfold SpellsModule._execute_spell_effect. keeps_auto.
  by apply burn_keeps.
Qed.

Lemma cast_spell_keeps caster spell_name target_id :
  keeps (SpellsModule._cast_spell caster spell_name target_id).
Proof.
  unfold SpellsModule._cast_spell. keeps_auto.
  apply execute_spell_effect_keeps.
Qed.

Lemma spells_keeps action_data : keeps (SpellsModule.process_action action_data).
Proof.
  unfold SpellsModule.process_action. keeps_auto. apply cast_spell_keeps.
Qed.

(** The router keeps whatever all its modules keep. *)
Lemma scan_invariant {St} (I : St -> Prop) (ms : list (GameModule St)) i a st :
  Forall (fun m => forall a st, I st ->
            I (snd (can_handle m a st)) /\ I (snd (process_action m a st))) ms ->
  I st -> I (world (scan ms i a st)).
Proof.
  intros Hms. revert i st. induction Hms as [|m ms Hm _ IH]; intros i st Hst; simpl; [done|].
  pose proof (proj1 (Hm a st Hst)) as Hc.
  destruct (can_handle m a st) as [[[]|e] st1]; simpl in *; [|by apply IH|done].
  pose proof (proj2 (Hm a st1 Hc)) as Hp.
  destruct (process_action m a st1) as [[[]|e] st2]; simpl in *;
    [done|by apply IH|by apply IH].
Qed.

Lemma dispatch_keeps action_data w :
  hp_inv (gsm w) ->
  hp_inv (gsm (final (ModuleManager_process_action rule_modules action_data w))).
Proof.
  intros Hw.
  rewrite (proj2 (dispatch_of_scan rule_modules 0 action_data w)).
  apply (scan_invariant (fun w => hp_inv (gsm w))); [|done].
  repeat constructor; cbn; try done.
  - by apply movement_keeps.
  - by apply combat_keeps.
  - by apply inventory_keeps.
  - by apply spells_keeps.
Qed.

(** C6 (amended).  The bounds 0 <= HP <= maximum HP of every character
    are kept by damage application with a non-negative amount, by
    attacks, by every spell effect and cast, by item use, and by every
    action dispatched through the router over the four rule modules. *)
Theorem hp_bounds_preserved w :
  hp_inv (gsm w) ->
  (forall char_id damage, 0 <= damage ->
     hp_inv (snd (GameStateManager.apply_damage char_id damage (gsm w))) /\
     hp_inv (gsm (snd (CombatModule._apply_damage char_id damage w)))) /\
  (forall attacker_id target_id,
     hp_inv (gsm (snd (CombatModule._execute_attack attacker_id target_id w))) /\
     hp_inv (gsm (snd (GameEngine.execute_attack attacker_id target_id w)))) /\
  (forall spell caster target,
     hp_inv (gsm (snd (SpellsModule._execute_spell_effect spell caster target w)))) /\
  (forall caster spell_name target_id,
     hp_inv (gsm (snd (SpellsModule._cast_spell caster spell_name target_id w)))) /\
  (forall character_id item_name,
     hp_inv (gsm (snd (InventoryModule._use_item character_id item_name w)))) /\
  (forall action_data,
     hp_inv (gsm (final (ModuleManager_process_action rule_modules
                           action_data w)))).
Proof.
  intros Hw. repeat split; intros.
  - by apply apply_damage_keeps.
  - by apply combat_apply_damage_keeps.
  - by apply execute_attack_keeps.
  - by apply execute_attack_keeps.
  - by apply execute_spell_effect_keeps.
  - by apply cast_spell_keeps.
  - by apply use_item_keeps.
  - by apply dispatch_keeps.
Qed.

Lemma hp_inv_skirmish : hp_inv skirmish.
Proof. repeat constructor; cbn; lia. Qed.

(** C6 (as stated) fails: damage of minus five lifts the hero from
    20 of 20 to 25 of 20. *)
Lemma negative_damage_exceeds_max_hp :
  ~ damage_keeps_hp_bounds skirmish "player" (-5).
Proof.
  intros H. specialize (H hp_inv_skirmish).
  apply Forall_inv in H. unfold hp_ok in H. cbn in H. lia.
Qed.

(** C6: an attack in the skirmish. *)
Lemma hp_bounds_preserved_witness :
  hp_inv (gsm (world_of skirmish (constant_tape 14))) /\
  hp_inv (gsm (snd (GameEngine.execute_attack "player" "goblin_1"
                      (world_of skirmish (constant_tape 14))))).
Proof.
  split; [exact hp_inv_skirmish|].
  destruct (hp_bounds_preserved (world_of skirmish (constant_tape 14)) hp_inv_skirmish)
    as (_ & Hattack & _).
  exact (proj2 (Hattack "player" "goblin_1")).
Defined.

(** ** Actions with missing fields *)


Lemma type_is_Some a tag : type_is a tag = true -> Action.type a = Some tag.
Proof.
  unfold type_is. destruct (Action.type a) as [ty|]; [|done].
  by intros ->%String.eqb_eq.
Qed.








Example anonymous_step_log :
  let d := ModuleManager_process_action rule_modules anonymous_step
             (world_of skirmish (constant_tape 0)) in
  outcome d = Ret true /\
  calls d = [CalledCanHandle 0; CalledProcess 0] /\
  GameStateManager.game_log (gsm (final d)) =
    ["Hero moves from (4, 5) to (5, 5) (5 feet, 25 feet remaining)"].
Proof. by vm_compute. Qed.

(** A move without [position] is not reported failed either: in the
    chamber the hero walks to the corner (0, 0). *)
Example aimless_step_goes_to_the_corner :
  let d := ModuleManager_process_action rule_modules aimless_step
             (world_of chamber (constant_tape 0)) in
  outcome d = Ret true /\
  option_map Character.position
    (GameStateManager.get_character_by_id "player" (gsm (final d))) = Some (0, 0) /\
  GameStateManager.game_log (gsm (final d)) =
    ["Hero moves from (1, 1) to (0, 0) (10 feet, 20 feet remaining)"].
Proof. by vm_compute. Qed.

(** * Further properties of the code *)

(** ** Frames: what dispatch leaves alone *)

Section FrameRules.
Context {R : GameStateManager.t -> GameStateManager.t -> Prop}
        {ok : (Character.t -> Character.t) -> Prop}
        (F : Frame R ok).

Lemma steady_pure {A} (m : M A) :
  (forall w, gsm (snd (m w)) = gsm w) -> steady R m.
Proof. intros H w. rewrite H. apply (frame_refl _ _ F). Qed.

Lemma steady_ret {A} (a : A) : steady R (ret a).
Proof. by apply steady_pure. Qed.

Lemma steady_raise {A} e : steady R (@raise A e).
Proof. by apply steady_pure. Qed.

Lemma steady_ask {A} (f : GameStateManager.t -> A) : steady R (ask f).
Proof. by apply steady_pure. Qed.

Lemma steady_deref char_id : steady R (deref char_id).
Proof.
  apply steady_pure. intros w. unfold deref.
  by destruct (GameStateManager.get_character_by_id char_id (gsm w)).
Qed.

Lemma steady_randint lo hi : steady R (randint lo hi).
Proof. apply steady_pure. intros w. apply randint_gsm. Qed.

Lemma steady_roll_dice s : steady R (_roll_dice s).
Proof. apply steady_pure. intros w. apply roll_dice_spec. Qed.

Lemma steady_missiles n : steady R (SpellsModule.missiles n).
Proof. apply steady_pure. intros w. apply missiles_spec. Qed.

Lemma steady_get_used char_id : steady R (MovementModule.get_used char_id).
Proof. by apply steady_pure. Qed.

Lemma steady_set_used char_id v : steady R (MovementModule.set_used char_id v).
Proof. by apply steady_pure. Qed.

Lemma steady_bind {A B} (m : M A) (k : A -> M B) :
  steady R m -> (forall a, steady R (k a)) -> steady R (bind m k).
Proof.
  intros Hm Hk w. unfold bind. specialize (Hm w).
  destruct (m w) as [[a|e] w1]; [|done].
  eapply (frame_trans _ _ F); [exact Hm|]. apply Hk.
Qed.

Lemma steady_log message : steady R (log message).
Proof. intros w. apply (frame_log _ _ F). Qed.

Lemma steady_mutate char_id f : ok f -> steady R (mutate char_id f).
Proof. intros Hf w. by apply (frame_mutate _ _ F). Qed.

Lemma steady_tell f : (forall g, R g (f g)) -> steady R (tell f).
Proof. intros Hf w. apply Hf. Qed.

Lemma steady_call {A} (f : GameStateManager.t -> A * GameStateManager.t) :
  (forall g, R g (snd (f g))) -> steady R (call f).
Proof.
  intros Hf w. unfold call. specialize (Hf (gsm w)). by destruct (f (gsm w)).
Qed.
End FrameRules.

(** One step through code in the monad; [side] closes the condition on
    a mutation. *)
Ltac steady_step F side :=
  lazymatch goal with
  | |- steady _ (bind _ _) => apply (steady_bind F); [|intros]
  | |- steady _ (ret _) => apply (steady_ret F)
  | |- steady _ (raise _) => apply (steady_raise F)
  | |- steady _ (attribute_error _) => apply (steady_raise F)
  | |- steady _ (SpellsModule.key_error _) => apply (steady_raise F)
  | |- steady _ (ask _) => apply (steady_ask F)
  | |- steady _ (deref _) => apply (steady_deref F)
  | |- steady _ (log _) => apply (steady_log F)
  | |- steady _ (randint _ _) => apply (steady_randint F)
  | |- steady _ (_roll_dice _) => apply (steady_roll_dice F)
  | |- steady _ (SpellsModule.missiles _) => apply (steady_missiles F)
  | |- steady _ (MovementModule.get_used _) => apply (steady_get_used F)
  | |- steady _ (MovementModule.set_used _ _) => apply (steady_set_used F)
  | |- steady _ (mutate _ _) => apply (steady_mutate F); side
  | |- steady _ (if ?b then _ else _) => destruct b
  | |- steady _ (match ?x with _ => _ end) => destruct x
  end.

Ltac steady_auto F side := cbv zeta; repeat steady_step F side.

(** The rule modules' code, for any frame whose mutation class holds of
    the functions listed as hypotheses. *)
Section ModulesSteady.
Context {R : GameStateManager.t -> GameStateManager.t -> Prop}
        {ok : (Character.t -> Character.t) -> Prop}
        (F : Frame R ok).

Hypothesis ok_hp : forall v : Character.t -> Z,
  ok (fun c => Character.with_hp (v c) c).
Hypothesis ok_flag : forall b, ok (Character.with_dashed_this_turn b).
Hypothesis ok_inventory : forall v : Character.t -> option (list Item.t),
  ok (fun c => Character.with_inventory (v c) c).
Hypothesis ok_equip : forall item equip v,
  ok (fun c => InventoryModule._apply_item_bonuses item equip
                 (Character.with_equipped v c)).
Hypothesis ok_slots : forall v : Character.t -> gmap Z Z,
  ok (fun c => Character.with_spell_slots_used (v c) c).
Hypothesis ok_shield : forall (v : Character.t -> Z) (t : Character.t -> option Z),
  ok (fun c => Character.with_ac (v c) (Character.with_temp_ac_bonus (t c) c)).

Ltac side :=
  first [ apply ok_flag | apply ok_equip
        | apply (ok_hp (fun c => _)) | apply (ok_inventory (fun c => _))
        | apply (ok_slots (fun c => _))
        | apply (ok_shield (fun c => _) (fun c => _)) ].

Lemma dash_steady character_id : steady R (MovementModule._handle_dash character_id).
Proof. unfold MovementModule._handle_dash. steady_auto F side. Qed.

Lemma valid_move_steady c p : steady R (MovementModule._is_valid_move c p).
Proof.
  unfold MovementModule._is_valid_move, MovementModule._is_position_blocked.
  steady_auto F side.
Qed.

Lemma combat_apply_damage_steady char_id damage :
  steady R (CombatModule._apply_damage char_id damage).
Proof. unfold CombatModule._apply_damage. steady_auto F side. Qed.

Lemma store_apply_damage_steady char_id damage g :
  R g (snd (GameStateManager.apply_damage char_id damage g)).
Proof.
  pose proof (combat_apply_damage_steady char_id damage
                {| gsm := g; movement_used := ∅; random := constant_tape 0 |}) as H.
  by rewrite combat_apply_damage_eq in H.
Qed.

Lemma execute_attack_steady attacker_id target_id :
  steady R (CombatModule._execute_attack attacker_id target_id) /\
  steady R (GameEngine.execute_attack attacker_id target_id).
Proof.
  split.
  - unfold CombatModule._execute_attack. steady_auto F side.
    apply combat_apply_damage_steady.
  - unfold GameEngine.execute_attack. steady_auto F side.
    apply steady_call. apply store_apply_damage_steady.
Qed.

Lemma handle_attack_steady a : steady R (CombatModule._handle_attack a).
Proof.
  unfold CombatModule._handle_attack. steady_auto F side.
  apply execute_attack_steady.
Qed.

Lemma find_item_steady c item_name :
  steady R (InventoryModule._find_item_in_inventory c item_name).
Proof.
  unfold InventoryModule._find_item_in_inventory.
  destruct (Character.inventory c) as [[|i inv]|]; steady_auto F side.
Qed.

Lemma the_equipped_steady c : steady R (InventoryModule.the_equipped c).
Proof. unfold InventoryModule.the_equipped. steady_auto F side. Qed.

Lemma unequip_steady character_id item_name :
  steady R (InventoryModule._unequip_item character_id item_name).
Proof.
  unfold InventoryModule._unequip_item. steady_auto F side.
  apply the_equipped_steady.
Qed.

Lemma inventory_steady a : steady R (InventoryModule.process_action a).
Proof.
  unfold InventoryModule.process_action, InventoryModule._equip_item,
    InventoryModule._use_item, InventoryModule._drop_item.
  steady_auto F side;
    first [ apply find_item_steady | apply the_equipped_steady
          | apply unequip_steady ].
Qed.

Lemma burn_steady damage ids : steady R (SpellsModule.burn damage ids).
Proof.
  induction ids as [|char_id rest IH]; cbn [SpellsModule.burn];
    steady_auto F side; exact IH.
Qed.

Lemma spells_steady a : steady R (SpellsModule.process_action a).
Proof.
  unfold SpellsModule.process_action, SpellsModule._cast_spell,
    SpellsModule._execute_spell_effect.
  steady_auto F side; apply burn_steady.
Qed.
End ModulesSteady.

(** With movement and the start of combat: frames that also hold across
    a change of position, of initiative and of the turn state. *)
Section AllModulesSteady.
Context {R : GameStateManager.t -> GameStateManager.t -> Prop}
        {ok : (Character.t -> Character.t) -> Prop}
        (F : Frame R ok).

Hypothesis ok_position : forall p, ok (Character.with_position p).
Hypothesis ok_initiative : forall v, ok (Character.with_initiative v).
Hypothesis across_active : forall b g,
  R g (GameStateManager.with_combat_active b g).
Hypothesis across_order : forall l g,
  R g (GameStateManager.with_turn_order l g).
Hypothesis across_index : forall n g,
  R g (GameStateManager.with_current_turn_index n g).

Ltac side := first [apply ok_position | apply ok_initiative].

Lemma movement_steady a :
  (forall b, ok (Character.with_dashed_this_turn b)) ->
  steady R (MovementModule.process_action a).
Proof.
  intros ok_flag.
  unfold MovementModule.process_action, MovementModule._handle_movement.
  steady_auto F side;
    first [apply (dash_steady F ok_flag) | apply (valid_move_steady F)].
Qed.

Lemma roll_initiative_steady ids : steady R (CombatModule.roll_initiative ids).
Proof.
  induction ids as [|char_id rest IH]; cbn [CombatModule.roll_initiative];
    steady_auto F side; exact IH.
Qed.

Lemma start_combat_steady : steady R CombatModule._start_combat.
Proof.
  unfold CombatModule._start_combat. steady_auto F side;
    first [ apply roll_initiative_steady
          | apply steady_tell; intros g;
            first [apply across_active | apply across_order | apply across_index] ].
Qed.

Lemma advance_turn_steady : steady R CombatModule.advance_turn.
Proof.
  unfold CombatModule.advance_turn. steady_auto F side;
    apply steady_tell; intros g; apply across_index.
Qed.
End AllModulesSteady.

(** The router relates the state it starts from to the state it ends
    in by any preorder that all its modules respect. *)
Lemma scan_related {St} (R : St -> St -> Prop) (ms : list (GameModule St)) i a st :
  (forall s, R s s) ->
  (forall s1 s2 s3, R s1 s2 -> R s2 s3 -> R s1 s3) ->
  Forall (fun m => forall s,
            R s (snd (can_handle m a s)) /\ R s (snd (process_action m a s))) ms ->
  R st (world (scan ms i a st)).
Proof.
  intros Hrefl Htrans Hms. revert i st.
  induction Hms as [|m ms Hm _ IH]; intros i st; simpl; [done|].
  pose proof (proj1 (Hm st)) as Hc.
  destruct (can_handle m a st) as [[[]|e] st1]; simpl in *;
    [|by eapply Htrans; [exact Hc|apply IH]|done].
  pose proof (proj2 (Hm st1)) as Hp.
  destruct (process_action m a st1) as [[[]|e] st2]; simpl in *.
  - by eapply Htrans.
  - eapply Htrans; [exact Hc|]. eapply Htrans; [exact Hp|apply IH].
  - eapply Htrans; [exact Hc|]. eapply Htrans; [exact Hp|apply IH].
Qed.

Lemma dispatch_related (R : GameStateManager.t -> GameStateManager.t -> Prop) a w :
  (forall g, R g g) ->
  (forall g1 g2 g3, R g1 g2 -> R g2 g3 -> R g1 g3) ->
  steady R (MovementModule.process_action a) ->
  steady R (CombatModule.process_action a) ->
  steady R (InventoryModule.process_action a) ->
  steady R (SpellsModule.process_action a) ->
  R (gsm w) (gsm (final (ModuleManager_process_action rule_modules a w))).
Proof.
  intros Hrefl Htrans Hm Hc Hi Hs.
  rewrite (proj2 (dispatch_of_scan rule_modules 0 a w)).
  apply (scan_related (fun w w' => R (gsm w) (gsm w'))); [done|by eauto|].
  repeat constructor; cbn; try apply Hrefl; auto.
Qed.

(** *** The roster *)

Lemma same_sheet_refl c : same_sheet c c.
Proof. by repeat split. Qed.

Lemma same_sheet_trans c1 c2 c3 :
  same_sheet c1 c2 -> same_sheet c2 c3 -> same_sheet c1 c3.
Proof. unfold same_sheet. intuition congruence. Qed.

Lemma roster_frame : Frame same_roster keeps_sheet.
Proof.
  split.
  - intros g. unfold same_roster.
    induction (GameStateManager.characters g); constructor; auto using same_sheet_refl.
  - intros g1 g2 g3. unfold same_roster.
    generalize (GameStateManager.characters g1) (GameStateManager.characters g2)
               (GameStateManager.characters g3).
    intros l1 l2 l3 H12. revert l3.
    induction H12 as [|x y l1 l2 [Hk Hs] _ IH]; intros l3 H23;
      inversion H23 as [|y' z l2' l3' [Hk' Hs'] H23']; subst; constructor.
    + split; [congruence|by eapply same_sheet_trans].
    + by apply IH.
  - intros message g. unfold same_roster. store.
    induction (GameStateManager.characters g); constructor; auto using same_sheet_refl.
  - intros char_id f g Hf. unfold same_roster. store.
    induction (GameStateManager.characters g) as [|[k c] l IH]; simpl; [constructor|].
    destruct (String.eqb char_id k); constructor; simpl; auto using same_sheet_refl.
    clear. induction l; constructor; auto using same_sheet_refl.
Qed.

Lemma apply_item_bonuses_sheet item equip c :
  same_sheet c (InventoryModule._apply_item_bonuses item equip c).
Proof.
  unfold InventoryModule._apply_item_bonuses.
  destruct (Item.attack_bonus item), (Item.ac_bonus item);
    repeat match goal with |- context [if ?b then _ else _] => destruct b end;
    by repeat split.
Qed.

Lemma same_roster_keys g g' :
  same_roster g g' ->
  keys (GameStateManager.characters g') = keys (GameStateManager.characters g).
Proof.
  unfold same_roster, keys. induction 1 as [|x y l l' [Hk _] _ IH]; simpl; congruence.
Qed.

Lemma same_roster_In g g' k c' :
  same_roster g g' -> In (k, c') (GameStateManager.characters g') ->
  exists c, In (k, c) (GameStateManager.characters g) /\ same_sheet c c'.
Proof.
  unfold same_roster. induction 1 as [|[k0 c0] [k1 c1] l l' [Hk Hs] _ IH]; simpl; [done|].
  simpl in Hk. subst k1. intros [Heq|Hin].
  - injection Heq as -> ->. exists c0. auto.
  - destruct (IH Hin) as (c & Hc & Hsh). exists c. auto.
Qed.

Lemma same_roster_wf g g' : same_roster g g' -> store_wf g -> store_wf g'.
Proof.
  intros Hr [Hnd Hid]. split; [by rewrite (same_roster_keys g g')|].
  intros k c' Hin. destruct (same_roster_In g g' k c' Hr Hin) as (c & Hc & Hs).
  rewrite (proj1 Hs). by apply Hid.
Qed.

Lemma movement_roster a : steady same_roster (MovementModule.process_action a).
Proof. apply (movement_steady roster_frame); intros; intros c; by repeat split. Qed.

Lemma combat_roster a : steady same_roster (CombatModule.process_action a).
Proof.
  unfold CombatModule.process_action. steady_auto roster_frame idtac.
  - apply (handle_attack_steady roster_frame). intros v c. by repeat split.
  - apply (start_combat_steady roster_frame); intros;
      first [ intros c; by repeat split
            | unfold same_roster; store; apply (frame_refl _ _ roster_frame) ].
Qed.

Lemma inventory_roster a : steady same_roster (InventoryModule.process_action a).
Proof.
  apply (inventory_steady roster_frame); intros; intros c;
    first [ by repeat split | apply apply_item_bonuses_sheet | idtac ].
  eapply same_sheet_trans; [|apply apply_item_bonuses_sheet]. by repeat split.
Qed.

Lemma spells_roster a : steady same_roster (SpellsModule.process_action a).
Proof. apply (spells_steady roster_frame); intros; intros c; by repeat split. Qed.

(** X1.  Dispatching any action through the router over the four rule
    modules never adds, removes, reorders or renames a character: the
    store holds the same keys in the same order, each character keeps
    its id, name, type, maximum HP, known spells and slot totals, and a
    well-formed store stays well-formed. *)
Theorem dispatch_keeps_roster a w :
  same_roster (gsm w)
    (gsm (final (ModuleManager_process_action rule_modules a w))) /\
  keys (GameStateManager.characters
          (gsm (final (ModuleManager_process_action rule_modules a w)))) =
    keys (GameStateManager.characters (gsm w)) /\
  (store_wf (gsm w) ->
   store_wf (gsm (final (ModuleManager_process_action rule_modules a w)))).
Proof.
  assert (H : same_roster (gsm w)
                (gsm (final (ModuleManager_process_action rule_modules a w)))).
  { apply dispatch_related;
      [ apply (frame_refl _ _ roster_frame) | apply (frame_trans _ _ roster_frame)
      | apply movement_roster | apply combat_roster
      | apply inventory_roster | apply spells_roster ]. }
  split; [exact H|]. split; [by apply same_roster_keys|by apply same_roster_wf].
Qed.

(** *** The log, the turn state, the positions *)

Lemma log_frame : Frame log_extends any_mutation.
Proof.
  split.
  - intros g. exists []. by rewrite app_nil_r.
  - intros g1 g2 g3 [l1 H1] [l2 H2]. exists (l1 ++ l2).
    by rewrite H2, H1, app_assoc.
  - intros message g. by exists [message].
  - intros char_id f g _. exists []. store. by rewrite app_nil_r.
Qed.

Lemma log_extends_same g g' :
  GameStateManager.game_log g' = GameStateManager.game_log g -> log_extends g g'.
Proof. intros H. exists []. by rewrite app_nil_r. Qed.

(** X2.  The game log is append-only under dispatch: whatever action
    the router over the four rule modules processes, and whether it
    succeeds, fails or a module raises, the log afterwards is the log
    before followed by new lines. *)
Theorem dispatch_log_append_only a w :
  exists lines,
    GameStateManager.game_log
      (gsm (final (ModuleManager_process_action rule_modules a w))) =
    GameStateManager.game_log (gsm w) ++ lines.
Proof.
  apply (dispatch_related log_extends);
    [ apply (frame_refl _ _ log_frame) | apply (frame_trans _ _ log_frame)
    | by apply (movement_steady log_frame)
    | | by apply (inventory_steady log_frame)
    | by apply (spells_steady log_frame) ].
  unfold CombatModule.process_action. steady_auto log_frame idtac.
  - by apply (handle_attack_steady log_frame).
  - apply (start_combat_steady log_frame); try done; intros; by apply log_extends_same.
Qed.

Lemma turn_frame : Frame same_turn_state any_mutation.
Proof.
  split.
  - by intros g.
  - intros g1 g2 g3 (? & ? & ? & ?) (? & ? & ? & ?). repeat split; congruence.
  - by intros message g.
  - by intros char_id f g _.
Qed.

(** X3.  Only the start of combat touches the turn state: an action
    whose type is not [start_combat] leaves the combat flag, the turn
    order, the turn index and the map exactly as they were, whatever
    else it does. *)
Theorem turn_state_changed_only_by_start_combat a w :
  type_is a "start_combat" = false ->
  same_turn_state (gsm w)
    (gsm (final (ModuleManager_process_action rule_modules a w))).
Proof.
  intros Htype.
  apply (dispatch_related same_turn_state);
    [ apply (frame_refl _ _ turn_frame) | apply (frame_trans _ _ turn_frame)
    | by apply (movement_steady turn_frame)
    | | by apply (inventory_steady turn_frame)
    | by apply (spells_steady turn_frame) ].
  unfold CombatModule.process_action. rewrite Htype.
  destruct (type_is a "attack"); [|apply (steady_ret turn_frame)].
  by apply (handle_attack_steady turn_frame).
Qed.

(** X3: an attack in the skirmish. *)
Lemma turn_state_changed_only_by_start_combat_witness :
  type_is attack_goblin "start_combat" = false /\
  same_turn_state skirmish
    (gsm (final (ModuleManager_process_action rule_modules attack_goblin
                   (world_of skirmish hit_dice)))).
Proof.
  split; [reflexivity|].
  exact (turn_state_changed_only_by_start_combat attack_goblin
           (world_of skirmish hit_dice) eq_refl).
Defined.

Lemma position_frame : Frame same_positions keeps_position.
Proof.
  split.
  - by intros g.
  - intros g1 g2 g3 H12 H23. unfold same_positions in *. congruence.
  - by intros message g.
  - intros char_id f g Hf. unfold same_positions. store.
    induction (GameStateManager.characters g) as [|[k c] l IH]; simpl; [done|].
    destruct (String.eqb char_id k); simpl; [by rewrite Hf|by rewrite IH].
Qed.

Lemma apply_item_bonuses_position item equip c :
  Character.position (InventoryModule._apply_item_bonuses item equip c) =
  Character.position c.
Proof.
  unfold InventoryModule._apply_item_bonuses.
  destruct (Item.attack_bonus item), (Item.ac_bonus item);
    repeat match goal with |- context [if ?b then _ else _] => destruct b end;
    reflexivity.
Qed.

(** X4.  Only a move action moves anybody: an action whose type is not
    [move] (a dash, an attack, the start of combat, any inventory or
    spell action) leaves every character on the cell where it stood. *)
Theorem positions_changed_only_by_move a w :
  type_is a "move" = false ->
  same_positions (gsm w)
    (gsm (final (ModuleManager_process_action rule_modules a w))).
Proof.
  intros Htype.
  apply (dispatch_related same_positions);
    [ apply (frame_refl _ _ position_frame) | apply (frame_trans _ _ position_frame)
    | | | | ].
  - unfold MovementModule.process_action. rewrite Htype.
    destruct (type_is a "dash"); [|apply (steady_ret position_frame)].
    by apply (dash_steady position_frame).
  - unfold CombatModule.process_action. steady_auto position_frame idtac.
    + by apply (handle_attack_steady position_frame).
    + by apply (start_combat_steady position_frame).
  - apply (inventory_steady position_frame); try done.
    intros item equip v c. by rewrite apply_item_bonuses_position.
  - by apply (spells_steady position_frame).
Qed.

(** X4: the start of combat in the ambush. *)
Lemma positions_changed_only_by_move_witness :
  type_is start_combat_action "move" = false /\
  same_positions ambush
    (gsm (final (ModuleManager_process_action rule_modules start_combat_action
                   (world_of ambush tied_dice)))).
Proof.
  split; [reflexivity|].
  exact (positions_changed_only_by_move start_combat_action
           (world_of ambush tied_dice) eq_refl).
Defined.

(** ** Movement *)

Lemma is_position_blocked_spec p w :
  exists b,
    MovementModule._is_position_blocked p w = (Ret b, w) /\
    (b = true <-> blocked_by_trees p (gsm w)).
Proof.
  unfold MovementModule._is_position_blocked, ask, blocked_by_trees.
  eexists. split; [reflexivity|].
  rewrite existsb_exists. split.
  - intros ([ty cells] & Hin & Hb). simpl in Hb.
    apply andb_true_iff in Hb as [Hcell Hty].
    apply String.eqb_eq in Hty as ->.
    apply existsb_exists in Hcell as (q & Hq & Hpq).
    apply pos_eqb_eq in Hpq as ->. by exists cells.
  - intros (cells & Hin & Hp). exists ("trees", cells). split; [done|]. simpl.
    apply andb_true_iff. split; [|done].
    apply existsb_exists. exists p. split; [done|]. by apply pos_eqb_eq.
Qed.

(** [_is_valid_move] answers the three tests and only logs. *)
Lemma is_valid_move_spec c p w :
  exists b lines,
    MovementModule._is_valid_move c p w =
      (Ret b,
       with_gsm (GameStateManager.with_game_log
                   (GameStateManager.game_log (gsm w) ++ lines) (gsm w)) w) /\
    (b = true <->
     (0 <= fst p < default 10 (width (GameStateManager.map_data (gsm w))) /\
      0 <= snd p < default 10 (height (GameStateManager.map_data (gsm w)))) /\
     (forall k c', In (k, c') (GameStateManager.characters (gsm w)) ->
                   Character.id c' <> Character.id c -> Character.position c' <> p) /\
     ~ blocked_by_trees p (gsm w)).
Proof.
  unfold MovementModule._is_valid_move. run.
  pose proof (in_bounds_spec p (gsm w)) as Hb.
  destruct (GameStateManager.in_bounds p (gsm w)); cbn [negb].
  2:{ exists false, [Character.name c +:+ " cannot move outside the map bounds!"].
      split; [done|]. split; [done|]. intros (Hin & _). apply Hb in Hin. done. }
  pose proof (occupied_false (Character.id c) p (gsm w)) as Ho.
  destruct (GameStateManager.occupied (Character.id c) p (gsm w)).
  { exists false, [Character.name c +:+ " cannot move to occupied position!"].
    split; [done|]. split; [done|]. intros (_ & Hfree & _). apply Ho in Hfree. done. }
  destruct (is_position_blocked_spec p w) as (b & -> & Hblocked).
  destruct b.
  { exists false, [Character.name c +:+ " cannot move through that terrain!"].
    split; [done|]. split; [done|]. intros (_ & _ & Hn). destruct Hn. by apply Hblocked. }
  exists true, []. split.
  - rewrite app_nil_r. f_equal. destruct w as [g m r]. by destruct g.
  - split; [intros _|done]. split; [by apply Hb|]. split; [by apply Ho|].
    intros Hn. apply Hblocked in Hn. done.
Qed.

Lemma manhattan_nonneg p q : 0 <= manhattan p q.
Proof. unfold manhattan. lia. Qed.

Lemma handle_movement_unknown character_id p w :
  GameStateManager.get_character_by_id character_id (gsm w) = None ->
  MovementModule._handle_movement character_id p w = (Ret false, w).
Proof.
  intros Hget. unfold MovementModule._handle_movement, bind, ask. by rewrite Hget.
Qed.

(** The two ways a move of an existing character ends. *)
Lemma handle_movement_cases character_id c p w :
  GameStateManager.get_character_by_id character_id (gsm w) = Some c ->
  (move_allowed character_id c p w /\
   fst (MovementModule._handle_movement character_id p w) = Ret true /\
   GameStateManager.characters
     (gsm (snd (MovementModule._handle_movement character_id p w))) =
     dict_alter (Character.with_position p) character_id
       (GameStateManager.characters (gsm w)) /\
   movement_used (snd (MovementModule._handle_movement character_id p w)) =
     <[character_id := used_feet character_id w + feet_to c p]> (movement_used w)) \/
  (~ move_allowed character_id c p w /\
   fst (MovementModule._handle_movement character_id p w) = Ret false /\
   GameStateManager.characters
     (gsm (snd (MovementModule._handle_movement character_id p w))) =
     GameStateManager.characters (gsm w) /\
   movement_used (snd (MovementModule._handle_movement character_id p w)) =
     movement_used w).
Proof.
  intros Hget.
  remember (MovementModule._handle_movement character_id p w) as r eqn:Hr.
  unfold MovementModule._handle_movement in Hr.
  unfold bind at 1, ask at 1 in Hr. rewrite Hget in Hr. cbv zeta in Hr.
  unfold bind at 1, MovementModule.get_used at 1 in Hr.
  fold (used_feet character_id w) in Hr.
  fold (manhattan p (Character.position c)) in Hr.
  fold (feet_to c p) in Hr.
  unfold move_allowed.
  destruct (Z.gtb_spec (feet_to c p)
              (MovementModule._get_character_speed c - used_feet character_id w))
    as [Hfar|Hnear].
  { right. subst r. run. split; [|done]. intros (Hle & _). lia. }
  unfold bind at 1 in Hr.
  destruct (is_valid_move_spec c p w) as (b & lines & Hvalid & Hb).
  rewrite Hvalid in Hr.
  destruct b; cbn [negb] in Hr; subst r.
  - left. destruct (proj1 Hb eq_refl) as ((? & ?) & ? & ?).
    split; [repeat split; first [lia|assumption]|].
    unfold MovementModule.set_used. by run.
  - right. split; [|done]. intros (_ & H1 & H2 & H3 & H4).
    assert (false = true) by (apply Hb; repeat split; tauto). done.
Qed.



(** The scenario of the budget: seven cells cost 35 feet, five more
    than a fresh turn has. *)
Example seven_cells_are_too_far :
  let r := MovementModule._handle_movement "player" (4, 12)
             (world_of glade (constant_tape 0)) in
  fst r = Ret false /\
  GameStateManager.game_log (gsm (snd r)) =
    ["Hero doesn't have enough movement! Needs 35 feet, has 30 feet remaining."] /\
  movement_used (snd r) = ∅.
Proof. by vm_compute. Qed.

Example trees_block :
  let r := MovementModule._handle_movement "player" (5, 5)
             (world_of glade (constant_tape 0)) in
  fst r = Ret false /\
  GameStateManager.game_log (gsm (snd r)) =
    ["Hero cannot move through that terrain!"].
Proof. by vm_compute. Qed.

(** *** The budget *)

Lemma budget_same w w' :
  GameStateManager.characters (gsm w') = GameStateManager.characters (gsm w) ->
  movement_used w' = movement_used w ->
  within_budget w -> within_budget w'.
Proof.
  unfold within_budget, used_feet, GameStateManager.get_character_by_id.
  intros -> ->. done.
Qed.

(** A change of one character that keeps its speed, with a new count of
    feet for it that fits. *)
Lemma budget_update character_id c f v w w' :
  GameStateManager.get_character_by_id character_id (gsm w) = Some c ->
  GameStateManager.characters (gsm w') =
    dict_alter f character_id (GameStateManager.characters (gsm w)) ->
  movement_used w' = <[character_id := v]> (movement_used w) ->
  MovementModule._get_character_speed (f c) = MovementModule._get_character_speed c ->
  0 <= v <= MovementModule._get_character_speed c ->
  within_budget w -> within_budget w'.
Proof.
  unfold within_budget, used_feet, GameStateManager.get_character_by_id.
  intros Hget -> -> Hspeed Hv Hw k c'.
  destruct (String.eqb_spec k character_id) as [->|Hne].
  - rewrite dict_get_alter_eq, Hget, lookup_insert_eq. simpl.
    intros [= <-]. by rewrite Hspeed.
  - rewrite dict_get_alter_ne, lookup_insert_ne by done. apply Hw.
Qed.

Lemma handle_dash_unknown character_id w :
  GameStateManager.get_character_by_id character_id (gsm w) = None ->
  MovementModule._handle_dash character_id w = (Ret false, w).
Proof.
  intros Hget. unfold MovementModule._handle_dash, bind, ask. by rewrite Hget.
Qed.

(** The two ways the dash of an existing character ends. *)
Lemma handle_dash_cases character_id c w :
  GameStateManager.get_character_by_id character_id (gsm w) = Some c ->
  (Character.dashed_this_turn c = false /\
   fst (MovementModule._handle_dash character_id w) = Ret true /\
   GameStateManager.characters (gsm (snd (MovementModule._handle_dash character_id w))) =
     dict_alter (Character.with_dashed_this_turn true) character_id
       (GameStateManager.characters (gsm w)) /\
   movement_used (snd (MovementModule._handle_dash character_id w)) =
     <[character_id :=
         Z.max 0 (used_feet character_id w - MovementModule._get_character_speed c)]>
       (movement_used w)) \/
  (Character.dashed_this_turn c = true /\
   fst (MovementModule._handle_dash character_id w) = Ret false /\
   GameStateManager.characters (gsm (snd (MovementModule._handle_dash character_id w))) =
     GameStateManager.characters (gsm w) /\
   movement_used (snd (MovementModule._handle_dash character_id w)) =
     movement_used w).
Proof.
  intros Hget.
  remember (MovementModule._handle_dash character_id w) as r eqn:Hr.
  unfold MovementModule._handle_dash in Hr.
  unfold bind at 1, ask at 1 in Hr. rewrite Hget in Hr.
  destruct (Character.dashed_this_turn c); subst r.
  - right. by run.
  - left. unfold MovementModule.set_used, MovementModule.get_used. by run.
Qed.

(** X6.  Nobody ever has more feet on the count than its speed: if
    every character's used feet lie between 0 and its speed, they still
    do after any action handled by the movement module (a move carried
    out or refused, a dash, an unknown character, another type) and
    after [reset_turn_movement] for any id. *)
Theorem movement_keeps_budget a character_id w :
  within_budget w ->
  within_budget (snd (MovementModule.process_action a w)) /\
  within_budget (snd (MovementModule.reset_turn_movement character_id w)).
Proof.
  intros Hw. split.
  - unfold MovementModule.process_action. cbv zeta.
    set (k := default "player" (Action.character_id a)).
    set (p := default (0, 0) (Action.position a)).
    destruct (GameStateManager.get_character_by_id k (gsm w)) as [c|] eqn:Hget.
    2:{ repeat match goal with |- context [if ?b then _ else _] => destruct b end;
          by rewrite ?handle_movement_unknown, ?handle_dash_unknown by done. }
    pose proof (Hw k c Hget) as Hk.
    destruct (type_is a "move").
    { destruct (handle_movement_cases k c p w Hget)
        as [(Hok & _ & Hc & Hu)|(_ & _ & Hc & Hu)].
      - apply (budget_update k c _ _ w _ Hget Hc Hu); [done| |done].
        destruct Hok as (Hle & _). pose proof (manhattan_nonneg p (Character.position c)).
        unfold feet_to in *. lia.
      - by apply (budget_same w). }
    destruct (type_is a "dash"); [|done].
    destruct (handle_dash_cases k c w Hget)
      as [(_ & _ & Hc & Hu)|(_ & _ & Hc & Hu)].
    + apply (budget_update k c _ _ w _ Hget Hc Hu); [done|lia|done].
    + by apply (budget_same w).
  - unfold MovementModule.reset_turn_movement, MovementModule.set_used. run.
    intros k c. unfold used_feet, GameStateManager.get_character_by_id. store.
    destruct (String.eqb_spec k character_id) as [->|Hne].
    + rewrite dict_get_alter_eq, lookup_insert_eq. simpl.
      destruct (dict_get character_id _) as [c0|] eqn:Hget; [|done].
      intros [= <-]. pose proof (Hw character_id c0 Hget).
      change (MovementModule._get_character_speed
                (Character.with_dashed_this_turn false c0))
        with (MovementModule._get_character_speed c0). lia.
    + rewrite dict_get_alter_ne, lookup_insert_ne by done. apply Hw.
Qed.

Lemma fresh_turn_within_budget r : within_budget (world_of glade r).
Proof.
  intros k c. unfold used_feet, GameStateManager.get_character_by_id. simpl.
  rewrite lookup_empty. simpl.
  destruct (String.eqb k "player"); [by intros [= <-]|].
  destruct (String.eqb k "goblin_1"); [by intros [= <-]|done].
Qed.

(** X6: a step north at the start of a turn in the glade. *)
Lemma movement_keeps_budget_witness :
  within_budget (world_of glade (constant_tape 0)) /\
  within_budget
    (snd (MovementModule.process_action
            (Action.mk (Some "move") (Some "player") (Some (4, 6)) None None None None)
            (world_of glade (constant_tape 0)))).
Proof.
  split; [apply fresh_turn_within_budget|].
  exact (proj1 (movement_keeps_budget _ "player" _
                  (fresh_turn_within_budget (constant_tape 0)))).
Defined.

(** X7.  A character dashes at most once per turn.  The first dash of
    a character that has not dashed succeeds and takes one speed off
    its used feet, never below zero (so a dash taken before any
    movement gains nothing); a second dash is refused and changes
    neither characters nor budgets; after [reset_turn_movement] the
    character has no feet on the count and may dash again. *)
Theorem dash_once_per_turn character_id c w :
  GameStateManager.get_character_by_id character_id (gsm w) = Some c ->
  Character.dashed_this_turn c = false ->
  let w1 := snd (MovementModule._handle_dash character_id w) in
  let w2 := snd (MovementModule._handle_dash character_id w1) in
  let w3 := snd (MovementModule.reset_turn_movement character_id w1) in
  fst (MovementModule._handle_dash character_id w) = Ret true /\
  used_feet character_id w1 =
    Z.max 0 (used_feet character_id w - MovementModule._get_character_speed c) /\
  fst (MovementModule._handle_dash character_id w1) = Ret false /\
  GameStateManager.characters (gsm w2) = GameStateManager.characters (gsm w1) /\
  movement_used w2 = movement_used w1 /\
  used_feet character_id w3 = 0 /\
  fst (MovementModule._handle_dash character_id w3) = Ret true.
Proof.
  intros Hget Hfresh w1 w2 w3.
  destruct (handle_dash_cases character_id c w Hget)
    as [(_ & Hr & Hc & Hu)|(Hd & _)]; [|congruence].
  fold w1 in Hc, Hu.
  assert (Hget1 : GameStateManager.get_character_by_id character_id (gsm w1) =
                  Some (Character.with_dashed_this_turn true c)).
  { unfold GameStateManager.get_character_by_id in *.
    by rewrite Hc, dict_get_alter_eq, Hget. }
  split; [done|]. split.
  { unfold used_feet at 1. by rewrite Hu, lookup_insert_eq. }
  destruct (handle_dash_cases character_id _ w1 Hget1)
    as [(Hd & _)|(_ & Hr2 & Hc2 & Hu2)]; [done|].
  split; [done|]. split; [done|]. split; [done|].
  assert (Hget3 : GameStateManager.get_character_by_id character_id (gsm w3) =
                  Some (Character.with_dashed_this_turn false
                          (Character.with_dashed_this_turn true c))).
  { subst w3. unfold MovementModule.reset_turn_movement, MovementModule.set_used. run.
    unfold GameStateManager.get_character_by_id in *. store.
    by rewrite dict_get_alter_eq, Hget1. }
  split.
  { subst w3. unfold MovementModule.reset_turn_movement, MovementModule.set_used. run.
    unfold used_feet. store. by rewrite lookup_insert_eq. }
  destruct (handle_dash_cases character_id _ w3 Hget3)
    as [(_ & Hr3 & _)|(Hd & _)]; done.
Qed.

(** X7: the hero of the glade. *)
Lemma dash_once_per_turn_witness :
  GameStateManager.get_character_by_id "player" glade =
    Some (Character._initialize_defaults "player" "Hero" "player" (4, 5)) /\
  fst (MovementModule._handle_dash "player"
         (snd (MovementModule._handle_dash "player"
                 (world_of glade (constant_tape 0))))) = Ret false.
Proof.
  split; [reflexivity|].
  exact (proj1 (proj2 (proj2
    (dash_once_per_turn "player"
       (Character._initialize_defaults "player" "Hero" "player" (4, 5))
       (world_of glade (constant_tape 0)) eq_refl eq_refl)))).
Defined.

(** *** Occupancy *)

Lemma combat_positions a : steady same_positions (CombatModule.process_action a).
Proof.
  unfold CombatModule.process_action. steady_auto position_frame idtac.
  - by apply (handle_attack_steady position_frame).
  - by apply (start_combat_steady position_frame).
Qed.

Lemma inventory_positions a : steady same_positions (InventoryModule.process_action a).
Proof.
  apply (inventory_steady position_frame); try done.
  intros item equip v c. by rewrite apply_item_bonuses_position.
Qed.

Lemma spells_positions a : steady same_positions (SpellsModule.process_action a).
Proof. by apply (spells_steady position_frame). Qed.

Lemma same_positions_In g g' k c' :
  same_positions g g' -> In (k, c') (GameStateManager.characters g') ->
  exists c, In (k, c) (GameStateManager.characters g) /\
            Character.position c = Character.position c'.
Proof.
  unfold same_positions. intros Heq Hin.
  assert (Hin' : In (k, Character.position c')
                   (map (fun kc => (fst kc, Character.position (snd kc)))
                      (GameStateManager.characters g))).
  { rewrite <- Heq. apply in_map_iff. by exists (k, c'). }
  apply in_map_iff in Hin' as ([k0 c] & Hkc & Hc). simpl in Hkc.
  injection Hkc as -> Hp. by exists c.
Qed.

Lemma same_positions_distinct g g' :
  same_positions g g' -> distinct_positions g -> distinct_positions g'.
Proof.
  intros Hs Hd k1 c1 k2 c2 Hin1 Hin2 Hne.
  destruct (same_positions_In g g' k1 c1 Hs Hin1) as (d1 & Hd1 & <-).
  destruct (same_positions_In g g' k2 c2 Hs Hin2) as (d2 & Hd2 & <-).
  by apply (Hd k1 d1 k2 d2).
Qed.

(** Putting one character on a cell that nobody else holds keeps the
    cells distinct. *)
Lemma alter_position_distinct character_id p g chars :
  store_wf g ->
  (forall k c, In (k, c) (GameStateManager.characters g) ->
               Character.id c <> character_id -> Character.position c <> p) ->
  chars = dict_alter (Character.with_position p) character_id
            (GameStateManager.characters g) ->
  distinct_positions g ->
  distinct_positions (GameStateManager.with_characters chars g).
Proof.
  intros [Hnd Hid] Hfree -> Hdist k1 c1 k2 c2 Hin1 Hin2 Hne. simpl in Hin1, Hin2.
  apply (In_dict_alter_NoDup _ _ _ _ _ Hnd) in Hin1
    as [[Hk1 Hin1]|[-> (v1 & Hv1 & ->)]];
  apply (In_dict_alter_NoDup _ _ _ _ _ Hnd) in Hin2
    as [[Hk2 Hin2]|[-> (v2 & Hv2 & ->)]]; try done.
  - by apply (Hdist k1 c1 k2 c2).
  - simpl. apply (Hfree k1 c1 Hin1). by rewrite (Hid k1 c1 Hin1).
  - simpl. intros Heq. apply (Hfree k2 c2 Hin2); [by rewrite (Hid k2 c2 Hin2)|done].
Qed.

Lemma distinct_positions_characters g g' :
  GameStateManager.characters g' = GameStateManager.characters g ->
  distinct_positions g -> distinct_positions g'.
Proof. unfold distinct_positions. by intros ->. Qed.

Lemma movement_distinct a w :
  store_wf (gsm w) -> distinct_positions (gsm w) ->
  distinct_positions (gsm (snd (MovementModule.process_action a w))).
Proof.
  intros Hwf Hdist. unfold MovementModule.process_action. cbv zeta.
  set (k := default "player" (Action.character_id a)).
  set (p := default (0, 0) (Action.position a)).
  destruct (type_is a "move").
  - destruct (GameStateManager.get_character_by_id k (gsm w)) as [c|] eqn:Hget;
      [|by rewrite handle_movement_unknown].
    destruct (handle_movement_cases k c p w Hget)
      as [(Hok & _ & Hc & _)|(_ & _ & Hc & _)].
    + destruct Hok as (_ & _ & _ & Hfree & _).
      assert (Hk : Character.id c = k).
      { apply (proj2 Hwf). by apply dict_get_Some_In. }
      rewrite Hk in Hfree.
      eapply distinct_positions_characters;
        [|exact (alter_position_distinct k p (gsm w) _ Hwf Hfree eq_refl Hdist)].
      by rewrite Hc.
    + by apply (distinct_positions_characters (gsm w)).
  - destruct (type_is a "dash"); [|done].
    eapply same_positions_distinct; [|exact Hdist].
    by apply (dash_steady position_frame).
Qed.

(** X8.  No rule module ever gives two characters one position.  For
    action dicts of the declared types (the position of a move is a
    pair of integers, as [Tuple[int, int]] in the signatures): in a
    well-formed store whose characters have pairwise distinct
    positions, they still have pairwise distinct positions after any
    action dispatched through the router, whichever module takes it and
    whether it succeeds, fails or raises. *)
Theorem dispatch_keeps_distinct_positions a w :
  store_wf (gsm w) -> distinct_positions (gsm w) ->
  distinct_positions (gsm (final (ModuleManager_process_action rule_modules a w))).
Proof.
  intros Hwf Hdist.
  refine (proj2 (dispatch_related
            (fun g g' => store_wf g /\ distinct_positions g ->
                         store_wf g' /\ distinct_positions g')
            a w _ _ _ _ _ _ (conj Hwf Hdist))).
  - done.
  - intros g1 g2 g3 H12 H23 H. auto.
  - intros w0 [Hw Hd]. split; [|by apply movement_distinct].
    eapply same_roster_wf; [apply movement_roster|done].
  - intros w0 [Hw Hd]. split.
    + eapply same_roster_wf; [apply combat_roster|done].
    + eapply same_positions_distinct; [apply combat_positions|done].
  - intros w0 [Hw Hd]. split.
    + eapply same_roster_wf; [apply inventory_roster|done].
    + eapply same_positions_distinct; [apply inventory_positions|done].
  - intros w0 [Hw Hd]. split.
    + eapply same_roster_wf; [apply spells_roster|done].
    + eapply same_positions_distinct; [apply spells_positions|done].
Qed.

Lemma skirmish_wf : store_wf skirmish.
Proof.
  split.
  - by apply (bool_decide_unpack _).
  - intros k c [Heq|[Heq|[]]]; by injection Heq as <- <-.
Qed.

Lemma skirmish_distinct : distinct_positions skirmish.
Proof.
  intros k1 c1 k2 c2 [H1|[H1|[]]] [H2|[H2|[]]] Hne;
    injection H1 as <- <-; injection H2 as <- <-; done.
Qed.

(** X8: the hero steps east in the skirmish. *)
Lemma dispatch_keeps_distinct_positions_witness :
  store_wf skirmish /\ distinct_positions skirmish /\
  distinct_positions
    (gsm (final (ModuleManager_process_action rule_modules step_east
                   (world_of skirmish (constant_tape 0))))).
Proof.
  split; [apply skirmish_wf|]. split; [apply skirmish_distinct|].
  exact (dispatch_keeps_distinct_positions step_east
           (world_of skirmish (constant_tape 0)) skirmish_wf skirmish_distinct).
Defined.

(** X9.  The movement module is stricter than the store: whenever the
    module carries out a move of a character filed under its own id,
    [GameStateManager.move_character] accepts the same move from the
    same state and leaves the same characters. *)
Theorem module_move_refines_store_move character_id c p w :
  GameStateManager.get_character_by_id character_id (gsm w) = Some c ->
  Character.id c = character_id ->
  fst (MovementModule._handle_movement character_id p w) = Ret true ->
  fst (GameStateManager.move_character character_id p (gsm w)) = true /\
  GameStateManager.characters
    (snd (GameStateManager.move_character character_id p (gsm w))) =
  GameStateManager.characters
    (gsm (snd (MovementModule._handle_movement character_id p w))).
Proof.
  intros Hget Hid Hrun.
  destruct (handle_movement_cases character_id c p w Hget)
    as [(Hok & _ & Hc & _)|(_ & Hr & _)]; [|congruence].
  destruct Hok as (_ & Hx & Hy & Hfree & _). rewrite Hid in Hfree.
  unfold GameStateManager.move_character. rewrite Hget.
  assert (Hb : GameStateManager.in_bounds p (gsm w) = true)
    by (by apply in_bounds_spec).
  assert (Ho : GameStateManager.occupied character_id p (gsm w) = false)
    by (by apply occupied_false).
  rewrite Hb, Ho. simpl. by rewrite Hc.
Qed.

(** X9: the step north in the glade. *)
Lemma module_move_refines_store_move_witness :
  fst (GameStateManager.move_character "player" (4, 6) glade) = true.
Proof.
  exact (proj1 (module_move_refines_store_move "player"
           (Character._initialize_defaults "player" "Hero" "player" (4, 5))
           (4, 6) (world_of glade (constant_tape 0)) eq_refl eq_refl eq_refl)).
Defined.

(** ** Turns *)

Lemma advance_turn_frame w :
  GameStateManager.characters (gsm (snd (CombatModule.advance_turn w))) =
    GameStateManager.characters (gsm w) /\
  GameStateManager.turn_order (gsm (snd (CombatModule.advance_turn w))) =
    GameStateManager.turn_order (gsm w) /\
  movement_used (snd (CombatModule.advance_turn w)) = movement_used w.
Proof.
  rewrite advance_turn_step. cbn [snd]. store.
  by destruct (_ <=? _)%nat.
Qed.

(** X10.  [advance_turn] walks the turn order cyclically: from an index
    inside a turn order of length [len], [n] calls leave the index at
    [(index + n) mod len], append one new-round marker for every wrap
    (that is, [(index + n) / len] of them) and nothing else to the log,
    and change neither the turn order nor any character. *)
Theorem advance_turns_index n w :
  (GameStateManager.current_turn_index (gsm w) <
   length (GameStateManager.turn_order (gsm w)))%nat ->
  let len := length (GameStateManager.turn_order (gsm w)) in
  let i := GameStateManager.current_turn_index (gsm w) in
  GameStateManager.current_turn_index (gsm (advance_turns n w)) = ((i + n) mod len)%nat /\
  GameStateManager.game_log (gsm (advance_turns n w)) =
    GameStateManager.game_log (gsm w) ++
    repeat CombatModule.new_round_marker ((i + n) / len)%nat /\
  GameStateManager.turn_order (gsm (advance_turns n w)) =
    GameStateManager.turn_order (gsm w) /\
  GameStateManager.characters (gsm (advance_turns n w)) =
    GameStateManager.characters (gsm w).
Proof.
  intros Hlt len i.
  induction n as [|n (Hidx & Hlog & Hord & Hch)].
  - simpl. rewrite Nat.add_0_r, Nat.mod_small, Nat.div_small by done.
    by rewrite app_nil_r.
  - rewrite advance_turns_S.
    destruct (advance_turn_frame (advance_turns n w)) as (Hc & Ho & _).
    rewrite Hc, Ho, Hord, Hch. split; [|split; [|done]];
      rewrite advance_turn_step; cbn [snd]; store; rewrite Hord, Hidx;
      fold len;
      pose proof (Nat.div_mod_eq (i + n) len) as Hdm;
      pose proof (Nat.mod_upper_bound (i + n) len ltac:(unfold len; lia)) as Hr;
      destruct (Nat.leb_spec len (S ((i + n) mod len))) as [Hwrap|Hin]; store.
    + apply (Nat.mod_unique _ _ (S ((i + n) / len))); lia.
    + apply (Nat.mod_unique _ _ ((i + n) / len)); lia.
    + rewrite Hlog, <- app_assoc. f_equal.
      replace ((i + S n) / len)%nat with (S ((i + n) / len)).
      * symmetry. apply repeat_cons.
      * apply (Nat.div_unique _ _ _ 0%nat); lia.
    + rewrite Hlog. f_equal. f_equal.
      apply (Nat.div_unique _ _ _ (S ((i + n) mod len))); lia.
Qed.

(** X10: five calls in the ambush of three wrap once and stop at the
    third in order. *)
Lemma advance_turns_index_witness :
  GameStateManager.current_turn_index (gsm (advance_turns 5 ambush_started)) = 2%nat.
Proof.
  exact (proj1 (advance_turns_index 5 ambush_started
                  ltac:(vm_compute; lia))).
Defined.

(** *** The character whose turn it is *)

Lemma current_character_cases w :
  turn_ready (gsm w) ->
  (GameStateManager.turn_order (gsm w) = [] /\
   CombatModule.get_current_character w = (Ret None, w)) \/
  (exists char_id c,
     GameStateManager.turn_order (gsm w) !!
       GameStateManager.current_turn_index (gsm w) = Some char_id /\
     GameStateManager.get_character_by_id char_id (gsm w) = Some c /\
     CombatModule.get_current_character w = (Ret (Some c), w)).
Proof.
  intros [Hvalid Hknown]. unfold turn_index_valid, turn_order_known in *.
  unfold CombatModule.get_current_character. run.
  unfold id.
  destruct (GameStateManager.turn_order (gsm w)) as [|k0 order] eqn:Horder; [by left|].
  right. destruct Hvalid as [|Hlt]; [done|].
  destruct (lookup_lt_is_Some_2 (k0 :: order) _ Hlt) as [char_id Hid].
  destruct (In_keys_get char_id (GameStateManager.characters (gsm w))) as [c Hc].
  { apply Hknown. apply list_elem_of_In.
    by apply (list_elem_of_lookup_2 _ _ _ Hid). }
  exists char_id, c. rewrite Hid. unfold GameStateManager.get_character_by_id.
  by rewrite Hc.
Qed.

Lemma turn_ready_same g g' :
  GameStateManager.turn_order g' = GameStateManager.turn_order g ->
  GameStateManager.current_turn_index g' = GameStateManager.current_turn_index g ->
  keys (GameStateManager.characters g') = keys (GameStateManager.characters g) ->
  turn_ready g -> turn_ready g'.
Proof.
  unfold turn_ready, turn_index_valid, turn_order_known. by intros -> -> ->.
Qed.

Lemma advance_turn_ready w :
  turn_order_known (gsm w) -> turn_ready (gsm (snd (CombatModule.advance_turn w))).
Proof.
  intros Hknown. destruct (advance_turn_frame w) as (Hc & Ho & _). split.
  - unfold turn_index_valid. rewrite Ho, advance_turn_step. cbn [snd]. store.
    destruct (Nat.leb_spec (length (GameStateManager.turn_order (gsm w)))
                (S (GameStateManager.current_turn_index (gsm w)))); store; [|by right].
    destruct (GameStateManager.turn_order (gsm w)); [by left|right; simpl; lia].
  - unfold turn_order_known. by rewrite Hc, Ho.
Qed.

Lemma reset_turn_movement_run character_id w :
  fst (MovementModule.reset_turn_movement character_id w) = Ret tt /\
  gsm (snd (MovementModule.reset_turn_movement character_id w)) =
    GameStateManager.update_character character_id
      (Character.with_dashed_this_turn false) (gsm w) /\
  movement_used (snd (MovementModule.reset_turn_movement character_id w)) =
    <[character_id := 0]> (movement_used w).
Proof. unfold MovementModule.reset_turn_movement, MovementModule.set_used. by run. Qed.

Lemma start_combat_ready w : turn_ready (gsm (snd (CombatModule._start_combat w))).
Proof.
  destruct (start_combat_unfold w) as (w1 & _ & ->). cbn [snd]. store.
  set (order := sorted_reverse _ _). split.
  - unfold turn_index_valid. store. destruct order; [by left|right; simpl; lia].
  - intros char_id. unfold turn_order_known. store. intros Hin.
    apply (Permutation_in _ (sorted_reverse_perm _ _)) in Hin. exact Hin.
Qed.

Lemma movement_turn a : steady same_turn_state (MovementModule.process_action a).
Proof. by apply (movement_steady turn_frame). Qed.

Lemma inventory_turn a : steady same_turn_state (InventoryModule.process_action a).
Proof. by apply (inventory_steady turn_frame). Qed.

Lemma spells_turn a : steady same_turn_state (SpellsModule.process_action a).
Proof. by apply (spells_steady turn_frame). Qed.

Lemma turn_ready_steady {A} (m : M A) :
  steady same_turn_state m -> steady same_roster m ->
  forall w, turn_ready (gsm w) -> turn_ready (gsm (snd (m w))).
Proof.
  intros Ht Hr w. destruct (Ht w) as (_ & Ho & Hi & _).
  apply turn_ready_same; [done|done|]. apply same_roster_keys, Hr.
Qed.

Lemma dispatch_turn_ready a w :
  turn_ready (gsm w) ->
  turn_ready (gsm (final (ModuleManager_process_action rule_modules a w))).
Proof.
  apply (dispatch_related (fun g g' => turn_ready g -> turn_ready g')); [done|by auto|..].
  - intros w0. apply turn_ready_steady; [apply movement_turn|apply movement_roster].
  - intros w0. unfold CombatModule.process_action.
    destruct (type_is a "attack").
    { apply turn_ready_steady; [by apply (handle_attack_steady turn_frame)|].
      by apply (handle_attack_steady roster_frame); intros; intros c; repeat split. }
    destruct (type_is a "start_combat"); [|done].
    intros _. apply start_combat_ready.
  - intros w0. apply turn_ready_steady; [apply inventory_turn|apply inventory_roster].
  - intros w0. apply turn_ready_steady; [apply spells_turn|apply spells_roster].
Qed.

Lemma advance_turn_returns w : fst (CombatModule.advance_turn w) = Ret tt.
Proof. by rewrite advance_turn_step. Qed.

(** The engine's [advance_turn] is the combat module's, run after the
    reset of the character whose turn ends. *)
Lemma main_advance_turn_cases w :
  turn_ready (gsm w) ->
  (GameStateManager.turn_order (gsm w) = [] /\
   Main.advance_turn w = CombatModule.advance_turn w) \/
  (exists char_id c,
     GameStateManager.turn_order (gsm w) !!
       GameStateManager.current_turn_index (gsm w) = Some char_id /\
     GameStateManager.get_character_by_id char_id (gsm w) = Some c /\
     Main.advance_turn w =
       CombatModule.advance_turn
         (snd (MovementModule.reset_turn_movement (Character.id c) w))).
Proof.
  intros Hready. unfold Main.advance_turn, bind.
  destruct (current_character_cases w Hready)
    as [(Hnil & Heq)|(char_id & c & Hid & Hc & Heq)]; rewrite Heq.
  - left. split; [done|]. by unfold ret.
  - right. exists char_id, c. split; [done|]. split; [done|].
    pose proof (proj1 (reset_turn_movement_run (Character.id c) w)) as Hr.
    destruct (MovementModule.reset_turn_movement (Character.id c) w) as [o w1].
    simpl in Hr. by subst o.
Qed.

Lemma main_advance_turn_ready w :
  turn_ready (gsm w) ->
  fst (Main.advance_turn w) = Ret tt /\ turn_ready (gsm (snd (Main.advance_turn w))).
Proof.
  intros Hready.
  destruct (main_advance_turn_cases w Hready)
    as [(_ & ->)|(char_id & c & _ & _ & ->)];
    (split; [apply advance_turn_returns|apply advance_turn_ready]);
    [apply Hready|].
  unfold turn_order_known.
  rewrite (proj1 (proj2 (reset_turn_movement_run (Character.id c) w))). store.
  rewrite keys_dict_alter. apply Hready.
Qed.

(** X11.  The turn index never runs off the turn order.  From a state
    whose index points into its turn order (or whose turn order is
    empty, as in a fresh store), after any sequence of actions sent
    through the router and of turns advanced by the engine, the index
    still points into the turn order, every id in the order is a
    character of the store, [get_current_character] returns without an
    [IndexError] (a character whenever the order is not empty), and the
    engine's [advance_turn] returns normally. *)
Theorem turn_index_stays_valid w w' :
  turn_ready (gsm w) ->
  rtc game_step w w' ->
  turn_ready (gsm w') /\
  (exists r, CombatModule.get_current_character w' = (Ret r, w') /\
             (GameStateManager.turn_order (gsm w') <> [] -> is_Some r)) /\
  fst (Main.advance_turn w') = Ret tt.
Proof.
  intros Hready Hsteps.
  assert (Hready' : turn_ready (gsm w')).
  { induction Hsteps as [|w0 w1 w2 Hstep _ IH]; [done|]. apply IH.
    destruct Hstep; [by apply dispatch_turn_ready|by apply main_advance_turn_ready]. }
  split; [done|]. split; [|by apply main_advance_turn_ready].
  destruct (current_character_cases w' Hready')
    as [(Hnil & ->)|(char_id & c & _ & _ & ->)]; eexists; (split; [done|]); [done|].
  by intros _.
Qed.

Lemma fresh_store_ready g :
  GameStateManager.turn_order g = [] -> turn_ready g.
Proof.
  intros Hnil. split; [by left|]. unfold turn_order_known. by rewrite Hnil.
Qed.

(** X11: the ambush: combat starts, then the engine advances a turn. *)
Lemma turn_index_stays_valid_witness :
  turn_ready ambush /\
  fst (Main.advance_turn
         (snd (Main.advance_turn
                 (final (ModuleManager_process_action rule_modules start_combat_action
                           (world_of ambush tied_dice)))))) = Ret tt.
Proof.
  split; [by apply fresh_store_ready|].
  refine (proj2 (proj2 (turn_index_stays_valid (world_of ambush tied_dice) _
                          (fresh_store_ready ambush eq_refl) _))).
  eapply rtc_l; [apply (step_action start_combat_action)|].
  eapply rtc_l; [apply step_turn|]. apply rtc_refl.
Defined.

(** X12.  The engine's [advance_turn] ends the turn of the character
    the index points at: that character has no feet on the count and
    may dash again, nobody else's count or character changes, and the
    index moves to the next place in the order, wrapping to 0 after the
    last.  The character whose turn begins is not reset. *)
Theorem main_advance_turn_spec w char_id c :
  turn_ready (gsm w) ->
  GameStateManager.turn_order (gsm w) !!
    GameStateManager.current_turn_index (gsm w) = Some char_id ->
  GameStateManager.get_character_by_id char_id (gsm w) = Some c ->
  Character.id c = char_id ->
  let w' := snd (Main.advance_turn w) in
  fst (Main.advance_turn w) = Ret tt /\
  used_feet char_id w' = 0 /\
  GameStateManager.get_character_by_id char_id (gsm w') =
    Some (Character.with_dashed_this_turn false c) /\
  (forall other, other <> char_id ->
     used_feet other w' = used_feet other w /\
     GameStateManager.get_character_by_id other (gsm w') =
       GameStateManager.get_character_by_id other (gsm w)) /\
  GameStateManager.current_turn_index (gsm w') =
    (S (GameStateManager.current_turn_index (gsm w)) mod
     length (GameStateManager.turn_order (gsm w)))%nat /\
  GameStateManager.turn_order (gsm w') = GameStateManager.turn_order (gsm w).
Proof.
  intros Hready Hid Hc Hown w'.
  split; [by apply main_advance_turn_ready|]. subst w'.
  destruct (main_advance_turn_cases w Hready)
    as [(Hnil & _)|(k & c0 & Hk & Hc0 & ->)]; [by rewrite Hnil in Hid|].
  rewrite Hid in Hk. injection Hk as <-. rewrite Hc in Hc0. injection Hc0 as <-.
  rewrite Hown.
  destruct (reset_turn_movement_run char_id w) as (_ & Hg & Hu).
  destruct (advance_turn_frame (snd (MovementModule.reset_turn_movement char_id w)))
    as (Hch & Hord & Hused).
  unfold used_feet, GameStateManager.get_character_by_id in *.
  rewrite Hch, Hord, Hused, Hu, Hg. store.
  split; [by rewrite lookup_insert_eq|].
  split; [by rewrite dict_get_alter_eq, Hc|].
  split; [intros other Hne; by rewrite lookup_insert_ne, dict_get_alter_ne|].
  split; [|done].
  rewrite advance_turn_step. cbn [snd]. store. rewrite Hg. store.
  apply lookup_lt_Some in Hid.
  set (i := GameStateManager.current_turn_index (gsm w)) in *.
  set (len := length (GameStateManager.turn_order (gsm w))) in *.
  destruct (Nat.leb_spec len (S i)); store.
  - replace (S i) with len by lia. by rewrite Nat.Div0.mod_same.
  - by rewrite Nat.mod_small.
Qed.

(** X12: the first turn of the started ambush ends. *)
Lemma main_advance_turn_spec_witness :
  turn_ready (gsm ambush_started) /\
  GameStateManager.current_turn_index
    (gsm (snd (Main.advance_turn ambush_started))) = 1%nat.
Proof.
  assert (H : turn_ready (gsm ambush_started)).
  { split; [right; vm_compute; lia|].
    intros k Hk. vm_compute in Hk. vm_compute. tauto. }
  split; [exact H|].
  exact (proj1 (proj2 (proj2 (proj2 (proj2
    (main_advance_turn_spec ambush_started "goblin_1"
       (Character.with_initiative 17
          (Character._initialize_defaults "goblin_1" "Goblin 1" "monster" (4, 4)))
       H eq_refl eq_refl eq_refl)))))).
Defined.

(** *** The end of combat *)

Lemma alive_none ty (l : list Character.t) :
  (length (List.filter
     (fun char => String.eqb (Character.type char) ty && (Character.hp char >? 0)) l)
   =? 0)%nat = true <->
  forall c, In c l -> Character.type c = ty -> Character.hp c <= 0.
Proof.
  rewrite Nat.eqb_eq, length_zero_iff_nil. split.
  - intros Hnil c Hin Hty.
    destruct (Z.gtb_spec (Character.hp c) 0) as [Hpos|]; [|done].
    assert (Hc : In c (List.filter
      (fun char => String.eqb (Character.type char) ty && (Character.hp char >? 0)) l)).
    { apply filter_In. split; [done|]. apply andb_true_iff. split.
      - by apply String.eqb_eq.
      - by apply Z.gtb_lt. }
    by rewrite Hnil in Hc.
  - intros H. induction l as [|c l IH]; [done|]. simpl.
    destruct (String.eqb_spec (Character.type c) ty) as [Hty|Hty]; simpl.
    + pose proof (H c (or_introl eq_refl) Hty).
      destruct (Z.gtb_spec (Character.hp c) 0); [lia|].
      apply IH. intros c' Hin. apply H. by right.
    + apply IH. intros c' Hin. apply H. by right.
Qed.

(** X13.  Combat is over exactly when no monster or no player has HP
    above zero; characters of any other type do not count.  So a store
    without characters, or one holding only monsters, is a finished
    combat, and combat goes on as long as one monster and one player
    are alive. *)
Theorem is_combat_over_spec g :
  CombatModule.is_combat_over g = true <->
  (forall c, In c (values (GameStateManager.characters g)) ->
             Character.type c = "monster" -> Character.hp c <= 0) \/
  (forall c, In c (values (GameStateManager.characters g)) ->
             Character.type c = "player" -> Character.hp c <= 0).
Proof.
  unfold CombatModule.is_combat_over. cbv zeta.
  by rewrite orb_true_iff, !alive_none.
Qed.

(** ** Dice *)

Lemma match_dice_parts s n d modifier :
  match_dice s = Some (n, d, modifier) -> 0 <= n /\ 0 <= d.
Proof.
  unfold match_dice.
  destruct (number s) as [[n0 [|c rest]]|] eqn:Hn; [done| |done].
  destruct c as [[] [] [] [] [] [] [] []]; try done.
  destruct (number rest) as [[d0 rest']|] eqn:Hd; [|done].
  apply number_nonneg in Hn, Hd. intros H.
  assert (n0 = n /\ d0 = d) as [<- <-]; [|done].
  destruct rest' as [|c' rest'']; [by injection H|].
  destruct c' as [[] [] [] [] [] [] [] []]; try by injection H.
  destruct (number rest'') as [[m0 r]|]; by injection H.
Qed.

(** [n] dice of [d >= 1] sides: [n] draws, a sum between [n] and [n * d]. *)
Lemma roll_sum_range n d w :
  1 <= d ->
  exists v w',
    roll_sum n d w = (Ret v, w') /\
    Z.of_nat n <= v <= Z.of_nat n * d /\
    cursor (random w') = (cursor (random w) + n)%nat /\
    tape (random w') = tape (random w) /\
    gsm w' = gsm w /\ movement_used w' = movement_used w.
Proof.
  intros Hd. revert w. induction n as [|n IH]; intros w; cbn [roll_sum].
  { exists 0, w. unfold ret. rewrite Nat.add_0_r. repeat split; lia. }
  unfold bind. rewrite randint_const by done.
  pose proof (Z.mod_pos_bound (tape (random w) (cursor (random w))) (d - 1 + 1)
                ltac:(lia)) as Hr.
  set (r := 1 + tape (random w) (cursor (random w)) `mod` (d - 1 + 1)) in *.
  match goal with
  | |- context [roll_sum n d ?w1] =>
      destruct (IH w1) as (v & w' & -> & Hv & Hcur & Htape & Hg & Hm)
  end.
  exists (r + v), w'. unfold ret. cbn in Hcur, Htape, Hg, Hm.
  split; [done|]. split; [nia|]. split; [lia|]. done.
Qed.

(** Dice with sides: the total and the draws. *)
Lemma roll_dice_total s n d modifier w :
  match_dice s = Some (n, d, modifier) ->
  1 <= d ->
  exists v,
    fst (_roll_dice s w) = Ret v /\
    n + default 0 modifier <= v <= n * d + default 0 modifier /\
    cursor (random (snd (_roll_dice s w))) = (cursor (random w) + Z.to_nat n)%nat /\
    gsm (snd (_roll_dice s w)) = gsm w.
Proof.
  intros Hs Hd. pose proof (match_dice_parts _ _ _ _ Hs) as [Hn _].
  unfold _roll_dice. rewrite Hs.
  destruct (roll_sum_range (Z.to_nat n) d w Hd) as (v & w' & Hrun & Hv & Hcur & _ & Hg & _).
  unfold bind, ret. rewrite Hrun. cbn [fst snd].
  exists (v + default 0 modifier). split; [done|]. split; [|done].
  rewrite Z2Nat.id in Hv by done. lia.
Qed.



Example roll_dice_unparsable w : _roll_dice "two dice" w = (Ret 0, w).
Proof. reflexivity. Qed.

Example roll_dice_no_sides w :
  fst (_roll_dice "3d0" w) =
    Raise (PyExc "ValueError" "empty range for randrange() (1, 1, 0)").
Proof. reflexivity. Qed.

(** ** Spells *)

Lemma slots_frame : Frame same_slots keeps_slots.
Proof.
  split.
  - by intros g.
  - intros g1 g2 g3 H12 H23. unfold same_slots in *. congruence.
  - by intros message g.
  - intros char_id f g Hf. unfold same_slots. store.
    induction (GameStateManager.characters g) as [|[k c] l IH]; simpl; [done|].
    destruct (String.eqb char_id k); simpl; [|by rewrite IH].
    by rewrite (proj1 (Hf c)), (proj2 (Hf c)).
Qed.

Lemma same_slots_inv g g' : same_slots g g' -> slots_inv g -> slots_inv g'.
Proof.
  unfold same_slots, slots_inv. intros Heq Hg.
  apply (Forall_map
           (fun kc : string * Character.t =>
              (fst kc, Character.spell_slots_used (snd kc),
               Character.spell_slots (snd kc)))
           (fun x => slots_fit (snd (fst x)) (snd x))).
  rewrite Heq. by apply Forall_map.
Qed.

Lemma steady_slots_inv {A} (m : M A) w :
  steady same_slots m -> slots_inv (gsm w) -> slots_inv (gsm (snd (m w))).
Proof. intros Hm. apply same_slots_inv, Hm. Qed.

Lemma apply_item_bonuses_slots item equip c :
  Character.spell_slots_used (InventoryModule._apply_item_bonuses item equip c) =
    Character.spell_slots_used c /\
  Character.spell_slots (InventoryModule._apply_item_bonuses item equip c) =
    Character.spell_slots c.
Proof.
  unfold InventoryModule._apply_item_bonuses.
  destruct (Item.attack_bonus item), (Item.ac_bonus item);
    repeat match goal with |- context [if ?b then _ else _] => destruct b end;
    by split.
Qed.

Lemma Forall_dict_alter_get {V} (P : string * V -> Prop) f k d :
  (forall v, dict_get k d = Some v -> P (k, f v)) ->
  Forall P d -> Forall P (dict_alter f k d).
Proof.
  intros Hf. induction 1 as [|[k' v] d Hv Hd IH]; simpl; [by constructor|].
  simpl in Hf. destruct (String.eqb_spec k k') as [->|Hne]; constructor; auto.
Qed.

(** The effect of a spell leaves the slot counters alone. *)
Lemma execute_spell_effect_slots spell caster target :
  steady same_slots (SpellsModule._execute_spell_effect spell caster target).
Proof.
  unfold SpellsModule._execute_spell_effect.
  steady_auto slots_frame ltac:(by intros c);
    by apply (burn_steady slots_frame).
Qed.

Lemma cast_spell_slots caster spell_name target_id w :
  slots_inv (gsm w) ->
  slots_inv (gsm (snd (SpellsModule._cast_spell caster spell_name target_id w))).
Proof.
  intros Hinv. unfold SpellsModule._cast_spell. unfold bind at 1, deref at 1.
  destruct (GameStateManager.get_character_by_id caster (gsm w)) as [c|] eqn:Hc;
    [|done].
  cbv zeta.
  match goal with |- context [negb ?b] => destruct b end; cbn [negb].
  2:{ eapply same_slots_inv; [|exact Hinv].
      match goal with |- same_slots _ (gsm (snd (?m w))) =>
        assert (Hm : steady same_slots m) by steady_auto slots_frame idtac;
        apply Hm end. }
  destruct (dict_get (str_opt spell_name) SpellsModule.spell_database) as [spell|];
    [|done].
  destruct (Character.spell_slots_used c !! Spell.level spell) as [used|] eqn:Hused;
    [|done].
  destruct (Character.spell_slots c !! Spell.level spell) as [total|] eqn:Htotal;
    [|done].
  destruct (Z.geb_spec used total) as [Hfull|Hfree].
  { eapply same_slots_inv; [|exact Hinv].
    match goal with |- same_slots _ (gsm (snd (?m w))) =>
      assert (Hm : steady same_slots m) by steady_auto slots_frame idtac;
      apply Hm end. }
  unfold bind at 1, mutate at 1, tell at 1.
  match goal with |- slots_inv (gsm (snd (?m ?w1))) =>
    assert (Hm : steady same_slots m);
    [|eapply same_slots_inv; [apply Hm|]] end.
  { steady_auto slots_frame idtac; apply execute_spell_effect_slots. }
  unfold slots_inv in *. store.
  apply Forall_dict_alter_get; [|done].
  unfold GameStateManager.get_character_by_id in Hc. rewrite Hc.
  intros v [= <-]. simpl. intros level u t.
  destruct (decide (level = Spell.level spell)) as [->|Hne].
  - rewrite lookup_insert_eq, Htotal. intros [= <-] [= <-]. lia.
  - rewrite lookup_insert_ne by done.
    rewrite Forall_forall in Hinv.
    apply (Hinv (caster, c)). apply list_elem_of_In. by apply dict_get_Some_In.
Qed.

(** The one place where a used counter is assigned: a cast leaves the
    slot tables as they were, or has passed the slot check and raised
    the caster's counter of the spell's level by one. *)
Lemma cast_spell_bump caster spell_name target_id w :
  let g' := gsm (snd (SpellsModule._cast_spell caster spell_name target_id w)) in
  same_slots (gsm w) g' \/
  exists c level used total,
    GameStateManager.get_character_by_id caster (gsm w) = Some c /\
    Character.spell_slots_used c !! level = Some used /\
    Character.spell_slots c !! level = Some total /\
    used < total /\
    same_slots
      (GameStateManager.update_character caster
         (fun c0 => Character.with_spell_slots_used
                      (<[level := used + 1]> (Character.spell_slots_used c0)) c0)
         (gsm w)) g'.
Proof.
  intros g'. subst g'.
  remember (SpellsModule._cast_spell caster spell_name target_id w) as r eqn:Hr.
  unfold SpellsModule._cast_spell in Hr. unfold bind at 1, deref at 1 in Hr.
  destruct (GameStateManager.get_character_by_id caster (gsm w)) as [c|] eqn:Hc;
    [|subst r; by left].
  cbv zeta in Hr.
  match type of Hr with context [negb ?b] => destruct b end; cbn [negb] in Hr.
  2:{ left. subst r.
      match goal with |- same_slots _ (gsm (snd (?m w))) =>
        assert (Hm : steady same_slots m) by steady_auto slots_frame idtac;
        apply Hm end. }
  destruct (dict_get (str_opt spell_name) SpellsModule.spell_database) as [spell|];
    [|subst r; by left].
  destruct (Character.spell_slots_used c !! Spell.level spell) as [used|] eqn:Hused;
    [|subst r; by left].
  destruct (Character.spell_slots c !! Spell.level spell) as [total|] eqn:Htotal;
    [|subst r; by left].
  destruct (Z.geb_spec used total) as [Hfull|Hfree].
  { left. subst r.
    match goal with |- same_slots _ (gsm (snd (?m w))) =>
      assert (Hm : steady same_slots m) by steady_auto slots_frame idtac;
      apply Hm end. }
  right. exists c, (Spell.level spell), used, total.
  split; [done|]. split; [done|]. split; [done|]. split; [lia|].
  subst r. unfold bind at 1, mutate at 1, tell at 1.
  match goal with |- same_slots _ (gsm (snd (?m ?w1))) =>
    assert (Hm : steady same_slots m);
    [|exact (Hm w1)] end.
  steady_auto slots_frame idtac; apply execute_spell_effect_slots.
Qed.

Lemma dispatch_cast_final a w :
  type_is a "cast_spell" = true ->
  final (ModuleManager_process_action rule_modules a w) =
    snd (SpellsModule.process_action a w).
Proof.
  intros Hcast. pose proof (type_is_Some a _ Hcast) as Hty.
  unfold ModuleManager_process_action, rule_modules, movement_module,
    combat_module, inventory_module, spells_module, as_module.
  cbn [scan can_handle process_action cls_name].
  unfold MovementModule.can_handle, CombatModule.can_handle,
    InventoryModule.can_handle, SpellsModule.can_handle, type_in.
  rewrite Hty. cbn [existsb String.eqb Ascii.eqb Bool.eqb orb].
  by destruct (SpellsModule.process_action a w) as [[[]|e] w1].
Qed.

(** X15.  No character ever has more spell slots used than it has: if
    that holds of every character and level, it still holds after any
    action dispatched through the router.  An action that is not a
    cast leaves every character's slot tables as they were; a cast
    leaves them as they were too, or has passed the slot check (used
    below total at the level of the spell) and then the caster's used
    counter of that level, and nothing else in any slot table, has gone
    up by exactly one. *)
Theorem dispatch_keeps_slots a w :
  let g' := gsm (final (ModuleManager_process_action rule_modules a w)) in
  let caster := default "player" (Action.character_id a) in
  (slots_inv (gsm w) -> slots_inv g') /\
  (type_is a "cast_spell" = false -> same_slots (gsm w) g') /\
  (type_is a "cast_spell" = true ->
   same_slots (gsm w) g' \/
   exists c level used total,
     GameStateManager.get_character_by_id caster (gsm w) = Some c /\
     Character.spell_slots_used c !! level = Some used /\
     Character.spell_slots c !! level = Some total /\
     used < total /\
     same_slots
       (GameStateManager.update_character caster
          (fun c0 => Character.with_spell_slots_used
                       (<[level := used + 1]> (Character.spell_slots_used c0)) c0)
          (gsm w)) g').
Proof.
  intros g' caster. subst g' caster. split; [|split].
  - apply (dispatch_related (fun g g' => slots_inv g -> slots_inv g'));
      [done|by auto|..]; intros w0.
    + apply steady_slots_inv. by apply (movement_steady slots_frame).
    + apply steady_slots_inv. unfold CombatModule.process_action.
      steady_auto slots_frame idtac.
      * by apply (handle_attack_steady slots_frame).
      * by apply (start_combat_steady slots_frame).
    + apply steady_slots_inv. apply (inventory_steady slots_frame); try done.
      intros item equip v c.
      by destruct (apply_item_bonuses_slots item equip (Character.with_equipped v c))
        as [-> ->].
    + unfold SpellsModule.process_action. cbv zeta. unfold bind, ask.
      destruct (GameStateManager.get_character_by_id _ (gsm w0)); [|done].
      destruct (type_is a "cast_spell"); [apply cast_spell_slots|].
      by destruct (type_is a "prepare_spell").
  - intros Hother.
    apply (dispatch_related same_slots);
      [ apply (frame_refl _ _ slots_frame) | apply (frame_trans _ _ slots_frame)
      | by apply (movement_steady slots_frame) | | | ].
    + unfold CombatModule.process_action. steady_auto slots_frame idtac.
      * by apply (handle_attack_steady slots_frame).
      * by apply (start_combat_steady slots_frame).
    + apply (inventory_steady slots_frame); try done.
      intros item equip v c.
      by destruct (apply_item_bonuses_slots item equip (Character.with_equipped v c))
        as [-> ->].
    + unfold SpellsModule.process_action. rewrite Hother.
      steady_auto slots_frame idtac.
  - intros Hcast. rewrite (dispatch_cast_final a w Hcast).
    assert (Hrun :
      snd (SpellsModule.process_action a w) = w \/
      snd (SpellsModule.process_action a w) =
        snd (SpellsModule._cast_spell (default "player" (Action.character_id a))
               (Action.spell_name a) (Action.target_id a) w)).
    { unfold SpellsModule.process_action. rewrite Hcast. cbv zeta.
      unfold bind, ask.
      destruct (GameStateManager.get_character_by_id _ (gsm w)); [by right|by left]. }
    destruct Hrun as [-> | ->]; [left; apply (frame_refl _ _ slots_frame)|].
    apply cast_spell_bump.
Qed.

Lemma chapel_slots : slots_inv chapel.
Proof.
  repeat constructor. simpl. intros level u t Hu Ht.
  assert (Hl : level = 1 \/ level = 2 \/ level = 3 \/ level = 4 \/ level = 5 \/
               ~ (1 <= level <= 5)) by lia.
  destruct Hl as [->|[->|[->|[->|[->|Hn]]]]];
    try (vm_compute in Hu, Ht; injection Hu as <-; injection Ht as <-; lia).
  exfalso. revert Hu. rewrite !lookup_insert_ne by lia. by rewrite lookup_empty.
Qed.

(** X15: the cleric of the chapel casts at nobody. *)
Lemma dispatch_keeps_slots_witness :
  slots_inv chapel /\
  slots_inv (gsm (final (ModuleManager_process_action rule_modules cast_at_nobody
                           (world_of chapel (constant_tape 0))))).
Proof.
  split; [apply chapel_slots|].
  exact (proj1 (dispatch_keeps_slots cast_at_nobody
                  (world_of chapel (constant_tape 0))) chapel_slots).
Defined.

(** X16.  A slot is spent before the target is looked up: when a
    caster with a free level-1 slot casts cure wounds or magic missile
    at an id that names no character, the cast returns false and logs
    nothing, yet the caster's used counter has gone up by one. *)
Theorem cast_at_missing_target_spends_slot
    caster c known spell_name target_id used total w :
  GameStateManager.get_character_by_id caster (gsm w) = Some c ->
  Character.spells_known c = Some known ->
  In spell_name known ->
  spell_name = "cure_wounds" \/ spell_name = "magic_missile" ->
  Character.spell_slots_used c !! 1 = Some used ->
  Character.spell_slots c !! 1 = Some total ->
  used < total ->
  target_id <> "" ->
  GameStateManager.get_character_by_id target_id (gsm w) = None ->
  let r := SpellsModule._cast_spell caster (Some spell_name) (Some target_id) w in
  fst r = Ret false /\
  GameStateManager.get_character_by_id caster (gsm (snd r)) =
    Some (Character.with_spell_slots_used
            (<[1 := used + 1]> (Character.spell_slots_used c)) c) /\
  GameStateManager.game_log (gsm (snd r)) = GameStateManager.game_log (gsm w) /\
  random (snd r) = random w.
Proof.
  intros Hc Hknown Hin Hspell Hused Htotal Hfree Htarget Hnobody r.
  assert (Hne : target_id <> caster) by (intros ->; congruence).
  assert (Hempty : String.eqb target_id "" = false) by (by apply String.eqb_neq).
  assert (Hrun : r =
    (Ret false,
     with_gsm
       (GameStateManager.update_character caster
          (fun c => Character.with_spell_slots_used
                      (<[1 := used + 1]> (Character.spell_slots_used c)) c)
          (gsm w)) w)).
  { subst r. unfold SpellsModule._cast_spell. unfold bind at 1, deref at 1.
    rewrite Hc. cbv zeta.
    rewrite Hknown, (existsb_eqb_In _ _ Hin). cbn [negb str_opt truthy].
    rewrite Hempty. cbn [negb].
    unfold GameStateManager.get_character_by_id in *.
    destruct Hspell as [-> | ->];
      cbn [dict_get SpellsModule.spell_database String.eqb Ascii.eqb Bool.eqb
           Spell.level];
      rewrite Hused, Htotal;
      (destruct (Z.geb_spec used total); [lia|]);
      run; store; rewrite dict_get_alter_ne, Hnobody by done; reflexivity. }
  rewrite Hrun. cbn [fst snd]. store.
  unfold GameStateManager.get_character_by_id in *. store.
  by rewrite dict_get_alter_eq, Hc.
Qed.

(** X16: the cleric of the chapel casts magic missile at nobody. *)
Lemma cast_at_missing_target_spends_slot_witness :
  fst (SpellsModule._cast_spell "player" (Some "magic_missile") (Some "ghost")
         (world_of chapel (constant_tape 0))) = Ret false /\
  option_map (fun c => Character.spell_slots_used c !! 1)
    (GameStateManager.get_character_by_id "player"
       (gsm (snd (SpellsModule._cast_spell "player" (Some "magic_missile")
                    (Some "ghost") (world_of chapel (constant_tape 0)))))) =
    Some (Some 1).
Proof.
  destruct (cast_at_missing_target_spends_slot "player" wounded_cleric
              ["cure_wounds"; "magic_missile"] "magic_missile" "ghost" 0 1
              (world_of chapel (constant_tape 0))
              eq_refl eq_refl (or_intror (or_introl eq_refl)) (or_intror eq_refl)
              eq_refl eq_refl ltac:(lia) ltac:(discriminate) eq_refl)
    as (Hr & Hget & _).
  split; [exact Hr|]. by rewrite Hget.
Defined.

(** *** Fireball *)

Lemma burn_spec damage ids w :
  NoDup ids ->
  (forall k, In k ids -> In k (keys (GameStateManager.characters (gsm w)))) ->
  exists hit w',
    SpellsModule.burn damage ids w = (Ret hit, w') /\
    random w' = random w /\
    (forall k, In k ids ->
       GameStateManager.get_character_by_id k (gsm w') =
       option_map (scorch damage) (GameStateManager.get_character_by_id k (gsm w))) /\
    (forall k, ~ In k ids ->
       GameStateManager.get_character_by_id k (gsm w') =
       GameStateManager.get_character_by_id k (gsm w)).
Proof.
  intros Hnd. revert w. induction Hnd as [|char_id rest Hnotin Hnd IH]; intros w Hin.
  { exists [], w. by repeat split. }
  rewrite list_elem_of_In in Hnotin.
  destruct (In_keys_get char_id (GameStateManager.characters (gsm w)))
    as [char Hchar]; [apply Hin; by left|].
  assert (Hstep : exists (o : bool) w1,
      SpellsModule.burn damage (char_id :: rest) w =
        bind (SpellsModule.burn damage rest)
          (fun hit => ret (if o then Character.name char :: hit else hit : list string)) w1 /\
      random w1 = random w /\
      keys (GameStateManager.characters (gsm w1)) =
        keys (GameStateManager.characters (gsm w)) /\
      GameStateManager.get_character_by_id char_id (gsm w1) =
        Some (scorch damage char) /\
      (forall k, k <> char_id ->
         GameStateManager.get_character_by_id k (gsm w1) =
         GameStateManager.get_character_by_id k (gsm w))).
  { cbn [SpellsModule.burn]. unfold bind at 1, deref at 1.
    unfold GameStateManager.get_character_by_id at 1. rewrite Hchar.
    unfold scorch.
    destruct (String.eqb (Character.type char) "monster" && (Character.hp char >? 0)).
    - cbv zeta. unfold GameStateManager.get_character_by_id.
      destruct (Z.max 0 (Character.hp char - damage) <=? 0);
        exists true; eexists; run; store;
        (split; [reflexivity|]); store;
        rewrite keys_dict_alter, dict_get_alter_eq, Hchar;
        (repeat split; try done); intros k Hk; by rewrite dict_get_alter_ne.
    - exists false, w. unfold bind, ret. split.
      + by destruct (SpellsModule.burn damage rest w) as [[hit|e] w'].
      + by repeat split. }
  destruct Hstep as (o & w1 & Hrun & Hrand & Hkeys & Hown & Hother).
  destruct (IH w1) as (hit & w' & Hrest & Hrand' & Hburned & Hkept).
  { intros k Hk. rewrite Hkeys. apply Hin. by right. }
  rewrite Hrun. unfold bind, ret. rewrite Hrest.
  eexists _, w'. split; [reflexivity|]. split; [congruence|]. split.
  - intros k [<-|Hk].
    + rewrite (Hkept char_id Hnotin), Hown.
      unfold GameStateManager.get_character_by_id. by rewrite Hchar.
    + rewrite (Hburned k Hk), Hother; [done|]. by intros ->.
  - intros k Hk. rewrite Hkept by (intros ?; apply Hk; by right).
    apply Hother. intros ->. apply Hk. by left.
Qed.

(** X17.  Fireball asks neither who casts it nor whom it is aimed at:
    one roll of 8d6, between 8 and 48, is taken off the HP of every
    monster that has HP above zero, never below zero, and nobody else
    changes; the effect returns true even when it hits nobody. *)
Theorem fireball_burns_every_living_monster caster target w :
  NoDup (keys (GameStateManager.characters (gsm w))) ->
  let r := SpellsModule._execute_spell_effect fireball caster target w in
  exists damage,
    8 <= damage <= 48 /\
    fst r = Ret true /\
    forall k,
      GameStateManager.get_character_by_id k (gsm (snd r)) =
      option_map (scorch damage) (GameStateManager.get_character_by_id k (gsm w)).
Proof.
  intros Hnd r.
  destruct (roll_dice_total "8d6" 8 6 None w eq_refl ltac:(lia))
    as (damage & Hv & Hrange & _ & Hg).
  exists damage. split; [simpl in Hrange; lia|].
  assert (Hr : exists w', r = (Ret true, w') /\
    forall k, GameStateManager.get_character_by_id k (gsm w') =
              option_map (scorch damage)
                (GameStateManager.get_character_by_id k (gsm w))).
  { subst r. unfold SpellsModule._execute_spell_effect.
    change (replace_space (lower (Spell.name fireball))) with "fireball".
    cbv zeta.
    change (String.eqb "fireball" "cure_wounds") with false.
    change (String.eqb "fireball" "magic_missile") with false.
    change (String.eqb "fireball" "shield") with false.
    change (String.eqb "fireball" "fireball") with true.
    cbv iota.
    unfold bind at 1.
    destruct (_roll_dice "8d6" w) as [o w0]. cbn [fst snd] in Hv, Hg. subst o.
    unfold bind at 1, ask at 1. unfold bind at 1.
    destruct (burn_spec damage (keys (GameStateManager.characters (gsm w0))) w0)
      as (hit & w' & -> & _ & Hburned & Hkept); [by rewrite Hg|done|].
    assert (Hall : forall k,
      GameStateManager.get_character_by_id k (gsm w') =
      option_map (scorch damage) (GameStateManager.get_character_by_id k (gsm w))).
    { intros k. rewrite <- Hg.
      destruct (GameStateManager.get_character_by_id k (gsm w0)) as [c|] eqn:Hk.
      - rewrite Hburned, Hk; [done|]. eapply In_keys. by apply dict_get_Some_In.
      - rewrite Hkept; [done|]. by apply dict_get_None. }
    destruct hit; run; eexists; (split; [reflexivity|]);
      intros k; unfold GameStateManager.get_character_by_id; store; apply Hall. }
  destruct Hr as (w' & -> & Hall). by split.
Qed.

(** X17: a fireball over the skirmish. *)
Lemma fireball_burns_every_living_monster_witness :
  exists damage,
    8 <= damage <= 48 /\
    fst (SpellsModule._execute_spell_effect fireball "nobody" None
           (world_of skirmish (constant_tape 0))) = Ret true.
Proof.
  destruct (fireball_burns_every_living_monster "nobody" None
              (world_of skirmish (constant_tape 0)) (proj1 skirmish_wf))
    as (damage & Hrange & Hr & _).
  exists damage. by split.
Defined.

(** *** Magic missile *)

Lemma missiles_range n w :
  exists total w',
    SpellsModule.missiles n w = (Ret total, w') /\
    2 * Z.of_nat n <= total <= 5 * Z.of_nat n /\
    cursor (random w') = (cursor (random w) + n)%nat /\
    gsm w' = gsm w.
Proof.
  revert w. induction n as [|n IH]; intros w; cbn [SpellsModule.missiles].
  { exists 0, w. unfold ret. rewrite Nat.add_0_r. repeat split; lia. }
  unfold bind.
  destruct (roll_dice_total "1d4" 1 4 None w eq_refl ltac:(lia))
    as (v & Hv & Hrange & Hcur & Hg).
  destruct (_roll_dice "1d4" w) as [o w0]. cbn [fst snd] in *. subst o.
  destruct (IH w0) as (total & w' & -> & Ht & Hcur' & Hg').
  exists (v + 1 + total), w'. unfold ret.
  split; [done|]. split; [simpl in Hrange; lia|]. split; [|congruence].
  rewrite Hcur', Hcur. simpl. lia.
Qed.

(** X29.  Magic missile on a character of the store: three darts of
    1d4+1 each, drawn one after the other, between 6 and 15 points in
    all, taken off the target's HP, never below zero; the effect
    returns true and changes no other character. *)
Theorem magic_missile_spec caster target c w :
  GameStateManager.get_character_by_id target (gsm w) = Some c ->
  let r := SpellsModule._execute_spell_effect magic_missile caster (Some target) w in
  exists total,
    6 <= total <= 15 /\
    fst r = Ret true /\
    GameStateManager.get_character_by_id target (gsm (snd r)) =
      Some (Character.with_hp (Z.max 0 (Character.hp c - total)) c) /\
    (forall other, other <> target ->
       GameStateManager.get_character_by_id other (gsm (snd r)) =
       GameStateManager.get_character_by_id other (gsm w)) /\
    cursor (random (snd r)) = (cursor (random w) + 3)%nat.
Proof.
  intros Hc r.
  destruct (missiles_range 3 w) as (total & w0 & Hrun & Hrange & Hcur & Hg).
  exists total. split; [lia|].
  assert (Hr : exists W,
    r = (Ret true, W) /\
    GameStateManager.characters (gsm W) =
      dict_alter (fun c0 => Character.with_hp (Z.max 0 (Character.hp c0 - total)) c0)
        target (GameStateManager.characters (gsm w)) /\
    random W = random w0).
  { subst r. unfold SpellsModule._execute_spell_effect.
    change (replace_space (lower (Spell.name magic_missile))) with "magic_missile".
    cbv zeta.
    change (String.eqb "magic_missile" "cure_wounds") with false.
    change (String.eqb "magic_missile" "magic_missile") with true.
    cbv iota. unfold bind at 1. rewrite Hrun.
    unfold bind at 1, deref at 1. rewrite Hg, Hc.
    destruct (Z.max 0 (Character.hp c - total) <=? 0); run; store;
      eexists; (split; [reflexivity|]); store; by rewrite Hg. }
  destruct Hr as (W & -> & HW & Hrand). cbn [fst snd].
  unfold GameStateManager.get_character_by_id in *. rewrite HW.
  split; [done|]. split; [by rewrite dict_get_alter_eq, Hc|].
  split; [intros other Hne; by apply dict_get_alter_ne|].
  by rewrite Hrand.
Qed.

(** X29: the hero of the skirmish aims at the goblin. *)
Lemma magic_missile_spec_witness :
  exists total,
    6 <= total <= 15 /\
    fst (SpellsModule._execute_spell_effect magic_missile "player" (Some "goblin_1")
           (world_of skirmish (constant_tape 0))) = Ret true.
Proof.
  destruct (magic_missile_spec "player" "goblin_1"
              (Character._initialize_defaults "goblin_1" "Goblin 1" "monster" (4, 4))
              (world_of skirmish (constant_tape 0)) eq_refl)
    as (total & Hrange & Hr & _).
  exists total. by split.
Defined.

(** ** The router, once more *)

Section RouterMore.
Context {St : Type}.
Implicit Types (ms : list (GameModule St)) (m : GameModule St) (a : Action.t) (st : St).

(** A scan ends in three ways only. *)
Lemma scan_exit_cases ms i a st :
  exit (scan ms i a st) = None \/
  exit (scan ms i a st) = Some (Ret true) \/
  exists e, exit (scan ms i a st) = Some (Raise e).
Proof.
  revert i st. induction ms as [|m ms IH]; intros i st; simpl; [by left|].
  destruct (can_handle m a st) as [[[]|e] st1]; simpl;
    [destruct (process_action m a st1) as [[[]|e] st2]; simpl| |];
    first [apply IH | by right; left | right; right; by eexists].
Qed.


Lemma dispatch_app_settled ms post a st :
  exit (scan ms 0 a st) <> None ->
  ModuleManager_process_action (ms ++ post) a st =
  ModuleManager_process_action ms a st.
Proof.
  intros Hx. unfold ModuleManager_process_action.
  enough (H : forall i st, exit (scan ms i a st) <> None ->
                           scan (ms ++ post) i a st = scan ms i a st)
    by (by rewrite H).
  clear st Hx.
  induction ms as [|m ms IH]; intros i st Hx; simpl in *; [done|].
  destruct (can_handle m a st) as [[[]|e] st1]; simpl in *;
    [destruct (process_action m a st1) as [[[]|e] st2]; simpl in *| |];
    try done; by rewrite IH.
Qed.


(** X19.  What the router writes to its logger tells how the dispatch
    ended: after the errors of modules that raised in [process_action],
    the last record is the one of the module that processed the action
    when the result is true, and the warning that no module could
    handle it when the result is false; a dispatch that ends in an
    exception of [can_handle] logs neither. *)
Theorem dispatch_records_shape ms a st :
  exists errors,
    Forall is_error_record errors /\
    match outcome (ModuleManager_process_action ms a st) with
    | Ret true =>
        exists cls,
          records (ModuleManager_process_action ms a st) =
            errors ++ [LogProcessed cls]
    | Ret false =>
        records (ModuleManager_process_action ms a st) = errors ++ [LogNoModule a]
    | Raise e => records (ModuleManager_process_action ms a st) = errors
    end.
Proof.
  assert (H : forall i st,
    exists errors, Forall is_error_record errors /\
      match exit (scan ms i a st) with
      | Some (Ret true) => exists cls, logged (scan ms i a st) = errors ++ [LogProcessed cls]
      | Some (Ret false) => False
      | Some (Raise e) => logged (scan ms i a st) = errors
      | None => logged (scan ms i a st) = errors
      end).
  { induction ms as [|m ms IH]; intros i s; simpl.
    { exists []. by split. }
    destruct (can_handle m a s) as [[[]|e] st1]; simpl;
      [destruct (process_action m a st1) as [[[]|e] st2]; simpl| |].
    - exists []. split; [done|]. by exists (cls_name m).
    - apply IH.
    - destruct (IH (S i) st2) as (errors & Herr & Hshape).
      exists (LogError (cls_name m) e :: errors).
      split; [constructor; [by eexists; eexists|done]|].
      destruct (exit (scan ms (S i) a st2)) as [[[]|e']|];
        [destruct Hshape as [cls ->]; by exists cls|done|by rewrite Hshape..].
    - apply IH.
    - exists []. by split. }
  destruct (H 0%nat st) as (errors & Herr & Hshape). exists errors. split; [done|].
  unfold ModuleManager_process_action.
  destruct (exit (scan ms 0 a st)) as [[[]|e]|]; simpl; try done.
  by rewrite Hshape.
Qed.
End RouterMore.

(** X20.  [main.py] registers the chat module after the four rule
    modules.  Whatever that module does when it processes an action,
    for every action whose type is not one of its three the engine's
    router returns what the router over the rule modules returns and
    leaves the same state; the rule modules are asked first, in the
    state the caller passed. *)
Theorem chat_module_leaves_rules_alone (chat : GameModule World) a w :
  (forall a' s, can_handle chat a' s = (Ret (chat_can_handle a'), s)) ->
  chat_can_handle a = false ->
  let engine := fst (register_module chat rule_modules) in
  outcome (ModuleManager_process_action engine a w) =
    outcome (ModuleManager_process_action rule_modules a w) /\
  final (ModuleManager_process_action engine a w) =
    final (ModuleManager_process_action rule_modules a w).
Proof.
  intros Hcan Hnot engine. subst engine. cbn [fst register_module].
  destruct (scan_exit_cases rule_modules 0 a w) as [Hx|Hx].
  - unfold ModuleManager_process_action.
    rewrite (scan_app rule_modules [chat] 0 a w Hx), Hx.
    cbn [scan emit exit world]. rewrite Hcan, Hnot. done.
  - rewrite dispatch_app_settled; [done|].
    destruct Hx as [Hx|[e Hx]]; by rewrite Hx.
Qed.

(** X20: the hero's step east, with the stand-in registered last. *)
Lemma chat_module_leaves_rules_alone_witness :
  chat_can_handle step_east = false /\
  outcome (ModuleManager_process_action (fst (register_module chat_stub rule_modules))
             step_east (world_of skirmish (constant_tape 0))) =
  outcome (ModuleManager_process_action rule_modules
             step_east (world_of skirmish (constant_tape 0))).
Proof.
  split; [reflexivity|].
  exact (proj1 (chat_module_leaves_rules_alone chat_stub step_east
                  (world_of skirmish (constant_tape 0))
                  (fun a' s => eq_refl) eq_refl)).
Defined.

(** ** Inventory *)

(** X21.  The armour class is recomputed from scratch whenever armour
    or a shield goes on or off: it is 10, plus the dexterity modifier
    when the item is a shield (not when it is armour), plus the bonuses
    of everything equipped.  So the order of equipping decides the
    result (shield last counts dexterity, armour last does not) and
    taking armour off again leaves 10 plus the earlier bonuses, whatever
    the armour class was before. *)
Theorem equipment_ac_accounting armor shield a s c :
  Item.type armor = "armor" -> Item.ac_bonus armor = Some a ->
  Item.type shield = "shield" -> Item.ac_bonus shield = Some s ->
  let b0 := default 0 (Character.equipment_ac_bonus c) in
  let on := InventoryModule._apply_item_bonuses in
  Character.ac (on shield true (on armor true c)) =
    10 + Character.dexterity_modifier c + (b0 + a + s) /\
  Character.ac (on armor true (on shield true c)) = 10 + (b0 + s + a) /\
  Character.ac (on armor false (on armor true c)) = 10 + b0 /\
  Character.equipment_ac_bonus (on armor false (on armor true c)) = Some b0.
Proof.
  intros Hta Ha Hts Hs b0 on. subst b0 on.
  unfold InventoryModule._apply_item_bonuses. rewrite Hta, Ha, Hts, Hs.
  destruct (Item.attack_bonus armor), (Item.attack_bonus shield);
    cbn; unfold Character.dexterity_modifier; cbn;
    repeat split; try f_equal; lia.
Qed.

(** X21: chain mail and shield on the hero. *)
Lemma equipment_ac_accounting_witness :
  Character.ac
    (InventoryModule._apply_item_bonuses shield_item true
       (InventoryModule._apply_item_bonuses chain_mail true packed_hero)) = 19 /\
  Character.ac
    (InventoryModule._apply_item_bonuses chain_mail true
       (InventoryModule._apply_item_bonuses shield_item true packed_hero)) = 18.
Proof.
  destruct (equipment_ac_accounting chain_mail shield_item 6 2 packed_hero
              eq_refl eq_refl eq_refl eq_refl) as (H1 & H2 & _).
  split; [exact H1|exact H2].
Defined.

(** [find_from] returns the first item whose lower-cased name is the
    wanted one, with its place in the list. *)
Lemma find_from_spec n wanted inv i item :
  InventoryModule.find_from n wanted inv = Some (i, item) ->
  (n <= i)%nat /\ inv !! (i - n)%nat = Some item /\
  lower (Item.name item) = wanted /\
  forall j other, (j < i - n)%nat -> inv !! j = Some other ->
                  lower (Item.name other) <> wanted.
Proof.
  revert n. induction inv as [|x inv IH]; intros n; simpl; [done|].
  destruct (String.eqb_spec (lower (Item.name x)) wanted) as [Heq|Hne].
  - intros [= <- <-]. rewrite Nat.sub_diag. repeat split; try done. lia.
  - intros H. destruct (IH _ H) as (Hle & Hat & Hname & Hfirst).
    split; [lia|]. replace (i - n)%nat with (S (i - S n)) by lia.
    split; [done|]. split; [done|].
    intros [|j] other Hj; simpl; [by intros [= <-]|].
    apply Hfirst. lia.
Qed.


Lemma find_item_found c inv name i item w :
  Character.inventory c = Some inv ->
  InventoryModule.find_from 0 (lower name) inv = Some (i, item) ->
  InventoryModule._find_item_in_inventory c (Some name) w = (Ret (Some (i, item)), w).
Proof.
  intros Hinv Hfind. unfold InventoryModule._find_item_in_inventory.
  rewrite Hinv. destruct inv; [done|]. by rewrite Hfind.
Qed.



Example potion_heals_nothing_at_full_hp :
  let r := InventoryModule._use_item "player" (Some "HEALING POTION")
             (world_of camp (constant_tape 0)) in
  fst r = Ret true /\
  GameStateManager.game_log (gsm (snd r)) = ["Hero uses HEALING POTION and heals 0 HP"] /\
  option_map Character.inventory
    (GameStateManager.get_character_by_id "player" (gsm (snd r))) =
    Some (Some [longsword; chain_mail; shield_item;
                Item.with_quantity 1 healing_potion]).
Proof. by vm_compute. Qed.

(** X23.  [_drop_item], for ASCII names, takes the whole entry of the
    first item of that name (letter case ignored) out of the pack,
    however many it counts, logs it, and touches nothing else: an item
    that is equipped stays equipped and keeps its bonuses. *)
Theorem drop_item_spec character_id c inv name i item w :
  GameStateManager.get_character_by_id character_id (gsm w) = Some c ->
  Character.inventory c = Some inv ->
  ascii_only name = true -> ascii_names inv ->
  InventoryModule.find_from 0 (lower name) inv = Some (i, item) ->
  let r := InventoryModule._drop_item character_id (Some name) w in
  fst r = Ret true /\
  GameStateManager.get_character_by_id character_id (gsm (snd r)) =
    Some (Character.with_inventory (Some (InventoryModule.remove_at i inv)) c) /\
  length (InventoryModule.remove_at i inv) = pred (length inv) /\
  GameStateManager.game_log (gsm (snd r)) =
    GameStateManager.game_log (gsm w) ++ [Character.name c +:+ " drops " +:+ name].
Proof.
  intros Hc Hinv _ _ Hfind r.
  destruct (find_from_spec _ _ _ _ _ Hfind) as (_ & Hat & _).
  rewrite Nat.sub_0_r in Hat.
  assert (Hrun : r =
    (Ret true,
     with_gsm
       (GameStateManager.add_to_log (Character.name c +:+ " drops " +:+ name)
          (GameStateManager.update_character character_id
             (fun c0 => Character.with_inventory
                          (option_map (InventoryModule.remove_at i)
                             (Character.inventory c0)) c0)
             (gsm w))) w)).
  { subst r. unfold InventoryModule._drop_item. unfold bind at 1, deref at 1.
    rewrite Hc. unfold bind at 1.
    rewrite (find_item_found c inv name i item w Hinv Hfind). by run. }
  rewrite Hrun. cbn [fst snd]. store.
  unfold GameStateManager.get_character_by_id in *. store.
  rewrite dict_get_alter_eq, Hc. cbn [fmap option_fmap option_map]. rewrite Hinv.
  split; [done|]. split; [done|]. split; [|done].
  apply lookup_lt_Some in Hat. unfold InventoryModule.remove_at.
  rewrite length_app, length_take, length_drop. lia.
Qed.

(** X23: the hero drops the pair of potions. *)
Lemma drop_item_spec_witness :
  fst (InventoryModule._drop_item "player" (Some "Healing Potion")
         (world_of camp (constant_tape 0))) = Ret true.
Proof.
  exact (proj1 (drop_item_spec "player" packed_hero
                  [longsword; chain_mail; shield_item; healing_potion]
                  "Healing Potion" 3 healing_potion
                  (world_of camp (constant_tape 0)) eq_refl eq_refl eq_refl
                  ltac:(by repeat constructor) eq_refl)).
Defined.



(** ** The state store, once more *)

Section DictSet.
Context {V : Type}.
Implicit Types (d : list (string * V)).

Lemma dict_get_set_eq k v d : dict_get k (dict_set k v d) = Some v.
Proof.
  induction d as [|[k' v'] d IH]; simpl.
  - by rewrite String.eqb_refl.
  - destruct (String.eqb_spec k k') as [->|Hne]; simpl.
    + by rewrite String.eqb_refl.
    + by destruct (String.eqb_spec k k').
Qed.

Lemma dict_get_set_ne k k' v d : k' <> k -> dict_get k' (dict_set k v d) = dict_get k' d.
Proof.
  intros Hne. induction d as [|[k0 v0] d IH]; simpl.
  - by destruct (String.eqb_spec k' k).
  - destruct (String.eqb_spec k k0) as [->|Hk]; simpl.
    + by destruct (String.eqb_spec k' k0).
    + by rewrite IH.
Qed.

(** Assigning to a key of the dict keeps the key's place; a new key
    goes to the end. *)
Lemma keys_dict_set k v d :
  (In k (keys d) -> keys (dict_set k v d) = keys d) /\
  (~ In k (keys d) -> keys (dict_set k v d) = keys d ++ [k]).
Proof.
  induction d as [|[k0 v0] d [IHin IHout]]; simpl; [by split|].
  destruct (String.eqb_spec k k0) as [->|Hk]; simpl.
  - split; [done|]. intros Hn. destruct Hn. by left.
  - split.
    + intros [?|Hin]; [by subst|]. by rewrite IHin.
    + intros Hn. rewrite IHout; [done|]. intros ?. apply Hn. by right.
Qed.

Lemma NoDup_keys_dict_set k v d : NoDup (keys d) -> NoDup (keys (dict_set k v d)).
Proof.
  intros Hnd. destruct (In_dec String.string_dec k (keys d)) as [Hin|Hout].
  - by rewrite (proj1 (keys_dict_set k v d) Hin).
  - rewrite (proj2 (keys_dict_set k v d) Hout).
    apply NoDup_app. split; [done|]. split; [|apply NoDup_singleton].
    intros x Hx Hk. apply list_elem_of_singleton in Hk. subst x.
    apply Hout. by apply list_elem_of_In.
Qed.

Lemma In_dict_set_NoDup k v d k' v' :
  NoDup (keys d) -> In (k', v') (dict_set k v d) ->
  (k' = k /\ v' = v) \/ (k' <> k /\ In (k', v') d).
Proof.
  intros Hnd Hin.
  assert (Hget : dict_get k' (dict_set k v d) = Some v').
  { apply In_dict_get; [by apply NoDup_keys_dict_set|done]. }
  destruct (String.eqb_spec k' k) as [->|Hne].
  - left. rewrite dict_get_set_eq in Hget. by injection Hget.
  - right. split; [done|]. rewrite dict_get_set_ne in Hget by done.
    by apply dict_get_Some_In.
Qed.
End DictSet.

(** X25.  [add_character] files the new character under its id: a
    lookup of that id finds it, with the fallback statistics of its
    type (HP 20 of 20 and AC 15 for a player, HP 10 of 10 and AC 12
    otherwise); every other id is found as before; an id that was
    already in the store is replaced in place, a new one goes to the
    end of the order; and a well-formed store stays well-formed. *)
Theorem add_character_spec char_id name char_type position g :
  let g' := GameStateManager.add_character char_id name char_type position g in
  let c := Character._initialize_defaults char_id name char_type position in
  GameStateManager.get_character_by_id char_id g' = Some c /\
  Character.id c = char_id /\ Character.position c = position /\
  Character.hp c = Character.max_hp c /\
  Character.hp c = (if String.eqb char_type "player" then 20 else 10) /\
  (forall other, other <> char_id ->
     GameStateManager.get_character_by_id other g' =
     GameStateManager.get_character_by_id other g) /\
  (In char_id (keys (GameStateManager.characters g)) ->
   keys (GameStateManager.characters g') = keys (GameStateManager.characters g)) /\
  (~ In char_id (keys (GameStateManager.characters g)) ->
   keys (GameStateManager.characters g') =
     keys (GameStateManager.characters g) ++ [char_id]) /\
  (store_wf g -> store_wf g') /\
  (hp_inv g -> hp_inv g').
Proof.
  intros g' c. subst g' c.
  unfold GameStateManager.add_character, GameStateManager.get_character_by_id. store.
  split; [apply dict_get_set_eq|]. split; [done|]. split; [done|].
  split; [by simpl; destruct (String.eqb char_type "player")|].
  split; [by simpl; destruct (String.eqb char_type "player")|].
  split; [intros other Hne; by apply dict_get_set_ne|].
  split; [apply keys_dict_set|]. split; [apply keys_dict_set|]. split.
  - intros [Hnd Hid]. split; store; [by apply NoDup_keys_dict_set|].
    intros k c Hin.
    apply (In_dict_set_NoDup _ _ _ _ _ Hnd) in Hin as [[-> ->]|[_ Hin]]; [done|].
    by apply Hid.
  - unfold hp_inv. store. intros Hall.
    assert (Hnew : hp_ok (Character._initialize_defaults char_id name char_type position)).
    { unfold hp_ok. simpl. destruct (String.eqb char_type "player"); lia. }
    induction Hall as [|[k0 c0] l H0 Hl IH]; simpl.
    + constructor; [exact Hnew|constructor].
    + destruct (String.eqb char_id k0); constructor; done.
Qed.

(** X26.  [get_characters_in_range] is the list of the characters of
    the store, in the order of the store and each as often as the
    store holds it, filtered by the test that the Manhattan distance
    from the position, at 5 feet a cell, is at most the range (the
    floor division of the code decides the same); a range below 5 feet
    reaches the position itself only, and a negative range nobody. *)
Theorem get_characters_in_range_spec position range_feet g :
  GameStateManager.get_characters_in_range position range_feet g =
    filter (fun c => manhattan (Character.position c) position * 5 <= range_feet)
      (values (GameStateManager.characters g)) /\
  (forall c,
     In c (GameStateManager.get_characters_in_range position range_feet g) <->
     In c (values (GameStateManager.characters g)) /\
     manhattan (Character.position c) position * 5 <= range_feet) /\
  (range_feet < 0 ->
   GameStateManager.get_characters_in_range position range_feet g = []) /\
  (forall c,
     In c (GameStateManager.get_characters_in_range position range_feet g) ->
     range_feet < 5 -> Character.position c = position).
Proof.
  assert (Hdiv : forall dist, dist <= range_feet `div` 5 <-> dist * 5 <= range_feet).
  { intros dist. pose proof (Z.div_mod range_feet 5 ltac:(lia)).
    pose proof (Z.mod_pos_bound range_feet 5 ltac:(lia)). lia. }
  assert (Heq :
    GameStateManager.get_characters_in_range position range_feet g =
    filter (fun c => manhattan (Character.position c) position * 5 <= range_feet)
      (values (GameStateManager.characters g))).
  { unfold GameStateManager.get_characters_in_range.
    apply list_filter_iff. intros c. apply Hdiv. }
  assert (Hmem : forall c,
    In c (GameStateManager.get_characters_in_range position range_feet g) <->
    In c (values (GameStateManager.characters g)) /\
    manhattan (Character.position c) position * 5 <= range_feet).
  { intros c. rewrite Heq, <- !list_elem_of_In, list_elem_of_filter. tauto. }
  split; [exact Heq|]. split; [exact Hmem|]. split.
  - intros Hneg.
    assert (Hnil : forall l : list Character.t, (forall x, ~ In x l) -> l = []).
    { intros [|x l] Hl; [done|]. destruct (Hl x). by left. }
    apply Hnil. intros x Hx. apply Hmem in Hx.
    pose proof (manhattan_nonneg (Character.position x) position). lia.
  - intros c Hin Hsmall. apply Hmem in Hin as [_ Hd]. unfold manhattan in Hd.
    destruct (Character.position c) as [x y], position as [px py]. simpl in Hd.
    f_equal; lia.
Qed.

(** ** Code that never raises *)

Section ReturnsRules.
Context {A B : Type}.

Lemma returns_ret (a : A) : returns (ret a).
Proof. intros w. by exists a. Qed.

Lemma returns_ask (f : GameStateManager.t -> A) : returns (ask f).
Proof. intros w. by eexists. Qed.

Lemma returns_call (f : GameStateManager.t -> A * GameStateManager.t) : returns (call f).
Proof. intros w. unfold call. destruct (f (gsm w)). by eexists. Qed.

Lemma returns_bind (m : M A) (k : A -> M B) :
  returns m -> (forall a, returns (k a)) -> returns (bind m k).
Proof.
  intros Hm Hk w. unfold bind. destruct (Hm w) as [a Ha].
  destruct (m w) as [o w1]. simpl in Ha. subst o. apply Hk.
Qed.
End ReturnsRules.

Lemma returns_tell f : returns (tell f).
Proof. intros w. by exists tt. Qed.

Lemma returns_log message : returns (log message).
Proof. apply returns_tell. Qed.

Lemma returns_mutate char_id f : returns (mutate char_id f).
Proof. apply returns_tell. Qed.

Lemma returns_randint lo hi : lo <= hi -> returns (randint lo hi).
Proof. intros H w. rewrite randint_const by done. by eexists. Qed.

Lemma returns_get_used char_id : returns (MovementModule.get_used char_id).
Proof. intros w. by eexists. Qed.

Lemma returns_set_used char_id v : returns (MovementModule.set_used char_id v).
Proof. intros w. by eexists. Qed.

Ltac returns_step :=
  lazymatch goal with
  | |- returns (bind _ _) => apply returns_bind; [|intros]
  | |- returns (ret _) => apply returns_ret
  | |- returns (ask _) => apply returns_ask
  | |- returns (call _) => apply returns_call
  | |- returns (log _) => apply returns_log
  | |- returns (mutate _ _) => apply returns_mutate
  | |- returns (randint _ _) => apply returns_randint; lia
  | |- returns (MovementModule.get_used _) => apply returns_get_used
  | |- returns (MovementModule.set_used _ _) => apply returns_set_used
  | |- returns (if ?b then _ else _) => destruct b
  | |- returns (match ?x with _ => _ end) => destruct x
  end.

Ltac returns_auto := cbv zeta; repeat returns_step.

Lemma execute_attack_returns attacker_id target_id :
  returns (CombatModule._execute_attack attacker_id target_id) /\
  returns (GameEngine.execute_attack attacker_id target_id).
Proof.
  split.
  - unfold CombatModule._execute_attack, CombatModule._apply_damage. returns_auto.
  - unfold GameEngine.execute_attack. returns_auto.
Qed.



(** ** The actions of the narrative agent *)

Lemma process_ai_action_returns action : returns (process_ai_action action).
Proof.
  unfold process_ai_action. returns_auto. apply execute_attack_returns.
Qed.







